(** * KIP-CUDA: kernel image processing, a shallow embedding

    The development follows the C++/CUDA sources: [image.cpp] (raster
    buffer, padding, layout conversion, equality), [kernel.cpp] (filter
    descriptor and its factories), [sequential/convolution.cpp] (the
    baseline engine) and [parallel/convolution.cu] (the CUDA kernels).

    Conventions of the model.
    - A C++ [int] is a [Z].  Signed overflow is undefined in C++, so the
      model describes the executions in which no [int] expression
      overflows; the source's index expressions that pass through [float]
      ([x + kx - floor((float)kernel_width / 2) + padding_width]) are
      exact below 2^24 and are written on [Z] as well.
    - A [uint8_t] is a [Z] in [0, 256); a conversion to [uint8_t] is
      written with its wrap-around ([to_uint8]).
    - A [float] is an IEEE-754 binary32 value ([spec_float] with a 24 bit
      mantissa), with round-to-nearest-even arithmetic.
    - A [throw std::invalid_argument(what)] is the outcome [Throw what],
      an [exit(status)] the outcome [Exit status], and an access through
      a raw pointer outside its allocation the outcome [Undefined]; so is
      a step whose effect the sources do not determine.
    - Device code is compiled as the README builds it, by [nvcc] with no
      option: a multiply-add on [float] in a kernel is contracted into one
      fused operation ([F32.fma]), while host code rounds the product and
      the sum separately.
    - A [for (int i = lo; i < hi; i++)] loop is [for_range lo hi].        *)

From Stdlib Require Import ZArith Zquot Lia Bool Ascii String.
From Stdlib Require Import Floats.SpecFloat.
From stdpp Require Import base tactics option list.

Local Open Scope Z_scope.

(* ===================================================================== *)
(** * Outcomes of a call                                                  *)
(* ===================================================================== *)

Inductive result (A : Type) : Type :=
| Ok (a : A)
| Throw (what : string)
| Exit (status : Z)
| Undefined.

Arguments Ok {A} a.
Arguments Throw {A} what.
Arguments Exit {A} status.
Arguments Undefined {A}.

Definition bind {A B : Type} (m : result A) (k : A -> result B) : result B :=
  match m with
  | Ok a => k a
  | Throw w => Throw w
  | Exit n => Exit n
  | Undefined => Undefined
  end.

Notation "'do' x <- m ; k" := (bind m (fun x => k))
  (at level 10, x name, m at level 100, k at level 200).

(** [for (int i = lo; i < hi; i++) s = body i s] *)
Fixpoint for_steps {St : Type} (n : nat) (i : Z) (body : Z -> St -> result St)
    (s : St) : result St :=
  match n with
  | O => Ok s
  | S n' => do s' <- body i s; for_steps n' (i + 1) body s'
  end.

Definition for_range {St : Type} (lo hi : Z) (body : Z -> St -> result St)
    (s : St) : result St :=
  for_steps (Z.to_nat (hi - lo)) lo body s.

(** Raw pointer accesses [p[i]] and [p[i] = v]. *)
Definition raw_load {A : Type} (p : list A) (i : Z) : result A :=
  if i <? 0 then Undefined
  else match p !! Z.to_nat i with
       | Some v => Ok v
       | None => Undefined
       end.

Definition raw_store {A : Type} (p : list A) (i : Z) (v : A) : result (list A) :=
  if (0 <=? i) && (i <? Z.of_nat (length p)) then Ok (<[Z.to_nat i := v]> p)
  else Undefined.

(** [memcpy(dst, src, n * sizeof(T))] into a destination of [n] elements. *)
Definition memcpy {A : Type} (src : list A) (n : Z) : result (list A) :=
  if Z.of_nat (length src) <? n then Undefined else Ok (take (Z.to_nat n) src).

(** [memcmp(a, b, n) == 0] *)
Definition memcmp_eq0 (a b : list Z) (n : Z) : result bool :=
  if (Z.of_nat (length a) <? n) || (Z.of_nat (length b) <? n) then Undefined
  else Ok (bool_decide (take (Z.to_nat n) a = take (Z.to_nat n) b)).

(* ===================================================================== *)
(** * Numbers                                                             *)
(* ===================================================================== *)

Abbreviation uint8_t := Z (only parsing).

(** Conversion of an integer to [uint8_t]. *)
Definition to_uint8 (z : Z) : uint8_t := z mod 256.

Definition is_uint8 (z : Z) : Prop := 0 <= z < 256.

(** The integer [clamp] macro of image.cpp:
    [#define clamp(start, x, end) std::min(std::max(start, x), end)]. *)
Definition clamp (start x end_ : Z) : Z := Z.min (Z.max start x) end_.

(** [std::floor((float)n / 2)] *)
Definition floor_half (n : Z) : Z := n / 2.

Module F32.
Abbreviation float := spec_float (only parsing).
Definition prec : Z := 24.
Definition emax : Z := 128.

Definition add : float -> float -> float := SFadd prec emax.
Definition mul : float -> float -> float := SFmul prec emax.
Definition div : float -> float -> float := SFdiv prec emax.
Definition ltb : float -> float -> bool := SFltb.

  (** [fmaf(x, y, z)], the fused multiply-add: [x * y + z] with the
      product kept exact and the sum rounded once. *)
Definition fma (x y z : float) : float :=
    match x, y with
    | S754_finite sx mx ex, S754_finite sy my ey =>
        let s := xorb sx sy in
        match z with
        | S754_zero _ =>
            binary_normalize prec emax (cond_Zopp s (Zpos (mx * my))) (ex + ey) false
        | _ => SFadd prec emax (S754_finite s (mx * my) (ex + ey)) z
        end
    | _, _ => SFadd prec emax (SFmul prec emax x y) z
    end.

  (** Conversion of an [int] to [float]. *)
Definition of_int (z : Z) : float := binary_normalize prec emax z 0 false.

Definition zero : float := S754_zero false.

  (** [std::max(a, b)] is [(a < b) ? b : a]; [std::min(a, b)] is
      [(b < a) ? b : a]. *)
Definition std_max (a b : float) : float := if ltb a b then b else a.
Definition std_min (a b : float) : float := if ltb b a then b else a.

  (** The [clamp] macro of sequential/convolution.cpp. *)
Definition clamp (start x end_ : float) : float :=
    std_min (std_max start x) end_.

  (** [fmax] and [fmin] of the CUDA math library: a NaN operand is
      dropped. *)
Definition fmax (a b : float) : float :=
    match a, b with
    | S754_nan, _ => b
    | _, S754_nan => a
    | _, _ => if ltb a b then b else a
    end.
Definition fmin (a b : float) : float :=
    match a, b with
    | S754_nan, _ => b
    | _, S754_nan => a
    | _, _ => if ltb b a then b else a
    end.

  (** The [clamp] macro of parallel/convolution.cu:
      [#define clamp(start, x, end) (fmin(fmax(start, x), end))]. *)
Definition cuda_clamp (start x end_ : float) : float :=
    fmin (fmax start x) end_.

  (** Conversion of a [float] to an integer: the fraction is discarded
      (truncation toward zero). *)
Definition trunc (f : float) : Z :=
    match f with
    | S754_finite s m e =>
        let a := match e with
                 | Zneg p => Z.shiftr (Zpos m) (Zpos p)
                 | _ => Z.shiftl (Zpos m) e
                 end in
        if s then - a else a
    | _ => 0
    end.

  (** [(uint8_t)f] *)
Definition to_uint8 (f : float) : uint8_t := to_uint8 (trunc f).

  (** Rounding to the nearest integer, halves away from zero ([round] of
      the C library); used to state the specification, not by the code. *)
Definition round (f : float) : Z :=
    match f with
    | S754_finite s m e =>
        let a := match e with
                 | Zneg p => Z.shiftr (2 * Zpos m + Z.shiftl 1 (Zpos p)) (Zpos p + 1)
                 | _ => Z.shiftl (Zpos m) e
                 end in
        if s then - a else a
    | _ => 0
    end.
End F32.

(** The [double] constants of kernel.cpp ([1.0/16], [-24.0/256], ...) and
    their conversion to [float] when they initialise a [float] array. *)
Module F64.
Definition prec : Z := 53.
Definition emax : Z := 1024.

Definition of_int (z : Z) : spec_float := binary_normalize prec emax z 0 false.
Definition div : spec_float -> spec_float -> spec_float := SFdiv prec emax.

Definition to_float (d : spec_float) : F32.float :=
  match d with
  | S754_finite s m e =>
      binary_normalize F32.prec F32.emax (if s then Zneg m else Zpos m) e false
  | _ => d
  end.
End F64.

(* ===================================================================== *)
(** * image.h / image.cpp                                                 *)
(* ===================================================================== *)

Inductive PaddingType := ZERO | REPLICATE | MIRROR.

Inductive ImageType := PNG | JPG | JPEG | BMP | TGA | UNKNOWN.

Module Image.
Record t := make {
    width : Z;
    height : Z;
    channels : Z;
    data : list uint8_t;
    is_SoA : bool
  }.

Definition get_size (im : t) : Z := width im * height im * channels im.

Definition with_data (im : t) (d : list uint8_t) : t :=
    make (width im) (height im) (channels im) d (is_SoA im).

  (** [Image(width, height, channels, is_SoA)]: a zero-filled buffer. *)
Definition create (w h c : Z) (soa : bool) : t :=
    make w h c (replicate (Z.to_nat (w * h * c)) 0) soa.

  (** [Image(width, height, channels, data, is_SoA)] *)
Definition create_from (w h c : Z) (d : list uint8_t) (soa : bool) : result t :=
    do d' <- memcpy d (w * h * c); Ok (make w h c d' soa).

  (** The index computed by [operator()], after its coordinate check. *)
Definition pixel_index (im : t) (col row channel : Z) : result Z :=
    if ((col <? 0) || (col >=? width im))
       || ((row <? 0) || (row >=? height im))
       || ((channel <? 0) || (channel >=? channels im))
    then Throw "Invalid coordinates."
    else Ok (if is_SoA im
             then channel * width im * height im + row * width im + col
             else (row * width im + col) * channels im + channel).

  (** Reading and writing through the reference [operator()] returns. *)
Definition get (im : t) (col row channel : Z) : result uint8_t :=
    do i <- pixel_index im col row channel; raw_load (data im) i.

Definition set (im : t) (col row channel : Z) (v : uint8_t) : result t :=
    do i <- pixel_index im col row channel;
    do d <- raw_store (data im) i v;
    Ok (with_data im d).

  (** The fold of the MIRROR branch:
      [m = std::abs(v % (2 * dim)); m = std::min(m, ((2 * dim) - 1) - (m + 1))]. *)
Definition mirror (v dim : Z) : Z :=
    let m := Z.abs (Z.rem v (2 * dim)) in
    Z.min m (((2 * dim) - 1) - (m + 1)).

Definition padding (im : t) (padding_width padding_height : Z)
      (padding_type : PaddingType) : result t :=
    if (padding_width <? 0) || (padding_height <? 0)
    then Throw "Invalid padding dimensions."
    else
      let padded_width := width im + padding_width * 2 in
      let padded_height := height im + padding_height * 2 in
      let padded_image := create padded_width padded_height (channels im) (is_SoA im) in
      for_range 0 (channels im) (fun channel =>
        for_range 0 padded_height (fun y =>
          for_range 0 padded_width (fun x padded_image =>
            let col := x - padding_width in
            let row := y - padding_height in
            if (0 <=? col) && (col <? width im) && (0 <=? row) && (row <? height im)
            then
              do v <- get im col row channel;
              set padded_image x y channel v
            else
              match padding_type with
              | ZERO => set padded_image x y channel 0
              | REPLICATE =>
                  let valid_col := clamp 0 col (width im - 1) in
                  let valid_row := clamp 0 row (height im - 1) in
                  do v <- get im valid_col valid_row channel;
                  set padded_image x y channel v
              | MIRROR =>
                  if (2 * width im =? 0) || (2 * height im =? 0) then Undefined
                  else
                    let mirror_col := mirror col (width im) in
                    let mirror_row := mirror row (height im) in
                    do v <- get im mirror_col mirror_row channel;
                    set padded_image x y channel v
              end)))
        padded_image.

  (** [operator==] *)
Definition eqb (a b : t) : result bool :=
    if negb (width a =? width b) || negb (height a =? height b)
       || negb (channels a =? channels b)
    then Ok false
    else memcmp_eq0 (data a) (data b) (get_size a).

Definition AoS_to_SoA (im : t) : result t :=
    let size := get_size im in
    let data_SoA := replicate (Z.to_nat size) 0 in
    do d <- for_range 0 (channels im) (fun channel =>
              for_range 0 (height im) (fun row =>
                for_range 0 (width im) (fun col data_SoA =>
                  do v <- raw_load (data im)
                            ((row * width im + col) * channels im + channel);
                  raw_store data_SoA
                    (channel * width im * height im + row * width im + col) v)))
            data_SoA;
    Ok (with_data im d).

Definition SoA_to_AoS (im : t) : result t :=
    let size := get_size im in
    let data_AoS := replicate (Z.to_nat size) 0 in
    do d <- for_range 0 (channels im) (fun channel =>
              for_range 0 (height im) (fun row =>
                for_range 0 (width im) (fun col data_AoS =>
                  do v <- raw_load (data im)
                            (channel * width im * height im + row * width im + col);
                  raw_store data_AoS
                    ((row * width im + col) * channels im + channel) v)))
            data_AoS;
    Ok (with_data im d).

(** [operator=]: [same_object] tells whether [this == &other].  The bytes
    copied are [get_size()] of the assigned-to image; its dimensions and
    layout flag are not touched. *)
Definition assign (this other : t) (same_object : bool) : result t :=
  if same_object then Ok this
  else
    if Z.of_nat (length (data this)) <? get_size this then Undefined
    else
      do d <- memcpy (data other) (get_size this);
      Ok (with_data this (d ++ drop (length d) (data this))).

(** The copy constructor: [Image(image.width, image.height,
    image.channels, image.is_SoA)] followed by a [memcpy]. *)
Definition copy (image : t) : result t :=
  let fresh := create (width image) (height image) (channels image) (is_SoA image) in
  do d <- memcpy (data image) (get_size fresh);
  Ok (with_data fresh d).

(** [strrchr(s, c)]: the suffix of [s] that starts at the last [c]. *)
Fixpoint strrchr (s : string) (c : Ascii.ascii) : option string :=
  match s with
  | EmptyString => None
  | String a s' =>
      match strrchr s' c with
      | Some r => Some r
      | None => if Ascii.eqb a c then Some s else None
      end
  end.

Definition get_image_type (filename : string) : ImageType :=
  match strrchr filename "."%char with
  | Some extension =>
      if String.eqb extension ".png" then PNG
      else if String.eqb extension ".jpg" then JPG
      else if String.eqb extension ".bmp" then BMP
      else if String.eqb extension ".tga" then TGA
      else UNKNOWN
  | None => UNKNOWN
  end.

(** What [stbi_load] hands back: the dimensions and the channel count of
    the file, and the decoded pixels, interleaved. *)
Record decoded := mk_decoded {
  d_width : Z;
  d_height : Z;
  d_channels : Z;
  d_data : list uint8_t
}.

(** [Image(filename, channel_force, is_SoA)] and [load_image], after the
    decoder: [loaded] is [None] when [stbi_load] returns [NULL]. *)
Definition load (filename : string) (loaded : option decoded)
    (channel_force : Z) (is_SoA : bool) : result t :=
  match loaded with
  | None => Throw ("Failed to read " ++ filename ++ ".")%string
  | Some f =>
      let channels := if channel_force =? 0 then d_channels f else channel_force in
      let image := create (d_width f) (d_height f) channels is_SoA in
      do d <- memcpy (d_data f) (get_size image);
      let image := with_data image d in
      if is_SoA then AoS_to_SoA image else Ok image
  end.

(** The calls [save_image] makes to the encoder. *)
Inductive write_call :=
| stbi_write_png (filename : string) (w h comp : Z) (bytes : list uint8_t) (stride : Z)
| stbi_write_jpg (filename : string) (w h comp : Z) (bytes : list uint8_t) (quality : Z)
| stbi_write_bmp (filename : string) (w h comp : Z) (bytes : list uint8_t)
| stbi_write_tga (filename : string) (w h comp : Z) (bytes : list uint8_t).

(** [save_image]: the image after the call (a planar buffer is converted
    in place) and the call made to the encoder, [None] when the function
    only prints "Failed to save". *)
Definition save_image (im : t) (filename : string) : result (t * option write_call) :=
  do im <- (if is_SoA im then SoA_to_AoS im else Ok im);
  let call :=
    match get_image_type filename with
    | PNG => Some (stbi_write_png filename (width im) (height im) (channels im)
                     (data im) (width im * channels im))
    | JPG | JPEG => Some (stbi_write_jpg filename (width im) (height im) (channels im)
                            (data im) 100)
    | BMP => Some (stbi_write_bmp filename (width im) (height im) (channels im) (data im))
    | TGA => Some (stbi_write_tga filename (width im) (height im) (channels im) (data im))
    | UNKNOWN => None
    end in
  Ok (im, call).
End Image.

(* ===================================================================== *)
(** * kernel.h / kernel.cpp                                               *)
(* ===================================================================== *)

Module Kernel.
Record t := make {
    width : Z;
    height : Z;
    data : list F32.float
  }.

Definition get_size (k : t) : Z := width k * height k.

  (** [Kernel(width, height)] *)
Definition create (w h : Z) : result t :=
    if (w <=? 0) || (h <=? 0)
    then Throw "Kernel dimensions must be greater than 0."
    else if (Z.rem w 2 =? 0) || (Z.rem h 2 =? 0)
    then Throw "Kernel dimensions must be odd."
    else if negb (w =? h)
    then Throw "Kernel dimensions must be equal."
    else Ok (make w h (replicate (Z.to_nat (w * h)) F32.zero)).

  (** [Kernel(width, height, data)] *)
Definition create_from (w h : Z) (d : list F32.float) : result t :=
    do k <- create w h;
    do d' <- memcpy d (get_size k);
    Ok (make (width k) (height k) d').

  (** [custom_kernel(size, data, normalize)].  The weight array belongs to
      the caller and is passed by pointer: the first component is the
      caller's array after the call, the second the outcome of the call. *)
Definition custom_kernel (size : Z) (d : list F32.float) (normalize : bool)
      : list F32.float * result t :=
    let normalized :=
      if normalize then
        do sum <- for_range 0 (size * size) (fun i sum =>
                    do v <- raw_load d i; Ok (F32.add sum v)) F32.zero;
        for_range 0 (size * size) (fun i d =>
          do v <- raw_load d i; raw_store d i (F32.div v sum)) d
      else Ok d in
    match normalized with
    | Ok d' => (d', create_from size size d')
    | Throw w => (d, Throw w)
    | Exit n => (d, Exit n)
    | Undefined => (d, Undefined)
    end.

  (** The index computed by [operator()], after its coordinate check. *)
Definition get (k : t) (col row : Z) : result F32.float :=
    if ((col <? 0) || (col >=? width k)) || ((row <? 0) || (row >=? height k))
    then Throw "Invalid kernel coordinates."
    else raw_load (data k) (row * width k + col).

(** The predefined kernels.  A weight written as a quotient is a
    [double] division, converted to [float] in the array. *)
Definition gaussian_blur_kernel : result t :=
  let q n := F64.to_float (F64.div (F64.of_int n) (F64.of_int 16)) in
  create_from 3 3
    [q 1; q 2; q 1;
     q 2; q 4; q 2;
     q 1; q 2; q 1].

Definition box_blur_kernel : result t :=
  let q := F64.to_float (F64.div (F64.of_int 1) (F64.of_int 9)) in
  create_from 3 3
    [q; q; q;
     q; q; q;
     q; q; q].

Definition edge_detection_kernel : result t :=
  let i := F32.of_int in
  create_from 3 3
    [i (-1); i (-1); i (-1);
     i (-1); i 8;    i (-1);
     i (-1); i (-1); i (-1)].

Definition sharpen_kernel : result t :=
  let i := F32.of_int in
  create_from 3 3
    [i 0;    i (-1); i 0;
     i (-1); i 5;    i (-1);
     i 0;    i (-1); i 0].

Definition unsharpen_mask_kernel : result t :=
  let q n := F64.to_float (F64.div (F64.of_int n) (F64.of_int 256)) in
  create_from 5 5
    [q (-1); q (-4);  q (-6);  q (-4);  q (-1);
     q (-4); q (-16); q (-24); q (-16); q (-4);
     q (-6); q (-24); q 476;   q (-24); q (-6);
     q (-4); q (-16); q (-24); q (-16); q (-4);
     q (-1); q (-4);  q (-6);  q (-4);  q (-1)].

Definition emboss_kernel : result t :=
  let i := F32.of_int in
  create_from 3 3
    [i (-2); i (-1); i 0;
     i (-1); i 1;    i 1;
     i 0;    i 1;    i 2].
End Kernel.

(** The errors the three dimension checks of [Kernel::Kernel] raise. *)
Definition InvalidDimensions (what : string) : Prop :=
  what = "Kernel dimensions must be greater than 0."%string
  \/ what = "Kernel dimensions must be odd."%string
  \/ what = "Kernel dimensions must be equal."%string.

(* ===================================================================== *)
(** * sequential/convolution.cpp                                          *)
(* ===================================================================== *)

Module Sequential.
Definition convolve (image : Image.t) (kernel : Kernel.t)
      (padding_type : PaddingType) : result Image.t :=
    let width := Image.width image in
    let height := Image.height image in
    let channels := Image.channels image in
    let kernel_width := Kernel.width kernel in
    let kernel_height := Kernel.height kernel in
    (* std::floor(kernel_width / 2): the division is on int *)
    let padding_width := Z.quot kernel_width 2 in
    let padding_height := Z.quot kernel_height 2 in
    do padded_image <- Image.padding image padding_width padding_height padding_type;
    let output_image := Image.create width height channels (Image.is_SoA image) in
    for_range 0 channels (fun channel =>
      for_range 0 height (fun y =>
        for_range 0 width (fun x output_image =>
          do output_value <-
            for_range 0 kernel_height (fun ky =>
              for_range 0 kernel_width (fun kx output_value =>
                let col := x + kx - floor_half kernel_width + padding_width in
                let row := y + ky - floor_half kernel_width + padding_height in
                do p <- Image.get padded_image col row channel;
                do w <- Kernel.get kernel kx ky;
                Ok (F32.add output_value (F32.mul (F32.of_int p) w))))
              F32.zero;
          Image.set output_image x y channel
            (F32.to_uint8 (F32.clamp F32.zero output_value (F32.of_int 255))))))
      output_image.
End Sequential.

(* ===================================================================== *)
(** * parallel/convolution.cu                                             *)
(* ===================================================================== *)

Module Parallel.
Definition ITERATIONS : Z := 15.
Definition TILE_WIDTH : Z := 16.
Definition MAX_MASK_WIDTH : Z := 10.

Record dim3 := mk_dim3 { x : Z; y : Z }.

  (** Memory obtained from [cudaMalloc], [malloc] or as dynamic shared
      memory is not initialised: [uninit i] is the byte found at offset
      [i] of a fresh allocation. *)
Definition alloc (uninit : nat -> uint8_t) (n : Z) : list uint8_t :=
    map uninit (seq 0 (Z.to_nat n)).

  (** * Device functions *)

Definition get_pixel_value (d_input : list uint8_t)
      (col row channel width height channels : Z) (is_SoA : bool) : result uint8_t :=
    let pixel_index :=
      if is_SoA then channel * width * height + row * width + col
      else (row * width + col) * channels + channel in
    raw_load d_input pixel_index.

Definition get_kernel_value (d_kernel : list F32.float)
      (col row width height : Z) : result F32.float :=
    raw_load d_kernel (row * width + col).

Definition get_shared_pixel_value (s_data : list uint8_t)
      (col row width height : Z) : result uint8_t :=
    raw_load s_data (row * width + col).

Definition set_pixel_value (d_input : list uint8_t)
      (col row channel width height channels : Z) (is_SoA : bool)
      (value : uint8_t) : result (list uint8_t) :=
    let pixel_index :=
      if is_SoA then channel * width * height + row * width + col
      else (row * width + col) * channels + channel in
    raw_store d_input pixel_index (to_uint8 value).

  (** * Kernels: the code one thread runs *)

  (** [convolution_kernel_global]; [convolution_kernel_constant] is the
      same text with [c_kernel] for [d_kernel].  The statement
      [output_value += pixel * weight] is one fused multiply-add. *)
Definition convolution_kernel_global (blockIdx blockDim threadIdx : dim3)
      (d_input : list uint8_t) (d_kernel : list F32.float)
      (width height channels kernel_width kernel_height
       padding_width padding_height : Z) (is_SoA : bool)
      (d_output : list uint8_t) : result (list uint8_t) :=
    let x_ := x blockIdx * x blockDim + x threadIdx in
    let y_ := y blockIdx * y blockDim + y threadIdx in
    let padded_width := width + 2 * padding_width in
    let padded_height := height + 2 * padding_height in
    if (x_ <? width) && (y_ <? height) then
      for_range 0 channels (fun channel d_output =>
        do output_value <-
          for_range 0 kernel_height (fun ky =>
            for_range 0 kernel_width (fun kx output_value =>
              let col := x_ + kx - floor_half kernel_width + padding_width in
              let row := y_ + ky - floor_half kernel_height + padding_height in
              do p <- get_pixel_value d_input col row channel
                        padded_width padded_height channels is_SoA;
              do w <- get_kernel_value d_kernel kx ky kernel_width kernel_height;
              Ok (F32.fma (F32.of_int p) w output_value)))
            F32.zero;
        set_pixel_value d_output x_ y_ channel width height channels is_SoA
          (F32.to_uint8 (F32.cuda_clamp F32.zero output_value (F32.of_int 255))))
        d_output
    else Ok d_output.

Definition convolution_kernel_constant (c_kernel : list F32.float)
      (blockIdx blockDim threadIdx : dim3) (d_input : list uint8_t)
      (width height channels kernel_width kernel_height
       padding_width padding_height : Z) (is_SoA : bool)
      (d_output : list uint8_t) : result (list uint8_t) :=
    convolution_kernel_global blockIdx blockDim threadIdx d_input c_kernel
      width height channels kernel_width kernel_height
      padding_width padding_height is_SoA d_output.

  (** One batch of the staging of [convolution_kernel_shared]: the thread
      fills the slot [s_index] of the tile. *)
Definition stage_slot (blockIdx blockDim : dim3) (d_input : list uint8_t)
      (width height channels kernel_width kernel_height
       padding_width padding_height : Z) (is_SoA : bool) (channel : Z)
      (s_index y_padding : Z) (guarded : bool)
      (s_data : list uint8_t) : result (list uint8_t) :=
    let s_width := x blockDim + (kernel_width - 1) in
    let s_height := y blockDim + (kernel_height - 1) in
    let padded_width := width + 2 * padding_width in
    let padded_height := height + 2 * padding_height in
    if s_width =? 0 then Undefined else
    let s_x := Z.rem s_index s_width in
    let s_y := Z.quot s_index s_width in
    let x_ := x blockIdx * x blockDim + s_x - floor_half kernel_width + padding_width in
    let y_ := y blockIdx * y blockDim + s_y - floor_half kernel_height + y_padding in
    if negb guarded || (s_y <? s_height) then
      if (0 <=? x_) && (x_ <? padded_width) && (0 <=? y_) && (y_ <? padded_height)
      then
        do v <- get_pixel_value d_input x_ y_ channel
                  padded_width padded_height channels is_SoA;
        raw_store s_data s_index v
      else raw_store s_data s_index 0
    else Ok s_data.

  (** [convolution_kernel_shared], for one channel, up to the first
      [__syncthreads()]: "Loading first (blockDim.x * blockDim.y)
      elements", then "Loading last (s_width * s_height) -
      (blockDim.x * blockDim.y) elements". *)
Definition shared_stage (blockIdx blockDim threadIdx : dim3)
      (d_input : list uint8_t)
      (width height channels kernel_width kernel_height
       padding_width padding_height : Z) (is_SoA : bool) (channel : Z)
      (s_data : list uint8_t) : result (list uint8_t) :=
    do s_data <-
      stage_slot blockIdx blockDim d_input width height channels
        kernel_width kernel_height padding_width padding_height is_SoA channel
        (y threadIdx * x blockDim + x threadIdx)
        padding_width false s_data;
    stage_slot blockIdx blockDim d_input width height channels
      kernel_width kernel_height padding_width padding_height is_SoA channel
      (y threadIdx * x blockDim + x threadIdx + x blockDim * y blockDim)
      padding_height true s_data.

  (** [convolution_kernel_shared], for one channel, between the two
      [__syncthreads()]. *)
Definition shared_compute (c_kernel : list F32.float)
      (blockIdx blockDim threadIdx : dim3) (s_data : list uint8_t)
      (width height channels kernel_width kernel_height : Z) (is_SoA : bool)
      (channel : Z) (d_output : list uint8_t) : result (list uint8_t) :=
    let s_width := x blockDim + (kernel_width - 1) in
    let s_height := y blockDim + (kernel_height - 1) in
    do output_value <-
      for_range 0 kernel_height (fun ky =>
        for_range 0 kernel_width (fun kx output_value =>
          let col := x threadIdx + kx in
          let row := y threadIdx + ky in
          do p <- get_shared_pixel_value s_data col row s_width s_height;
          do w <- get_kernel_value c_kernel kx ky kernel_width kernel_height;
          Ok (F32.fma (F32.of_int p) w output_value)))
        F32.zero;
    let x_ := x blockIdx * x blockDim + x threadIdx in
    let y_ := y blockIdx * y blockDim + y threadIdx in
    if (x_ <? width) && (y_ <? height) then
      set_pixel_value d_output x_ y_ channel width height channels is_SoA
        (F32.to_uint8 (F32.cuda_clamp F32.zero output_value (F32.of_int 255)))
    else Ok d_output.

  (** * Launches *)

  (** All threads of a block run [thread]; they write distinct locations,
      so the order in which the model visits them is immaterial. *)
Definition for_threads {St : Type} (blockDim : dim3)
      (thread : dim3 -> St -> result St) : St -> result St :=
    for_range 0 (y blockDim) (fun ty =>
      for_range 0 (x blockDim) (fun tx => thread (mk_dim3 tx ty))).

Definition for_blocks {St : Type} (gridDim : dim3)
      (block : dim3 -> St -> result St) : St -> result St :=
    for_range 0 (y gridDim) (fun by_ =>
      for_range 0 (x gridDim) (fun bx => block (mk_dim3 bx by_))).

  (** [kernel<<<gridDim, blockDim>>>(...)] for a kernel without barrier. *)
Definition launch {St : Type} (gridDim blockDim : dim3)
      (kernel : dim3 -> dim3 -> dim3 -> St -> result St) : St -> result St :=
    for_blocks gridDim (fun blockIdx =>
      for_threads blockDim (fun threadIdx => kernel blockIdx blockDim threadIdx)).

  (** One block of [convolution_kernel_shared<<<gridDim, blockDim,
      shared_size>>>]: per channel, every thread stages, the barrier, every
      thread convolves, the barrier.  The tile [s_data] starts as
      uninitialised shared memory. *)
Definition convolution_kernel_shared_block (uninit : nat -> uint8_t)
      (shared_size : Z) (c_kernel : list F32.float)
      (blockIdx blockDim : dim3) (d_input : list uint8_t)
      (width height channels kernel_width kernel_height
       padding_width padding_height : Z) (is_SoA : bool)
      (d_output : list uint8_t) : result (list uint8_t) :=
    do st <-
      for_range 0 channels (fun channel (st : list uint8_t * list uint8_t) =>
        do s_data <-
          for_threads blockDim (fun threadIdx =>
            shared_stage blockIdx blockDim threadIdx d_input
              width height channels kernel_width kernel_height
              padding_width padding_height is_SoA channel) (fst st);
        do d_output <-
          for_threads blockDim (fun threadIdx =>
            shared_compute c_kernel blockIdx blockDim threadIdx s_data
              width height channels kernel_width kernel_height is_SoA channel)
            (snd st);
        Ok (s_data, d_output))
        (alloc uninit shared_size, d_output);
    Ok (snd st).

  (** [cudaMemcpyToSymbol(c_kernel, h_kernel, kernel_size, ...)]: the
      symbol holds [MAX_MASK_WIDTH * MAX_MASK_WIDTH] floats.  The host
      methods make no test of [kernel_size] against the symbol; what a copy
      of more than it holds does is for the runtime to decide and is not
      in the sources: [Undefined]. *)
Definition copy_to_c_kernel (h_kernel : list F32.float) (count : Z)
      : result (list F32.float) :=
    if MAX_MASK_WIDTH * MAX_MASK_WIDTH <? count then Undefined
    else
      do w <- memcpy h_kernel count;
      Ok (list_inserts 0 w
            (replicate (Z.to_nat (MAX_MASK_WIDTH * MAX_MASK_WIDTH)) F32.zero)).

Definition grid_for (width height : Z) (blockDim : dim3) : dim3 :=
    mk_dim3 ((width + x blockDim - 1) / x blockDim)
            ((height + y blockDim - 1) / y blockDim).

  (** * Host methods *)

  (** Every call of the CUDA runtime is under [CUDA_CHECK_RETURN], which
      ends the process when the call reports an error; the host methods
      are written for the executions in which the allocations, copies and
      launches report none. *)
Definition convolve_global (uninit : nat -> uint8_t) (image : Image.t)
      (kernel : Kernel.t) (padding_type : PaddingType) : result Image.t :=
    let width := Image.width image in
    let height := Image.height image in
    let channels := Image.channels image in
    let kernel_width := Kernel.width kernel in
    let kernel_height := Kernel.height kernel in
    let padding_width := floor_half kernel_width in
    let padding_height := floor_half kernel_height in
    do padded_image <- Image.padding image padding_width padding_height padding_type;
    let output_size := width * height * channels in
    let kernel_size := kernel_width * kernel_height in
    do d_input <- memcpy (Image.data padded_image) (Image.get_size padded_image);
    do d_kernel <- memcpy (Kernel.data kernel) kernel_size;
    let blockDim := mk_dim3 TILE_WIDTH TILE_WIDTH in
    let gridDim := grid_for width height blockDim in
    do d_output <-
      for_range 0 ITERATIONS (fun _ =>
        launch gridDim blockDim (fun blockIdx blockDim threadIdx =>
          convolution_kernel_global blockIdx blockDim threadIdx d_input d_kernel
            width height channels kernel_width kernel_height
            padding_width padding_height (Image.is_SoA image)))
        (alloc uninit output_size);
    Image.create_from width height channels d_output (Image.is_SoA image).

Definition convolve_constant (uninit : nat -> uint8_t) (image : Image.t)
      (kernel : Kernel.t) (padding_type : PaddingType) : result Image.t :=
    let width := Image.width image in
    let height := Image.height image in
    let channels := Image.channels image in
    let kernel_width := Kernel.width kernel in
    let kernel_height := Kernel.height kernel in
    let padding_width := floor_half kernel_width in
    let padding_height := floor_half kernel_height in
    do padded_image <- Image.padding image padding_width padding_height padding_type;
    let output_size := width * height * channels in
    let kernel_size := kernel_width * kernel_height in
    do d_input <- memcpy (Image.data padded_image) (Image.get_size padded_image);
    do c_kernel <- copy_to_c_kernel (Kernel.data kernel) kernel_size;
    let blockDim := mk_dim3 TILE_WIDTH TILE_WIDTH in
    let gridDim := grid_for width height blockDim in
    do d_output <-
      for_range 0 ITERATIONS (fun _ =>
        launch gridDim blockDim (fun blockIdx blockDim threadIdx =>
          convolution_kernel_constant c_kernel blockIdx blockDim threadIdx d_input
            width height channels kernel_width kernel_height
            padding_width padding_height (Image.is_SoA image)))
        (alloc uninit output_size);
    Image.create_from width height channels d_output (Image.is_SoA image).

  (** [convolve_shared]. *)
Definition convolve_shared (uninit : nat -> uint8_t) (image : Image.t)
      (kernel : Kernel.t) (padding_type : PaddingType) : result Image.t :=
    let width := Image.width image in
    let height := Image.height image in
    let channels := Image.channels image in
    let kernel_width := Kernel.width kernel in
    let kernel_height := Kernel.height kernel in
    let padding_width := floor_half kernel_width in
    let padding_height := floor_half kernel_height in
    do padded_image <- Image.padding image padding_width padding_height padding_type;
    let output_size := width * height * channels in
    let kernel_size := kernel_width * kernel_height in
    let shared_size :=
      (TILE_WIDTH + kernel_width - 1) * (TILE_WIDTH + kernel_height - 1) in
    do d_input <- memcpy (Image.data padded_image) (Image.get_size padded_image);
    do c_kernel <- copy_to_c_kernel (Kernel.data kernel) kernel_size;
    let blockDim := mk_dim3 TILE_WIDTH TILE_WIDTH in
    let gridDim := grid_for width height blockDim in
    do d_output <-
      for_range 0 ITERATIONS (fun _ =>
        for_blocks gridDim (fun blockIdx =>
          convolution_kernel_shared_block uninit shared_size c_kernel
            blockIdx blockDim d_input
            width height channels kernel_width kernel_height
            padding_width padding_height (Image.is_SoA image)))
        (alloc uninit output_size);
    Image.create_from width height channels d_output (Image.is_SoA image).

  (** [convolve_pinned] pads the raster as the other host methods do and
      launches [convolution_kernel_shared] with the arguments of
      [convolve_shared]; its buffers travel through page-locked host memory
      and a stream ([cudaMallocHost], [cudaMemcpyAsync],
      [cudaMemcpyToSymbolAsync]).  A transfer is the identity on the bytes
      in this model and streams are not modelled: the definition stands for
      the executions in which every asynchronous copy has completed before
      its destination is read. *)
Definition convolve_pinned := convolve_shared.
End Parallel.

(* ===================================================================== *)
(** * sequential/convolution.cpp, the timed revision                      *)
(* ===================================================================== *)

(** The revision of the baseline that repeats the convolution
    [ITERATIONS] times to time it: [convolve] pads once and assigns the
    result of the private [convolution] to the output image at every
    iteration. *)
Module SequentialTimed.
Definition convolution (image : Image.t) (kernel : Kernel.t)
      (padded_image : Image.t) : result Image.t :=
    let width := Image.width image in
    let height := Image.height image in
    let channels := Image.channels image in
    let kernel_width := Kernel.width kernel in
    let kernel_height := Kernel.height kernel in
    let padded_width := Image.width padded_image in
    let padded_height := Image.height padded_image in
    let padding_width := Z.quot (padded_width - width) 2 in
    let padding_height := Z.quot (padded_height - height) 2 in
    let output_image := Image.create width height channels (Image.is_SoA image) in
    for_range 0 channels (fun channel =>
      for_range 0 height (fun y =>
        for_range 0 width (fun x output_image =>
          do output_value <-
            for_range 0 kernel_height (fun ky =>
              for_range 0 kernel_width (fun kx output_value =>
                let col := x + kx - floor_half kernel_width + padding_width in
                let row := y + ky - floor_half kernel_width + padding_height in
                do p <- Image.get padded_image col row channel;
                do w <- Kernel.get kernel kx ky;
                Ok (F32.add output_value (F32.mul (F32.of_int p) w))))
              F32.zero;
          Image.set output_image x y channel
            (F32.to_uint8 (F32.clamp F32.zero output_value (F32.of_int 255))))))
      output_image.

Definition convolve (image : Image.t) (kernel : Kernel.t)
      (padding_type : PaddingType) : result Image.t :=
    let width := Image.width image in
    let height := Image.height image in
    let channels := Image.channels image in
    let kernel_width := Kernel.width kernel in
    let kernel_height := Kernel.height kernel in
    let padding_width := floor_half kernel_width in
    let padding_height := floor_half kernel_height in
    do padded_image <- Image.padding image padding_width padding_height padding_type;
    let output_image := Image.create width height channels (Image.is_SoA image) in
    for_range 0 Parallel.ITERATIONS (fun _ output_image =>
      do result <- convolution image kernel padded_image;
      Image.assign output_image result false)
      output_image.
End SequentialTimed.

(* ===================================================================== *)
(** * parallel/convolution.cu, the revised tile-cached strategy           *)
(* ===================================================================== *)

(** The revision of [convolution_kernel_shared] and [convolve_shared]:
    the kernel stages the tile in as many batches as the tile takes, and
    the host copies the input, the weights and the output at every
    iteration.  The revision writes [TILE_WIDTH] where the first version
    writes [blockDim.x] and [blockDim.y]; a batch and the convolution of a
    thread are otherwise the text of the first version. *)
Module ParallelRevised.
  (** [convolution_kernel_shared], for one channel, up to the first
      [__syncthreads()]. *)
Definition shared_stage (blockIdx threadIdx : Parallel.dim3)
      (d_input : list uint8_t)
      (width height channels kernel_width kernel_height
       padding_width padding_height : Z) (is_SoA : bool) (channel : Z)
      (s_data : list uint8_t) : result (list uint8_t) :=
    let TILE_WIDTH := Parallel.TILE_WIDTH in
    let tile := Parallel.mk_dim3 TILE_WIDTH TILE_WIDTH in
    let s_width := TILE_WIDTH + (kernel_width - 1) in
    let s_height := TILE_WIDTH + (kernel_height - 1) in
    (* floor((float)s_width * s_height / (TILE_WIDTH * TILE_WIDTH)) *)
    let num_entire_batches := (s_width * s_height) / (TILE_WIDTH * TILE_WIDTH) in
    do s_data <-
      for_range 0 num_entire_batches (fun i s_data =>
        Parallel.stage_slot blockIdx tile d_input width height channels
          kernel_width kernel_height padding_width padding_height is_SoA channel
          (Parallel.y threadIdx * TILE_WIDTH + Parallel.x threadIdx
           + i * (TILE_WIDTH * TILE_WIDTH))
          padding_width false s_data)
        s_data;
    Parallel.stage_slot blockIdx tile d_input width height channels
      kernel_width kernel_height padding_width padding_height is_SoA channel
      (Parallel.y threadIdx * TILE_WIDTH + Parallel.x threadIdx
       + num_entire_batches * (TILE_WIDTH * TILE_WIDTH))
      padding_height true s_data.

  (** One block of [convolution_kernel_shared<<<gridDim, blockDim,
      shared_size>>>]. *)
Definition convolution_kernel_shared_block (uninit : nat -> uint8_t)
      (shared_size : Z) (c_kernel : list F32.float)
      (blockIdx blockDim : Parallel.dim3) (d_input : list uint8_t)
      (width height channels kernel_width kernel_height
       padding_width padding_height : Z) (is_SoA : bool)
      (d_output : list uint8_t) : result (list uint8_t) :=
    let tile := Parallel.mk_dim3 Parallel.TILE_WIDTH Parallel.TILE_WIDTH in
    do st <-
      for_range 0 channels (fun channel (st : list uint8_t * list uint8_t) =>
        do s_data <-
          Parallel.for_threads blockDim (fun threadIdx =>
            shared_stage blockIdx threadIdx d_input
              width height channels kernel_width kernel_height
              padding_width padding_height is_SoA channel) (fst st);
        do d_output <-
          Parallel.for_threads blockDim (fun threadIdx =>
            Parallel.shared_compute c_kernel blockIdx tile threadIdx s_data
              width height channels kernel_width kernel_height is_SoA channel)
            (snd st);
        Ok (s_data, d_output))
        (Parallel.alloc uninit shared_size, d_output);
    Ok (snd st).

  (** [convolve_shared] with an empty [results_path]: the state of the
      loop is the device buffer [d_output] and the host buffer
      [h_output]. *)
Definition convolve_shared (uninit : nat -> uint8_t) (image : Image.t)
      (kernel : Kernel.t) (padding_type : PaddingType) : result Image.t :=
    let width := Image.width image in
    let height := Image.height image in
    let channels := Image.channels image in
    let kernel_width := Kernel.width kernel in
    let kernel_height := Kernel.height kernel in
    let padding_width := floor_half kernel_width in
    let padding_height := floor_half kernel_height in
    do padded_image <- Image.padding image padding_width padding_height padding_type;
    let input_size :=
      Image.width padded_image * Image.height padded_image
      * Image.channels padded_image in
    let output_size := width * height * channels in
    let kernel_size := kernel_width * kernel_height in
    let shared_size :=
      (Parallel.TILE_WIDTH + kernel_width - 1)
      * (Parallel.TILE_WIDTH + kernel_height - 1) in
    let h_output := Parallel.alloc uninit output_size in
    let d_output := Parallel.alloc uninit output_size in
    let blockDim := Parallel.mk_dim3 Parallel.TILE_WIDTH Parallel.TILE_WIDTH in
    let gridDim := Parallel.grid_for width height blockDim in
    do st <-
      for_range 0 Parallel.ITERATIONS
        (fun _ (st : list uint8_t * list uint8_t) =>
           do d_input <- memcpy (Image.data padded_image) input_size;
           do c_kernel <- Parallel.copy_to_c_kernel (Kernel.data kernel) kernel_size;
           do d_output <-
             Parallel.for_blocks gridDim (fun blockIdx =>
               convolution_kernel_shared_block uninit shared_size c_kernel
                 blockIdx blockDim d_input
                 width height channels kernel_width kernel_height
                 padding_width padding_height (Image.is_SoA image))
               (fst st);
           do h_output <- memcpy d_output output_size;
           Ok (d_output, h_output))
        (d_output, h_output);
    Image.create_from width height channels (snd st) (Image.is_SoA image).
End ParallelRevised.

(* ===================================================================== *)
(** * main.cu: the command line                                           *)
(* ===================================================================== *)

Module Main.
(** The globals that [processInput] sets and [main] reads.  [KERNEL_DATA]
    is the array the pointer designates, empty for [nullptr]. *)
Record globals := mk_globals {
  IMAGE_PATH : string;
  SOA : bool;
  PADDING_TYPE : PaddingType;
  KERNEL : string;
  KERNEL_SIZE : Z;
  KERNEL_DATA : list F32.float;
  KERNEL_NORMALIZATION : bool;
  EXECUTION_TYPE : string;
  MEMORY_TYPE : string;
  OUTPUT_PATH : string;
  RESULTS_PATH : string
}.

(** The character ['\\'] of the source. *)
Definition backslash : Ascii.ascii := Ascii.ascii_of_nat 92.

Definition initial : globals :=
  mk_globals EmptyString false MIRROR EmptyString 0 [] false
    EmptyString EmptyString EmptyString
    (String "." (String backslash ("results" ++ String backslash EmptyString))).

(** [strncmp(a, b, n) == 0] *)
Fixpoint strncmp_eq0 (a b : string) (n : nat) {struct n} : bool :=
  match n with
  | O => true
  | S n' =>
      match a, b with
      | EmptyString, EmptyString => true
      | String x a', String y b' => Ascii.eqb x y && strncmp_eq0 a' b' n'
      | _, _ => false
      end
  end.

(** [strchr(s, c)]: the suffix of [s] that starts at the first [c]. *)
Fixpoint strchr (s : string) (c : Ascii.ascii) : option string :=
  match s with
  | EmptyString => None
  | String a s' => if Ascii.eqb a c then Some s else strchr s' c
  end.

(** [strchr(arg, '=') + 1], read as a string: undefined when [arg] has
    no ['=']. *)
Definition value_of (arg : string) : result string :=
  match strchr arg "="%char with
  | Some (String _ value) => Ok value
  | _ => Undefined
  end.

(** [arg[strlen(arg) - 1]] *)
Fixpoint last_char (s : string) : result Ascii.ascii :=
  match s with
  | EmptyString => Undefined
  | String a EmptyString => Ok a
  | String _ s' => last_char s'
  end.

(** What one round of the loop of [processInput] does: it goes on to the
    next argument, or the function returns. *)
Inductive step :=
| Continue (g : globals)
| Return (status : Z) (g : globals).

Section external.
(** [std::stoi], and the numbers that the [std::stringstream] loop of the
    [--kernel_data] branch stores, in order. *)
Variable stoi : string -> result Z.
Variable kernel_data_numbers : string -> list F32.float.

Definition process_arg (arg : string) (g : globals) : result step :=
  if String.eqb arg "--help" || String.eqb arg "-H" then Ok (Return 0 g)
  else if strncmp_eq0 arg "--image_path=" 12 || strncmp_eq0 arg "-I=" 3 then
    do value <- value_of arg;
    Ok (Continue (mk_globals value (SOA g) (PADDING_TYPE g) (KERNEL g) (KERNEL_SIZE g)
                    (KERNEL_DATA g) (KERNEL_NORMALIZATION g) (EXECUTION_TYPE g)
                    (MEMORY_TYPE g) (OUTPUT_PATH g) (RESULTS_PATH g)))
  else if String.eqb arg "--SoA" || String.eqb arg "-S" then
    Ok (Continue (mk_globals (IMAGE_PATH g) true (PADDING_TYPE g) (KERNEL g)
                    (KERNEL_SIZE g) (KERNEL_DATA g) (KERNEL_NORMALIZATION g)
                    (EXECUTION_TYPE g) (MEMORY_TYPE g) (OUTPUT_PATH g) (RESULTS_PATH g)))
  else if strncmp_eq0 arg "--padding_type=" 15 || strncmp_eq0 arg "-P=" 3 then
    do value <- value_of arg;
    let set pt :=
      Ok (Continue (mk_globals (IMAGE_PATH g) (SOA g) pt (KERNEL g) (KERNEL_SIZE g)
                      (KERNEL_DATA g) (KERNEL_NORMALIZATION g) (EXECUTION_TYPE g)
                      (MEMORY_TYPE g) (OUTPUT_PATH g) (RESULTS_PATH g))) in
    if String.eqb value "zero" then set ZERO
    else if String.eqb value "replicate" then set REPLICATE
    else if String.eqb value "mirror" then set MIRROR
    else Ok (Return 1 g)
  else if strncmp_eq0 arg "--kernel=" 9 || strncmp_eq0 arg "-K=" 3 then
    do value <- value_of arg;
    if String.eqb value "box_blur" || String.eqb value "gaussian_blur"
       || String.eqb value "sharpen" || String.eqb value "edge_detection"
       || String.eqb value "unsharpen_mask" || String.eqb value "emboss"
       || String.eqb value "custom"
    then
      Ok (Continue (mk_globals (IMAGE_PATH g) (SOA g) (PADDING_TYPE g) value
                      (KERNEL_SIZE g) (KERNEL_DATA g) (KERNEL_NORMALIZATION g)
                      (EXECUTION_TYPE g) (MEMORY_TYPE g) (OUTPUT_PATH g)
                      (RESULTS_PATH g)))
    else Ok (Return 1 g)
  else if String.eqb (KERNEL g) "custom"
          && (strncmp_eq0 arg "--kernel_size=" 14 || strncmp_eq0 arg "-Z=" 3) then
    do value <- value_of arg;
    do size <- stoi value;
    let g' := mk_globals (IMAGE_PATH g) (SOA g) (PADDING_TYPE g) (KERNEL g) size
                (KERNEL_DATA g) (KERNEL_NORMALIZATION g) (EXECUTION_TYPE g)
                (MEMORY_TYPE g) (OUTPUT_PATH g) (RESULTS_PATH g) in
    if size <=? 0 then Ok (Return 1 g') else Ok (Continue g')
  else if String.eqb (KERNEL g) "custom"
          && (strncmp_eq0 arg "--kernel_data=" 14 || strncmp_eq0 arg "-D=" 3) then
    do value <- value_of arg;
    let numbers := kernel_data_numbers value in
    let capacity := KERNEL_SIZE g * KERNEL_SIZE g in
    (* KERNEL_DATA = new float[capacity]; KERNEL_DATA[i++] = num *)
    if capacity <? Z.of_nat (length numbers) then Undefined
    else
      let g' := mk_globals (IMAGE_PATH g) (SOA g) (PADDING_TYPE g) (KERNEL g)
                  (KERNEL_SIZE g) numbers (KERNEL_NORMALIZATION g) (EXECUTION_TYPE g)
                  (MEMORY_TYPE g) (OUTPUT_PATH g) (RESULTS_PATH g) in
      if negb (Z.of_nat (length numbers) =? capacity) then Ok (Return 1 g')
      else Ok (Continue g')
  else if String.eqb (KERNEL g) "custom"
          && (String.eqb arg "--kernel_normalization" || String.eqb arg "-N") then
    Ok (Continue (mk_globals (IMAGE_PATH g) (SOA g) (PADDING_TYPE g) (KERNEL g)
                    (KERNEL_SIZE g) (KERNEL_DATA g) true (EXECUTION_TYPE g)
                    (MEMORY_TYPE g) (OUTPUT_PATH g) (RESULTS_PATH g)))
  else if strncmp_eq0 arg "--execution_type=" 17 || strncmp_eq0 arg "-E=" 3 then
    do value <- value_of arg;
    if String.eqb value "parallel" || String.eqb value "sequential" then
      Ok (Continue (mk_globals (IMAGE_PATH g) (SOA g) (PADDING_TYPE g) (KERNEL g)
                      (KERNEL_SIZE g) (KERNEL_DATA g) (KERNEL_NORMALIZATION g) value
                      (MEMORY_TYPE g) (OUTPUT_PATH g) (RESULTS_PATH g)))
    else Ok (Return 1 g)
  else if String.eqb (EXECUTION_TYPE g) "parallel"
          && (strncmp_eq0 arg "--memory_type=" 14 || strncmp_eq0 arg "-M=" 3) then
    do value <- value_of arg;
    if String.eqb value "global" || String.eqb value "constant"
       || String.eqb value "shared" || String.eqb value "pinned"
    then
      Ok (Continue (mk_globals (IMAGE_PATH g) (SOA g) (PADDING_TYPE g) (KERNEL g)
                      (KERNEL_SIZE g) (KERNEL_DATA g) (KERNEL_NORMALIZATION g)
                      (EXECUTION_TYPE g) value (OUTPUT_PATH g) (RESULTS_PATH g)))
    else Ok (Return 1 g)
  else if strncmp_eq0 arg "--output_path=" 14 || strncmp_eq0 arg "-O=" 3 then
    do value <- value_of arg;
    Ok (Continue (mk_globals (IMAGE_PATH g) (SOA g) (PADDING_TYPE g) (KERNEL g)
                    (KERNEL_SIZE g) (KERNEL_DATA g) (KERNEL_NORMALIZATION g)
                    (EXECUTION_TYPE g) (MEMORY_TYPE g) value (RESULTS_PATH g)))
  else if strncmp_eq0 arg "--results_path=" 12 || strncmp_eq0 arg "-R=" 3 then
    do last <- last_char arg;
    if Ascii.eqb last backslash then
      do value <- value_of arg;
      Ok (Continue (mk_globals (IMAGE_PATH g) (SOA g) (PADDING_TYPE g) (KERNEL g)
                      (KERNEL_SIZE g) (KERNEL_DATA g) (KERNEL_NORMALIZATION g)
                      (EXECUTION_TYPE g) (MEMORY_TYPE g) (OUTPUT_PATH g) value))
    else Ok (Return 1 g)
  else Ok (Return 1 g).

(** The loop of [processInput] over [argv[i]], [i >= 1], and the check
    of the required parameters after it. *)
Fixpoint process_args (args : list string) (g : globals) : result (Z * globals) :=
  match args with
  | [] =>
      if String.eqb (IMAGE_PATH g) EmptyString || String.eqb (KERNEL g) EmptyString
         || String.eqb (EXECUTION_TYPE g) EmptyString
      then Ok (1, g)
      else Ok (0, g)
  | arg :: args =>
      do s <- process_arg arg g;
      match s with
      | Continue g' => process_args args g'
      | Return status g' => Ok (status, g')
      end
  end.

Definition processInput (argv : list string) (g : globals) : result (Z * globals) :=
  process_args (tail argv) g.
End external.

(** The engine that [runConvolution] calls. *)
Inductive engine := sequential | global | constant | shared | pinned.

Definition runConvolution (g : globals) : engine :=
  if String.eqb (EXECUTION_TYPE g) "sequential" then sequential
  else if String.eqb (MEMORY_TYPE g) "global" then global
  else if String.eqb (MEMORY_TYPE g) "constant" then constant
  else if String.eqb (MEMORY_TYPE g) "shared" then shared
  else pinned.

(** The kernel that [main] builds: the caller's array after the call and
    the kernel (see [Kernel.custom_kernel]). *)
Definition main_kernel (g : globals) : list F32.float * result Kernel.t :=
  if String.eqb (KERNEL g) "box_blur" then (KERNEL_DATA g, Kernel.box_blur_kernel)
  else if String.eqb (KERNEL g) "gaussian_blur"
  then (KERNEL_DATA g, Kernel.gaussian_blur_kernel)
  else if String.eqb (KERNEL g) "sharpen" then (KERNEL_DATA g, Kernel.sharpen_kernel)
  else if String.eqb (KERNEL g) "edge_detection"
  then (KERNEL_DATA g, Kernel.edge_detection_kernel)
  else if String.eqb (KERNEL g) "unsharpen_mask"
  then (KERNEL_DATA g, Kernel.unsharpen_mask_kernel)
  else if String.eqb (KERNEL g) "emboss" then (KERNEL_DATA g, Kernel.emboss_kernel)
  else Kernel.custom_kernel (KERNEL_SIZE g) (KERNEL_DATA g) (KERNEL_NORMALIZATION g).
End Main.

(* ===================================================================== *)
(** * Specification-side definitions                                      *)
(* ===================================================================== *)

(** A raster as the data model describes it: positive dimensions, a buffer
    of [width * height * channels] elements, each a [uint8_t]. *)
Definition valid_image (im : Image.t) : Prop :=
  0 < Image.width im /\ 0 < Image.height im /\ 0 < Image.channels im
  /\ Z.of_nat (length (Image.data im)) = Image.get_size im
  /\ Forall is_uint8 (Image.data im).

(** A kernel as its constructors leave it. *)
Definition valid_kernel (k : Kernel.t) : Prop :=
  0 < Kernel.width k /\ Kernel.height k = Kernel.width k
  /\ Z.odd (Kernel.width k) = true
  /\ Z.of_nat (length (Kernel.data k)) = Kernel.get_size k.

Definition in_raster (w h c x y ch : Z) : Prop :=
  0 <= x < w /\ 0 <= y < h /\ 0 <= ch < c.

(** The offset of pixel [(x, y, ch)] in a [w * h * c] buffer. *)
Definition offset (soa : bool) (w h c x y ch : Z) : Z :=
  if soa then ch * w * h + y * w + x else (y * w + x) * c + ch.

(** The value of a pixel, [0] where the accessor fails. *)
Definition pixel (im : Image.t) (x y ch : Z) : uint8_t :=
  match Image.get im x y ch with
  | Ok v => v
  | _ => 0
  end.

Definition weight (k : Kernel.t) (kx ky : Z) : F32.float :=
  match Kernel.get k kx ky with
  | Ok v => v
  | _ => F32.zero
  end.

(** What a padded raster holds at [(x, y, ch)]. *)
Definition pad_value (fold : Z -> Z -> Z) (im : Image.t) (pw ph : Z)
    (pt : PaddingType) (x y ch : Z) : uint8_t :=
  let col := x - pw in
  let row := y - ph in
  if (0 <=? col) && (col <? Image.width im) && (0 <=? row) && (row <? Image.height im)
  then pixel im col row ch
  else match pt with
       | ZERO => 0
       | REPLICATE =>
           pixel im (clamp 0 col (Image.width im - 1))
                    (clamp 0 row (Image.height im - 1)) ch
       | MIRROR => pixel im (fold col (Image.width im)) (fold row (Image.height im)) ch
       end.

(** The fold the specification words for MIRROR:
    [m = |v mod 2 dim|; m = min(m, 2 dim - 1 - m)], with the floored
    remainder of mathematics. *)
Definition spec_mirror (v dim : Z) : Z :=
  let m := Z.abs (v mod (2 * dim)) in
  Z.min m (2 * dim - 1 - m).

(** The fold the code computes, in closed form:
    [m = |v| mod 2 dim; m = min(m, 2 dim - 2 - m)]. *)
Definition reflect_101 (v dim : Z) : Z :=
  let m := Z.abs v mod (2 * dim) in
  Z.min m (2 * dim - 2 - m).

(** The weighted sum of the padded raster over the kernel window whose
    top-left corner is [(x, y)], accumulated in [float] in the order
    rows [ky], then columns [kx]. *)
Definition weighted_sum (padded : Image.t) (k : Kernel.t) (x y ch : Z)
    : F32.float :=
  fold_left (fun acc ky =>
    fold_left (fun acc kx =>
      F32.add acc
        (F32.mul (F32.of_int (pixel padded (x + kx) (y + ky) ch)) (weight k kx ky)))
      (seqZ 0 (Kernel.width k)) acc)
    (seqZ 0 (Kernel.height k)) F32.zero.

(** The weighted sum of a window whose pixels all hold [v]. *)
Definition flat_sum (k : Kernel.t) (v : Z) : F32.float :=
  fold_left (fun acc ky =>
    fold_left (fun acc kx =>
      F32.add acc (F32.mul (F32.of_int v) (weight k kx ky)))
      (seqZ 0 (Kernel.width k)) acc)
    (seqZ 0 (Kernel.height k)) F32.zero.

(** The same sum as a CUDA kernel accumulates it: every step is one fused
    multiply-add. *)
Definition fused_sum (padded : Image.t) (k : Kernel.t) (x y ch : Z)
    : F32.float :=
  fold_left (fun acc ky =>
    fold_left (fun acc kx =>
      F32.fma (F32.of_int (pixel padded (x + kx) (y + ky) ch)) (weight k kx ky) acc)
      (seqZ 0 (Kernel.width k)) acc)
    (seqZ 0 (Kernel.height k)) F32.zero.

Definition fused_flat_sum (k : Kernel.t) (v : Z) : F32.float :=
  fold_left (fun acc ky =>
    fold_left (fun acc kx => F32.fma (F32.of_int v) (weight k kx ky) acc)
      (seqZ 0 (Kernel.width k)) acc)
    (seqZ 0 (Kernel.height k)) F32.zero.

(** The byte the engine stores for an accumulated value. *)
Definition stored (value : F32.float) : uint8_t :=
  F32.to_uint8 (F32.clamp F32.zero value (F32.of_int 255)).

(** The byte the specification words: [clamp(round(value), 0, 255)]. *)
Definition spec_stored (value : F32.float) : uint8_t :=
  clamp 0 (F32.round value) 255.

(** [writes W V s s']: the buffer [s'] is [s] except at the cells of [W],
    each of which holds a value that [V] allows for it. *)
Definition writes {A : Type} (W : nat -> Prop) (V : nat -> A -> Prop)
    (s s' : list A) : Prop :=
  length s' = length s
  /\ forall c, (W c /\ exists v, V c v /\ s' !! c = Some v)
               \/ (~ W c /\ s' !! c = s !! c).

(** The byte a CUDA kernel stores for an accumulated value: the cast of
    the clamped value at the call of [set_pixel_value], and the cast
    inside it. *)
Definition cuda_stored (value : F32.float) : uint8_t :=
  to_uint8 (F32.to_uint8 (F32.cuda_clamp F32.zero value (F32.of_int 255))).

(** The byte the tile of block [(bx, by)] is to hold at slot [i] for
    channel [ch]: the pixel of the padded raster under the slot, 0 where
    the slot lies outside the padded raster. *)
Definition tile_value (padded : Image.t) (tile_width s_width bx by_ ch i : Z)
    : uint8_t :=
  let x := bx * tile_width + Z.rem i s_width in
  let y := by_ * tile_width + Z.quot i s_width in
  if (0 <=? x) && (x <? Image.width padded) && (0 <=? y) && (y <? Image.height padded)
  then pixel padded x y ch else 0.

(** The cells of the output buffer that block [(bx, by)] stores for the
    channels below [chs]: its pixels that lie in the raster. *)
Definition block_cells (soa : bool) (W H C bx by_ chs : Z) (c : nat) : Prop :=
  exists ch, 0 <= ch < chs
    /\ exists ty, 0 <= ty < Parallel.TILE_WIDTH
    /\ exists tx, 0 <= tx < Parallel.TILE_WIDTH
    /\ (bx * Parallel.TILE_WIDTH + tx < W /\ by_ * Parallel.TILE_WIDTH + ty < H)
    /\ c = Z.to_nat (offset soa W H C (bx * Parallel.TILE_WIDTH + tx)
                       (by_ * Parallel.TILE_WIDTH + ty) ch).

(** [convolved padded k W H C soa c v]: [c] is the offset of a pixel of
    the [W x H x C] output raster and [v] the byte a CUDA kernel stores
    for it. *)
Definition convolved (padded : Image.t) (k : Kernel.t) (W H C : Z) (soa : bool)
    (c : nat) (v : Z) : Prop :=
  exists x y ch,
    in_raster W H C x y ch
    /\ c = Z.to_nat (offset soa W H C x y ch)
    /\ v = stored (fused_sum padded k x y ch).

(* ===================================================================== *)
(** * Concrete rasters and kernels                                        *)
(* ===================================================================== *)

(** A 4x4 single-channel raster whose pixel [(x, y)] holds [10 y + x]. *)
Definition raster_4x4 : Image.t :=
  Image.make 4 4 1
    [ 0;  1;  2;  3;
     10; 11; 12; 13;
     20; 21; 22; 23;
     30; 31; 32; 33] false.

(** A 2x2 raster with three channels, in both layouts. *)
Definition raster_2x2x3 (soa : bool) : Image.t :=
  Image.make 2 2 3 [1; 2; 3; 4; 5; 6; 7; 8; 9; 10; 11; 12] soa.

(** The 1x1 kernel of weight [1.0f]. *)
Definition identity_kernel : Kernel.t := Kernel.make 1 1 [F32.of_int 1].

(** [0.75f], and the 1x1 kernel of that weight. *)
Definition three_quarters : F32.float := S754_finite false 12582912 (-24).

Definition kernel_three_quarters : Kernel.t := Kernel.make 1 1 [three_quarters].

(** The 1x1 single-channel raster whose pixel is [1]. *)
Definition raster_1x1 : Image.t := Image.make 1 1 1 [1] false.

(** A 1x14 single-channel raster, every pixel 255. *)
Definition raster_1x14 : Image.t := Image.make 1 14 1 (replicate 14 255) false.

(** The 9x9 kernel whose weights are zero except [1.0f] at [(8, 8)]. *)
Definition kernel_9x9_corner : Kernel.t :=
  Kernel.make 9 9 (replicate 80 F32.zero ++ [F32.of_int 1]).

(* ===================================================================== *)
(** * Loops and raw memory                                                *)
(* ===================================================================== *)

Lemma for_steps_ok {St : Type} (P : Z -> St -> Prop) (body : Z -> St -> result St)
    (n : nat) :
  forall (i : Z) (s : St),
    P i s ->
    (forall j t, i <= j < i + Z.of_nat n -> P j t ->
       exists t', body j t = Ok t' /\ P (j + 1) t') ->
    exists s', for_steps n i body s = Ok s' /\ P (i + Z.of_nat n) s'.
Proof.
  induction n as [|n IH]; intros i s Hp Hb; simpl.
  - exists s. split; [done|]. by replace (i + Z.of_nat 0) with i by lia.
  - destruct (Hb i s) as (t & -> & Ht); [lia|done|]. simpl.
    destruct (IH (i + 1) t Ht) as (s' & -> & Hs').
    + intros j u Hj Hu. apply Hb; [lia|done].
    + exists s'. split; [done|].
      by replace (i + Z.of_nat (S n)) with (i + 1 + Z.of_nat n) by lia.
Qed.

(** The loop rule: an invariant [P i s] that every iteration preserves
    holds at the exit, and the loop returns. *)
Lemma for_range_ok {St : Type} (P : Z -> St -> Prop) (lo hi : Z)
    (body : Z -> St -> result St) (s : St) :
  lo <= hi ->
  P lo s ->
  (forall j t, lo <= j < hi -> P j t ->
     exists t', body j t = Ok t' /\ P (j + 1) t') ->
  exists s', for_range lo hi body s = Ok s' /\ P hi s'.
Proof.
  intros Hle Hp Hb. unfold for_range.
  destruct (for_steps_ok P body (Z.to_nat (hi - lo)) lo s Hp) as (s' & E & Hs').
  - intros j t Hj. apply Hb. lia.
  - exists s'. split; [done|].
    by replace hi with (lo + Z.of_nat (Z.to_nat (hi - lo))) by lia.
Qed.

(** A loop whose iterations are pure is a left fold. *)
Lemma for_range_fold {St : Type} (f : St -> Z -> St) (lo hi : Z)
    (body : Z -> St -> result St) (s : St) :
  (forall j t, lo <= j < hi -> body j t = Ok (f t j)) ->
  for_range lo hi body s = Ok (fold_left f (seqZ lo (hi - lo)) s).
Proof.
  intros Hb. unfold for_range.
  assert (G : forall k i t, lo <= i -> i + Z.of_nat k <= Z.max lo hi ->
            for_steps k i body t = Ok (fold_left f (seqZ i (Z.of_nat k)) t)).
  { induction k as [|k IH]; intros i t Hi Hk; [done|].
    rewrite seqZ_cons by lia. cbn [for_steps fold_left].
    rewrite Hb by lia. cbn [bind]. rewrite IH by lia.
    do 3 f_equal; lia. }
  destruct (Z.le_gt_cases lo hi).
  - rewrite G by lia. by rewrite Z2Nat.id by lia.
  - replace (Z.to_nat (hi - lo)) with 0%nat by lia.
    by rewrite seqZ_nil by lia.
Qed.

Lemma raw_load_ok {A : Type} (p : list A) (i : Z) (v : A) :
  0 <= i -> p !! Z.to_nat i = Some v -> raw_load p i = Ok v.
Proof.
  intros Hi E. unfold raw_load.
  destruct (Z.ltb_spec i 0); [lia|]. by rewrite E.
Qed.

Lemma raw_load_lt {A : Type} (p : list A) (i : Z) :
  0 <= i < Z.of_nat (length p) -> exists v, raw_load p i = Ok v /\ p !! Z.to_nat i = Some v.
Proof.
  intros Hi. destruct (lookup_lt_is_Some_2 p (Z.to_nat i)) as [v E]; [lia|].
  exists v. split; [|done]. apply raw_load_ok; [lia|done].
Qed.

Lemma raw_store_ok {A : Type} (p : list A) (i : Z) (v : A) :
  0 <= i < Z.of_nat (length p) -> raw_store p i v = Ok (<[Z.to_nat i := v]> p).
Proof.
  intros Hi. unfold raw_store.
  destruct (Z.leb_spec 0 i); [|lia].
  destruct (Z.ltb_spec i (Z.of_nat (length p))); [done|lia].
Qed.

(* ===================================================================== *)
(** * Pixel offsets                                                       *)
(* ===================================================================== *)

Lemma row_major_bounds (n m i j : Z) :
  0 <= i < n -> 0 <= j < m -> 0 <= j * n + i < n * m.
Proof.
  intros Hi Hj.
  assert (0 <= j * n) by nia.
  assert (j * n <= (m - 1) * n) by nia.
  nia.
Qed.

Lemma offset_bounds (soa : bool) (w h c x y ch : Z) :
  in_raster w h c x y ch -> 0 <= offset soa w h c x y ch < w * h * c.
Proof.
  unfold in_raster, offset. intros (Hx & Hy & Hc).
  pose proof (row_major_bounds w h x y Hx Hy) as Hr.
  destruct soa.
  - pose proof (row_major_bounds (w * h) c (y * w + x) ch Hr Hc). lia.
  - assert (Hc' : 0 <= y * w + x < w * h) by lia.
    pose proof (row_major_bounds c (w * h) ch (y * w + x) Hc Hc'). lia.
Qed.

Lemma quot_rem_unique (b q r q' r' : Z) :
  0 <= r < b -> 0 <= r' < b -> q * b + r = q' * b + r' -> q = q' /\ r = r'.
Proof.
  intros Hr Hr' E.
  apply (Z.div_mod_unique b q q' r r'); [by left|by left|lia].
Qed.

Lemma offset_inj (soa : bool) (w h c x y ch x' y' ch' : Z) :
  in_raster w h c x y ch -> in_raster w h c x' y' ch' ->
  offset soa w h c x y ch = offset soa w h c x' y' ch' ->
  x = x' /\ y = y' /\ ch = ch'.
Proof.
  unfold in_raster, offset. intros (Hx & Hy & Hc) (Hx' & Hy' & Hc') E.
  destruct soa.
  - pose proof (row_major_bounds w h x y Hx Hy).
    pose proof (row_major_bounds w h x' y' Hx' Hy').
    destruct (quot_rem_unique (w * h) ch (y * w + x) ch' (y' * w + x'))
      as [-> E']; [lia|lia|lia|].
    destruct (quot_rem_unique w y x y' x') as [-> ->]; done.
  - destruct (quot_rem_unique c (y * w + x) ch (y' * w + x') ch')
      as [E' ->]; [lia|lia|lia|].
    destruct (quot_rem_unique w y x y' x') as [-> ->]; done.
Qed.

(** Every offset below [w * h * c] is the offset of a pixel. *)
Lemma offset_surj (soa : bool) (w h c j : Z) :
  0 < w -> 0 < h -> 0 < c -> 0 <= j < w * h * c ->
  exists x y ch, in_raster w h c x y ch /\ offset soa w h c x y ch = j.
Proof.
  intros Hw Hh Hc Hj. unfold in_raster, offset. destruct soa.
  - exists (j mod w), ((j / w) mod h), (j / (w * h)).
    assert (0 <= j mod w < w) by (apply Z.mod_pos_bound; lia).
    assert (0 <= (j / w) mod h < h) by (apply Z.mod_pos_bound; lia).
    assert (0 <= j / (w * h)) by (apply Z.div_pos; nia).
    assert (j / (w * h) < c) by (apply Z.div_lt_upper_bound; nia).
    repeat split; try lia.
    rewrite <- Z.div_div by lia.
    pose proof (Z.div_mod j w). pose proof (Z.div_mod (j / w) h). nia.
  - exists ((j / c) mod w), (j / c / w), (j mod c).
    assert (0 <= j mod c < c) by (apply Z.mod_pos_bound; lia).
    assert (0 <= (j / c) mod w < w) by (apply Z.mod_pos_bound; lia).
    assert (0 <= j / c) by (apply Z.div_pos; lia).
    assert (0 <= j / c / w) by (apply Z.div_pos; lia).
    assert (j / c / w < h).
    { apply Z.div_lt_upper_bound; [lia|]. apply Z.div_lt_upper_bound; nia. }
    repeat split; try lia.
    pose proof (Z.div_mod j c). pose proof (Z.div_mod (j / c) w). nia.
Qed.

(* ===================================================================== *)
(** * Filling a buffer pixel by pixel                                     *)
(* ===================================================================== *)

(** The three nested loops over channel, row and column that the padding
    builder, the layout conversions and the baseline engine share: when
    the body at [(x, y, ch)] writes the cell at the pixel's offset and no
    other cell, the loops return, every pixel holds its value and the
    other cells are untouched. *)
Section fill.
Context {St A : Type}.
Variables (W H C : Z) (soa : bool).
Variable cell : St -> nat -> option A.
Variable good : St -> Prop.
Variable val : Z -> Z -> Z -> A.
Variable body : Z -> Z -> Z -> St -> result St.

Hypothesis body_ok : forall ch y x s,
    in_raster W H C x y ch -> good s ->
    exists s', body ch y x s = Ok s' /\ good s'
      /\ cell s' (Z.to_nat (offset soa W H C x y ch)) = Some (val x y ch)
      /\ forall j, j <> Z.to_nat (offset soa W H C x y ch) -> cell s' j = cell s j.

Lemma fill_ok (s0 : St) :
  0 <= W -> 0 <= H -> 0 <= C -> good s0 ->
  exists s',
    for_range 0 C (fun ch =>
      for_range 0 H (fun y =>
        for_range 0 W (fun x => body ch y x))) s0 = Ok s'
    /\ good s'
    /\ (forall x y ch, in_raster W H C x y ch ->
          cell s' (Z.to_nat (offset soa W H C x y ch)) = Some (val x y ch))
    /\ (forall j, (forall x y ch, in_raster W H C x y ch ->
                     j <> Z.to_nat (offset soa W H C x y ch)) ->
          cell s' j = cell s0 j).
Proof using All.
  intros HW HH HC Hg0.
  set (Inv := fun (ch0 y0 x0 : Z) (s : St) =>
    good s
    /\ (forall x y ch, in_raster W H C x y ch ->
          ch < ch0 \/ (ch = ch0 /\ (y < y0 \/ (y = y0 /\ x < x0))) ->
          cell s (Z.to_nat (offset soa W H C x y ch)) = Some (val x y ch))
    /\ (forall j, (forall x y ch, in_raster W H C x y ch ->
                     j <> Z.to_nat (offset soa W H C x y ch)) ->
          cell s j = cell s0 j)).
  destruct (for_range_ok (fun ch s => Inv ch 0 0 s) 0 C
              (fun ch => for_range 0 H (fun y => for_range 0 W (fun x => body ch y x)))
              s0) as (s' & E & Hg & Hd & Hf); [lia| | |].
  - split; [done|]. split; [|done]. intros x y ch (? & ? & ?) ?. lia.
  - intros ch s Hch HI.
    destruct (for_range_ok (fun y s => Inv ch y 0 s) 0 H
                (fun y => for_range 0 W (fun x => body ch y x)) s)
      as (s1 & E1 & Hg1 & Hd1 & Hf1); [lia|done| |].
    + intros y t Hy Ht.
      destruct (for_range_ok (fun x s => Inv ch y x s) 0 W
                  (fun x => body ch y x) t)
        as (s2 & E2 & Hg2 & Hd2 & Hf2); [lia|done| |].
      * intros x u Hx (Hgu & Hdu & Hfu).
        assert (Hin : in_raster W H C x y ch) by (unfold in_raster; lia).
        destruct (body_ok ch y x u Hin Hgu) as (u' & Eu & Hg' & Hset & Hother).
        exists u'. split; [done|]. split; [done|]. split.
        -- intros x' y' ch' Hin' Hb.
           destruct (decide (x' = x /\ y' = y /\ ch' = ch)) as [(-> & -> & ->)|Hne];
             [done|].
           rewrite Hother.
           ++ apply Hdu; [done|]. lia.
           ++ intros Heq. apply Hne.
              pose proof (offset_bounds soa W H C x y ch Hin).
              pose proof (offset_bounds soa W H C x' y' ch' Hin').
              apply (offset_inj soa W H C); [done|done|lia].
        -- intros j Hj. rewrite Hother by (by apply Hj). by apply Hfu.
      * exists s2. split; [done|]. split; [done|]. split; [|done].
        intros x' y' ch' Hin' Hb. apply Hd2; [done|].
        destruct Hin' as (? & ? & ?). lia.
    + exists s1. split; [done|]. split; [done|]. split; [|done].
      intros x' y' ch' Hin' Hb. apply Hd1; [done|].
      destruct Hin' as (? & ? & ?). lia.
  - exists s'. split; [done|]. split; [done|]. split; [|done].
    intros x y ch Hin. apply Hd; [done|]. destruct Hin as (? & ? & ?). lia.
Qed.
End fill.

(* ===================================================================== *)
(** * The pixel accessor                                                  *)
(* ===================================================================== *)

Lemma pixel_index_ok (im : Image.t) (x y ch : Z) :
  in_raster (Image.width im) (Image.height im) (Image.channels im) x y ch ->
  Image.pixel_index im x y ch
  = Ok (offset (Image.is_SoA im) (Image.width im) (Image.height im)
          (Image.channels im) x y ch).
Proof.
  intros (Hx & Hy & Hc). unfold Image.pixel_index, offset.
  destruct (Z.ltb_spec x 0); [lia|].
  destruct (Z.geb_spec x (Image.width im)); [lia|].
  destruct (Z.ltb_spec y 0); [lia|].
  destruct (Z.geb_spec y (Image.height im)); [lia|].
  destruct (Z.ltb_spec ch 0); [lia|].
  destruct (Z.geb_spec ch (Image.channels im)); [lia|].
  done.
Qed.

Lemma pixel_index_throw (im : Image.t) (x y ch : Z) :
  ~ in_raster (Image.width im) (Image.height im) (Image.channels im) x y ch ->
  Image.pixel_index im x y ch = Throw "Invalid coordinates.".
Proof.
  intros Hn. unfold Image.pixel_index.
  destruct (Z.ltb_spec x 0); [done|].
  destruct (Z.geb_spec x (Image.width im)); [done|].
  destruct (Z.ltb_spec y 0); [done|].
  destruct (Z.geb_spec y (Image.height im)); [done|].
  destruct (Z.ltb_spec ch 0); [done|].
  destruct (Z.geb_spec ch (Image.channels im)); [done|].
  exfalso. apply Hn. unfold in_raster. lia.
Qed.

Lemma get_ok (im : Image.t) (x y ch : Z) :
  Z.of_nat (length (Image.data im)) = Image.get_size im ->
  in_raster (Image.width im) (Image.height im) (Image.channels im) x y ch ->
  exists v,
    Image.get im x y ch = Ok v
    /\ Image.data im !! Z.to_nat (offset (Image.is_SoA im) (Image.width im)
                                    (Image.height im) (Image.channels im) x y ch)
       = Some v.
Proof.
  intros Hlen Hin. unfold Image.get. rewrite pixel_index_ok by done. simpl.
  apply raw_load_lt. rewrite Hlen. unfold Image.get_size.
  by apply offset_bounds.
Qed.

Lemma set_ok (im : Image.t) (x y ch : Z) (v : uint8_t) :
  Z.of_nat (length (Image.data im)) = Image.get_size im ->
  in_raster (Image.width im) (Image.height im) (Image.channels im) x y ch ->
  Image.set im x y ch v
  = Ok (Image.with_data im
          (<[Z.to_nat (offset (Image.is_SoA im) (Image.width im)
                         (Image.height im) (Image.channels im) x y ch) := v]>
             (Image.data im))).
Proof.
  intros Hlen Hin. unfold Image.set. rewrite pixel_index_ok by done. simpl.
  rewrite raw_store_ok; [done|]. rewrite Hlen. unfold Image.get_size.
  by apply offset_bounds.
Qed.

Lemma pixel_get (im : Image.t) (x y ch : Z) (v : uint8_t) :
  Image.get im x y ch = Ok v -> pixel im x y ch = v.
Proof. intros E. unfold pixel. by rewrite E. Qed.

(* ===================================================================== *)
(** * The MIRROR fold                                                     *)
(* ===================================================================== *)

(** The fold of the code is the reflection that does not repeat the edge. *)
Lemma mirror_reflect_101 (v dim : Z) :
  0 < dim -> Image.mirror v dim = reflect_101 v dim.
Proof.
  intros Hd. unfold Image.mirror, reflect_101.
  rewrite <- Z.rem_abs_l by lia.
  rewrite Z.rem_mod_nonneg by lia.
  f_equal. lia.
Qed.

Lemma mirror_inside (v dim : Z) :
  0 <= v < dim -> Image.mirror v dim = v.
Proof.
  intros Hv. rewrite mirror_reflect_101 by lia. unfold reflect_101.
  rewrite Z.abs_eq by lia. rewrite Z.mod_small by lia. lia.
Qed.

Lemma mirror_before (v dim : Z) :
  - dim < v < 0 -> Image.mirror v dim = - v.
Proof.
  intros Hv. rewrite mirror_reflect_101 by lia. unfold reflect_101.
  rewrite Z.abs_neq by lia. rewrite Z.mod_small by lia. lia.
Qed.

Lemma mirror_after (v dim : Z) :
  dim <= v < 2 * dim - 1 -> Image.mirror v dim = 2 * dim - 2 - v.
Proof.
  intros Hv. rewrite mirror_reflect_101 by lia. unfold reflect_101.
  rewrite Z.abs_eq by lia. rewrite Z.mod_small by lia. lia.
Qed.

(** With a padding narrower than the raster the fold lands inside it. *)
Lemma mirror_range (v dim : Z) :
  - dim < v < 2 * dim - 1 -> 0 <= Image.mirror v dim < dim.
Proof.
  intros Hv.
  destruct (Z.lt_ge_cases v 0); [rewrite mirror_before by lia; lia|].
  destruct (Z.lt_ge_cases v dim); [rewrite mirror_inside by lia; lia|].
  rewrite mirror_after by lia. lia.
Qed.

Lemma clamp_range (v dim : Z) : 0 < dim -> 0 <= clamp 0 v (dim - 1) < dim.
Proof. unfold clamp. lia. Qed.

(* ===================================================================== *)
(** * The padding builder                                                 *)
(* ===================================================================== *)

Lemma padding_throw (im : Image.t) (pw ph : Z) (pt : PaddingType) :
  pw < 0 \/ ph < 0 ->
  Image.padding im pw ph pt = Throw "Invalid padding dimensions.".
Proof.
  intros H. unfold Image.padding.
  destruct (Z.ltb_spec pw 0); [done|].
  destruct (Z.ltb_spec ph 0); [done|]. lia.
Qed.

(** The padded raster, pixel by pixel. *)
Lemma padding_ok (im : Image.t) (pw ph : Z) (pt : PaddingType) :
  valid_image im -> 0 <= pw -> 0 <= ph ->
  (pt = MIRROR -> pw < Image.width im /\ ph < Image.height im) ->
  exists p,
    Image.padding im pw ph pt = Ok p
    /\ Image.width p = Image.width im + 2 * pw
    /\ Image.height p = Image.height im + 2 * ph
    /\ Image.channels p = Image.channels im
    /\ Image.is_SoA p = Image.is_SoA im
    /\ Z.of_nat (length (Image.data p)) = Image.get_size p
    /\ forall x y ch,
         in_raster (Image.width p) (Image.height p) (Image.channels p) x y ch ->
         Image.get p x y ch = Ok (pad_value Image.mirror im pw ph pt x y ch).
Proof.
  intros (Hw & Hh & Hc & Hlen & _) Hpw Hph Hm.
  unfold Image.padding.
  destruct (Z.ltb_spec pw 0); [lia|].
  destruct (Z.ltb_spec ph 0); [lia|]. cbn [orb].
  set (W := Image.width im + pw * 2).
  set (H' := Image.height im + ph * 2).
  set (C := Image.channels im).
  set (soa := Image.is_SoA im).
  destruct (fill_ok W H' C soa
    (fun (s : Image.t) j => Image.data s !! j)
    (fun s => Image.width s = W /\ Image.height s = H' /\ Image.channels s = C
              /\ Image.is_SoA s = soa
              /\ Z.of_nat (length (Image.data s)) = W * H' * C)
    (pad_value Image.mirror im pw ph pt)
    (fun channel y x padded_image =>
       let col := x - pw in
       let row := y - ph in
       if (0 <=? col) && (col <? Image.width im) && (0 <=? row) && (row <? Image.height im)
       then do v <- Image.get im col row channel; Image.set padded_image x y channel v
       else match pt with
            | ZERO => Image.set padded_image x y channel 0
            | REPLICATE =>
                let valid_col := clamp 0 col (Image.width im - 1) in
                let valid_row := clamp 0 row (Image.height im - 1) in
                do v <- Image.get im valid_col valid_row channel;
                Image.set padded_image x y channel v
            | MIRROR =>
                if (2 * Image.width im =? 0) || (2 * Image.height im =? 0)
                then Undefined
                else
                  let mirror_col := Image.mirror col (Image.width im) in
                  let mirror_row := Image.mirror row (Image.height im) in
                  do v <- Image.get im mirror_col mirror_row channel;
                  Image.set padded_image x y channel v
            end)
    ) with (s0 := Image.create W H' C soa) as (p & E & Hg & Hd & _).
  - (* the body writes the pixel and nothing else *)
    intros ch y x s Hin (Ew & Eh & Ec & Es & El).
    assert (Hset : forall v,
      exists s', Image.set s x y ch v = Ok s'
        /\ (Image.width s' = W /\ Image.height s' = H' /\ Image.channels s' = C
            /\ Image.is_SoA s' = soa
            /\ Z.of_nat (length (Image.data s')) = W * H' * C)
        /\ Image.data s' !! Z.to_nat (offset soa W H' C x y ch) = Some v
        /\ forall j, j <> Z.to_nat (offset soa W H' C x y ch) ->
             Image.data s' !! j = Image.data s !! j).
    { intros v. eexists. split.
      - apply set_ok; [unfold Image.get_size; rewrite El, Ew, Eh, Ec; done|].
        by rewrite Ew, Eh, Ec.
      - rewrite Ew, Eh, Ec, Es. cbn.
        pose proof (offset_bounds soa W H' C x y ch Hin).
        split; [by rewrite length_insert|]. split.
        + apply list_lookup_insert_eq. lia.
        + intros j Hj. by apply list_lookup_insert_ne. }
    assert (Hget : forall col row,
      0 <= col < Image.width im -> 0 <= row < Image.height im ->
      exists s', (do v <- Image.get im col row ch; Image.set s x y ch v) = Ok s'
        /\ (Image.width s' = W /\ Image.height s' = H' /\ Image.channels s' = C
            /\ Image.is_SoA s' = soa
            /\ Z.of_nat (length (Image.data s')) = W * H' * C)
        /\ Image.data s' !! Z.to_nat (offset soa W H' C x y ch)
           = Some (pixel im col row ch)
        /\ forall j, j <> Z.to_nat (offset soa W H' C x y ch) ->
             Image.data s' !! j = Image.data s !! j).
    { intros col row Hcol Hrow.
      destruct (get_ok im col row ch Hlen) as (v & Ev & _).
      { destruct Hin as (_ & _ & ?). unfold in_raster. fold C. lia. }
      rewrite Ev. cbn [bind]. rewrite (pixel_get _ _ _ _ _ Ev). apply Hset. }
    cbv zeta. unfold pad_value.
    destruct ((0 <=? x - pw) && (x - pw <? Image.width im)
              && (0 <=? y - ph) && (y - ph <? Image.height im)) eqn:Einside.
    + apply Hget; lia.
    + destruct pt.
      * apply Hset.
      * apply Hget; apply clamp_range; lia.
      * destruct (Hm eq_refl) as [Hpw' Hph'].
        destruct (Z.eqb_spec (2 * Image.width im) 0); [lia|].
        destruct (Z.eqb_spec (2 * Image.height im) 0); [lia|]. cbn [orb].
        destruct Hin as (Hx & Hy & _). unfold W, H' in Hx, Hy.
        apply Hget; apply mirror_range; lia.
  - lia.
  - lia.
  - unfold C. lia.
  - cbn. rewrite length_replicate. repeat split; try done.
    rewrite Z2Nat.id; [done|]. unfold W, H', C. nia.
  - destruct Hg as (Ew & Eh & Ec & Es & El).
    exists p. split; [exact E|].
    split; [unfold W in Ew; lia|]. split; [unfold H' in Eh; lia|].
    split; [done|]. split; [done|].
    split; [unfold Image.get_size; rewrite El, Ew, Eh, Ec; done|].
    intros x y ch Hin. unfold Image.get.
    rewrite pixel_index_ok by done. cbn [bind].
    rewrite Ew, Eh, Ec, Es in *.
    pose proof (offset_bounds soa W H' C x y ch Hin).
    apply raw_load_ok; [lia|]. by apply Hd.
Qed.

Ltac solve_valid_image :=
  unfold valid_image; cbn;
  repeat split; try lia;
  repeat (apply Forall_cons_2; [unfold is_uint8; lia|]); apply Forall_nil_2.

Lemma raster_4x4_valid : valid_image raster_4x4.
Proof. solve_valid_image. Qed.

Lemma raster_2x2x3_valid (soa : bool) : valid_image (raster_2x2x3 soa).
Proof. solve_valid_image. Qed.

(* ===================================================================== *)
(** * Padding: ZERO and MIRROR                                            *)
(* ===================================================================== *)

(** C5. For every [W x H] raster and every [p >= 0], ZERO padding by
    [(p, p)] returns a raster of dimensions [(W + 2p) x (H + 2p)] with the
    same channel count and layout, whose border ring of thickness [p] is
    zero in every channel and whose interior equals the original raster
    pixel for pixel. *)
Theorem zero_padding_ring_and_interior (im : Image.t) (p : Z) :
  valid_image im -> 0 <= p ->
  exists out,
    Image.padding im p p ZERO = Ok out
    /\ Image.width out = Image.width im + 2 * p
    /\ Image.height out = Image.height im + 2 * p
    /\ Image.channels out = Image.channels im
    /\ Image.is_SoA out = Image.is_SoA im
    /\ Z.of_nat (length (Image.data out)) = Image.get_size out
    /\ (forall x y ch,
          in_raster (Image.width out) (Image.height out) (Image.channels out) x y ch ->
          x < p \/ Image.width im + p <= x \/ y < p \/ Image.height im + p <= y ->
          Image.get out x y ch = Ok 0)
    /\ (forall x y ch,
          in_raster (Image.width im) (Image.height im) (Image.channels im) x y ch ->
          Image.get out (x + p) (y + p) ch = Image.get im x y ch).
Proof.
  intros Hv Hp.
  destruct (padding_ok im p p ZERO Hv Hp Hp) as (out & E & Ew & Eh & Ec & Es & El & Hpx);
    [done|].
  exists out. repeat (split; [done|]). split.
  - intros x y ch Hin Hborder. rewrite Hpx by done. f_equal.
    unfold pad_value.
    destruct (Z.leb_spec 0 (x - p)), (Z.ltb_spec (x - p) (Image.width im)),
      (Z.leb_spec 0 (y - p)), (Z.ltb_spec (y - p) (Image.height im));
      cbn; try done; lia.
  - intros x y ch Hin.
    destruct Hv as (_ & _ & _ & Hlen & _).
    destruct (get_ok im x y ch Hlen Hin) as (v & Ev & _).
    rewrite Hpx.
    + rewrite Ev. f_equal. unfold pad_value.
      replace (x + p - p) with x by lia. replace (y + p - p) with y by lia.
      destruct Hin as (Hx & Hy & _).
      destruct (Z.leb_spec 0 x), (Z.ltb_spec x (Image.width im)),
        (Z.leb_spec 0 y), (Z.ltb_spec y (Image.height im)); try lia.
      cbn. by apply pixel_get.
    + rewrite Ew, Eh, Ec. unfold in_raster in *. lia.
Qed.

Lemma zero_padding_ring_and_interior_witness :
  exists out,
    Image.padding raster_4x4 2 2 ZERO = Ok out
    /\ Image.width out = Image.width raster_4x4 + 2 * 2
    /\ Image.height out = Image.height raster_4x4 + 2 * 2
    /\ Image.channels out = Image.channels raster_4x4
    /\ Image.is_SoA out = Image.is_SoA raster_4x4
    /\ Z.of_nat (length (Image.data out)) = Image.get_size out
    /\ (forall x y ch,
          in_raster (Image.width out) (Image.height out) (Image.channels out) x y ch ->
          x < 2 \/ Image.width raster_4x4 + 2 <= x
          \/ y < 2 \/ Image.height raster_4x4 + 2 <= y ->
          Image.get out x y ch = Ok 0)
    /\ (forall x y ch,
          in_raster (Image.width raster_4x4) (Image.height raster_4x4)
            (Image.channels raster_4x4) x y ch ->
          Image.get out (x + 2) (y + 2) ch = Image.get raster_4x4 x y ch).
Proof.
  apply (zero_padding_ring_and_interior raster_4x4 2).
  - unfold valid_image; cbn.
    repeat split; try lia.
    repeat (apply Forall_cons_2; [unfold is_uint8; lia|]); apply Forall_nil_2.
  - lia.
Defined.

(** C3, as the specification words it, fails on the code: in the 4x4
    single-channel raster padded by 1 under MIRROR, padded pixel (0,0) is
    original pixel (1,1), not (0,0); index -1 folds to 1, and index 4
    folds to 2 where the worded formula gives 3. *)
Lemma mirror_claim_counterexample :
  exists p,
    Image.padding raster_4x4 1 1 MIRROR = Ok p
    /\ Image.get p 0 0 0 = Ok 11
    /\ Image.get raster_4x4 0 0 0 = Ok 0
    /\ Image.get p 0 0 0 <> Image.get raster_4x4 0 0 0
    /\ Image.mirror (-1) 4 = 1 /\ spec_mirror (-1) 4 = 0
    /\ Image.mirror 4 4 = 2 /\ spec_mirror 4 4 = 3.
Proof.
  eexists. split; [vm_compute; reflexivity|].
  repeat split; try (vm_compute; reflexivity).
  vm_compute. discriminate.
Qed.

(** C3, amended. Under MIRROR with a padding narrower than the raster,
    every destination pixel outside the original raster copies the source
    pixel whose column and row are folded, independently, by
    [m = |v| mod 2 dim; m = min(m, 2 dim - 2 - m)] (which is what the
    code's [|v % (2 dim)|] and [min(m, (2 dim - 1) - (m + 1))] compute);
    in particular, for a 4x4 single-channel raster padded by 1, padded
    pixel (0,0) equals original pixel (1,1): index -1 folds to 1. *)
Theorem mirror_padding_reflects (im : Image.t) (pw ph : Z) :
  valid_image im ->
  0 <= pw < Image.width im -> 0 <= ph < Image.height im ->
  exists p,
    Image.padding im pw ph MIRROR = Ok p
    /\ Image.width p = Image.width im + 2 * pw
    /\ Image.height p = Image.height im + 2 * ph
    /\ (forall v dim, 0 < dim -> Image.mirror v dim = reflect_101 v dim)
    /\ (forall x y ch,
          in_raster (Image.width p) (Image.height p) (Image.channels p) x y ch ->
          ~ (0 <= x - pw < Image.width im /\ 0 <= y - ph < Image.height im) ->
          Image.get p x y ch
          = Image.get im (reflect_101 (x - pw) (Image.width im))
                         (reflect_101 (y - ph) (Image.height im)) ch)
    /\ (Image.width im = 4 -> Image.height im = 4 -> Image.channels im = 1 ->
        pw = 1 -> ph = 1 ->
        reflect_101 (-1) 4 = 1
        /\ Image.get p 0 0 0 = Image.get im 1 1 0).
Proof.
  intros Hv Hpw Hph.
  destruct (padding_ok im pw ph MIRROR Hv) as (p & E & Ew & Eh & Ec & Es & El & Hpx);
    [lia|lia|intros _; lia|].
  destruct Hv as (Hw & Hh & Hc & Hlen & _).
  assert (Hout : forall x y ch,
    in_raster (Image.width p) (Image.height p) (Image.channels p) x y ch ->
    ~ (0 <= x - pw < Image.width im /\ 0 <= y - ph < Image.height im) ->
    Image.get p x y ch
    = Image.get im (reflect_101 (x - pw) (Image.width im))
                   (reflect_101 (y - ph) (Image.height im)) ch).
  { intros x y ch Hin Hout. rewrite Hpx by done.
    rewrite <- !mirror_reflect_101 by lia.
    destruct Hin as (Hx & Hy & Hch). rewrite Ew in Hx. rewrite Eh in Hy.
    rewrite Ec in Hch.
    destruct (get_ok im (Image.mirror (x - pw) (Image.width im))
                (Image.mirror (y - ph) (Image.height im)) ch Hlen) as (v & Ev & _).
    { split; [apply mirror_range; lia|]. split; [apply mirror_range; lia|done]. }
    rewrite Ev. f_equal. unfold pad_value.
    destruct (Z.leb_spec 0 (x - pw)), (Z.ltb_spec (x - pw) (Image.width im)),
      (Z.leb_spec 0 (y - ph)), (Z.ltb_spec (y - ph) (Image.height im));
      cbn [andb]; first [by apply pixel_get | lia]. }
  exists p. split; [done|]. split; [done|]. split; [done|].
  split; [apply mirror_reflect_101|]. split; [exact Hout|].
  intros E4w E4h E1 -> ->. split; [reflexivity|].
  rewrite Hout.
  - rewrite E4w, E4h. reflexivity.
  - rewrite Ew, Eh, Ec, E4w, E4h, E1. unfold in_raster. lia.
  - lia.
Qed.

Lemma mirror_padding_reflects_witness :
  exists p,
    Image.padding raster_4x4 1 1 MIRROR = Ok p
    /\ Image.width p = Image.width raster_4x4 + 2 * 1
    /\ Image.height p = Image.height raster_4x4 + 2 * 1
    /\ (forall v dim, 0 < dim -> Image.mirror v dim = reflect_101 v dim)
    /\ (forall x y ch,
          in_raster (Image.width p) (Image.height p) (Image.channels p) x y ch ->
          ~ (0 <= x - 1 < Image.width raster_4x4
             /\ 0 <= y - 1 < Image.height raster_4x4) ->
          Image.get p x y ch
          = Image.get raster_4x4 (reflect_101 (x - 1) (Image.width raster_4x4))
                         (reflect_101 (y - 1) (Image.height raster_4x4)) ch)
    /\ (Image.width raster_4x4 = 4 -> Image.height raster_4x4 = 4 ->
        Image.channels raster_4x4 = 1 -> 1 = 1 -> 1 = 1 ->
        reflect_101 (-1) 4 = 1
        /\ Image.get p 0 0 0 = Image.get raster_4x4 1 1 0).
Proof.
  apply (mirror_padding_reflects raster_4x4 1 1).
  - unfold valid_image; cbn.
    repeat split; try lia.
    repeat (apply Forall_cons_2; [unfold is_uint8; lia|]); apply Forall_nil_2.
  - cbn; lia.
  - cbn; lia.
Defined.

(** C8. For every raster with positive width and height and every MIRROR
    padding call with [0 <= pad_w < width] and [0 <= pad_h < height], every
    folded source coordinate the mirror branch computes lies inside
    [[0, width) x [0, height)], so the coordinate check of the pixel
    accessor never fails during the padding: the call returns. *)
Theorem mirror_fold_in_bounds (im : Image.t) (pw ph : Z) :
  valid_image im ->
  0 <= pw < Image.width im -> 0 <= ph < Image.height im ->
  (forall x y,
     0 <= x < Image.width im + 2 * pw -> 0 <= y < Image.height im + 2 * ph ->
     0 <= Image.mirror (x - pw) (Image.width im) < Image.width im
     /\ 0 <= Image.mirror (y - ph) (Image.height im) < Image.height im
     /\ forall ch, 0 <= ch < Image.channels im ->
          Image.pixel_index im (Image.mirror (x - pw) (Image.width im))
                            (Image.mirror (y - ph) (Image.height im)) ch
          <> Throw "Invalid coordinates.")
  /\ exists p, Image.padding im pw ph MIRROR = Ok p.
Proof.
  intros Hv Hpw Hph. split.
  - intros x y Hx Hy.
    assert (Hmx : 0 <= Image.mirror (x - pw) (Image.width im) < Image.width im)
      by (apply mirror_range; lia).
    assert (Hmy : 0 <= Image.mirror (y - ph) (Image.height im) < Image.height im)
      by (apply mirror_range; lia).
    split; [done|]. split; [done|].
    intros ch Hch. by rewrite pixel_index_ok.
  - destruct (padding_ok im pw ph MIRROR Hv) as (p & E & _);
      [lia|lia|intros _; lia|].
    by exists p.
Qed.

Lemma mirror_fold_in_bounds_witness :
  (forall x y,
     0 <= x < Image.width raster_4x4 + 2 * 3 ->
     0 <= y < Image.height raster_4x4 + 2 * 3 ->
     0 <= Image.mirror (x - 3) (Image.width raster_4x4) < Image.width raster_4x4
     /\ 0 <= Image.mirror (y - 3) (Image.height raster_4x4) < Image.height raster_4x4
     /\ forall ch, 0 <= ch < Image.channels raster_4x4 ->
          Image.pixel_index raster_4x4
            (Image.mirror (x - 3) (Image.width raster_4x4))
            (Image.mirror (y - 3) (Image.height raster_4x4)) ch
          <> Throw "Invalid coordinates.")
  /\ exists p, Image.padding raster_4x4 3 3 MIRROR = Ok p.
Proof.
  apply (mirror_fold_in_bounds raster_4x4 3 3).
  - unfold valid_image; cbn.
    repeat split; try lia.
    repeat (apply Forall_cons_2; [unfold is_uint8; lia|]); apply Forall_nil_2.
  - cbn; lia.
  - cbn; lia.
Defined.

(* ===================================================================== *)
(** * Kernel construction                                                 *)
(* ===================================================================== *)

Lemma rem2_eqb_even (n : Z) : (Z.rem n 2 =? 0) = Z.even n.
Proof.
  rewrite Zquot.Zrem_even.
  destruct (Z.even n) eqn:E; [done|].
  destruct n; try done.
Qed.

Lemma create_ok (w h : Z) :
  0 < w -> w = h -> Z.odd w = true ->
  Kernel.create w h = Ok (Kernel.make w h (replicate (Z.to_nat (w * h)) F32.zero)).
Proof.
  intros Hw <- Ho. unfold Kernel.create.
  destruct (Z.leb_spec w 0); [lia|]. cbn [orb].
  rewrite rem2_eqb_even, <- Z.negb_odd, Ho. cbn [negb orb].
  by rewrite Z.eqb_refl.
Qed.

Lemma create_inv (w h : Z) (k : Kernel.t) :
  Kernel.create w h = Ok k ->
  0 < w /\ h = w /\ Z.odd w = true
  /\ k = Kernel.make w h (replicate (Z.to_nat (w * h)) F32.zero).
Proof.
  unfold Kernel.create.
  destruct (Z.leb_spec w 0); [done|].
  destruct (Z.leb_spec h 0); [done|]. cbn [orb].
  rewrite !rem2_eqb_even.
  destruct (Z.even w) eqn:Ew; [done|].
  destruct (Z.even h) eqn:Eh; [done|]. cbn [orb].
  destruct (Z.eqb_spec w h); [|done]. cbn [negb].
  intros [= <-]. rewrite <- Z.negb_even, Ew. done.
Qed.

(** C4. Kernel construction succeeds for every pair of equal, odd,
    positive dimensions, and fails with an InvalidDimensions error whenever
    [width <> height], either dimension is even, or either dimension is not
    positive; no constructor ([Kernel(w, h)], [Kernel(w, h, data)],
    [custom_kernel]) ever produces a kernel with invalid dimensions. *)
Theorem kernel_construction (w h : Z) :
  (0 < w -> w = h -> Z.odd w = true ->
     exists k, Kernel.create w h = Ok k
               /\ Kernel.width k = w /\ Kernel.height k = h
               /\ Z.of_nat (length (Kernel.data k)) = w * h)
  /\ (w <> h \/ Z.even w = true \/ Z.even h = true \/ w <= 0 \/ h <= 0 ->
      exists what, Kernel.create w h = Throw what /\ InvalidDimensions what)
  /\ (forall k, Kernel.create w h = Ok k -> valid_kernel k)
  /\ (forall d k, Kernel.create_from w h d = Ok k -> valid_kernel k)
  /\ (forall d normalize k,
        snd (Kernel.custom_kernel w d normalize) = Ok k -> valid_kernel k).
Proof.
  assert (Hcreate : forall w h k, Kernel.create w h = Ok k ->
            valid_kernel k /\ Kernel.width k = w /\ Kernel.height k = h).
  { intros w' h' k Hk. apply create_inv in Hk as (Hw & -> & Ho & ->).
    unfold valid_kernel, Kernel.get_size. cbn.
    rewrite length_replicate. repeat split; try done. nia. }
  assert (Hfrom : forall w h d k, Kernel.create_from w h d = Ok k -> valid_kernel k).
  { intros w' h' d k. unfold Kernel.create_from.
    destruct (Kernel.create w' h') as [k0| | |] eqn:E0; try done. cbn [bind].
    destruct (Hcreate _ _ _ E0) as ((Hw & Hh & Ho & Hl) & _ & _).
    unfold memcpy.
    destruct (Z.ltb_spec (Z.of_nat (length d)) (Kernel.get_size k0)); [done|].
    cbn [bind]. intros [= <-].
    unfold valid_kernel, Kernel.get_size in *. cbn.
    repeat split; try done.
    rewrite length_take. nia. }
  split; [|split; [|split; [|split]]].
  - intros Hw Hh Ho. rewrite create_ok by done. eexists. split; [done|].
    cbn. rewrite length_replicate. repeat split. subst h. nia.
  - intros Hbad. unfold Kernel.create, InvalidDimensions.
    destruct (Z.leb_spec w 0); [eauto|].
    destruct (Z.leb_spec h 0); [eauto|]. cbn [orb].
    rewrite !rem2_eqb_even.
    destruct (Z.even w) eqn:Ew; [eauto 6|].
    destruct (Z.even h) eqn:Eh; [eauto 6|]. cbn [orb].
    destruct (Z.eqb_spec w h); [|eauto 6].
    exfalso. destruct Hbad as [?|[?|[?|[?|?]]]]; try done; lia.
  - intros k Hk. by apply Hcreate in Hk as [? _].
  - intros d k. apply Hfrom.
  - intros d normalize k. unfold Kernel.custom_kernel.
    destruct (if normalize then _ else _); cbn [snd]; try done.
    apply Hfrom.
Qed.

Lemma kernel_construction_witness :
  exists k, Kernel.create 5 5 = Ok k
            /\ Kernel.width k = 5 /\ Kernel.height k = 5
            /\ Z.of_nat (length (Kernel.data k)) = 5 * 5.
Proof.
  apply (proj1 (kernel_construction 5 5)); [lia|reflexivity|reflexivity].
Defined.

(* ===================================================================== *)
(** * Image equality                                                      *)
(* ===================================================================== *)

(** C10. Image equality ignores the layout tag: two images with equal
    width, height and channel count whose byte buffers are identical
    compare equal even if one is marked interleaved and the other planar;
    equality is false whenever any of the three dimensions differ. *)
Theorem equality_ignores_layout :
  (forall w h c d soa_a soa_b,
     Z.of_nat (length d) = w * h * c ->
     Image.eqb (Image.make w h c d soa_a) (Image.make w h c d soa_b) = Ok true)
  /\ (forall a b,
        Image.width a <> Image.width b \/ Image.height a <> Image.height b
        \/ Image.channels a <> Image.channels b ->
        Image.eqb a b = Ok false).
Proof.
  split.
  - intros w h c d sa sb Hlen. unfold Image.eqb, memcmp_eq0, Image.get_size. cbn.
    rewrite !Z.eqb_refl. cbn.
    destruct (Z.ltb_spec (Z.of_nat (length d)) (w * h * c)); [lia|]. cbn.
    by rewrite bool_decide_eq_true_2.
  - intros a b Hne. unfold Image.eqb.
    destruct (Z.eqb_spec (Image.width a) (Image.width b)); [|done].
    destruct (Z.eqb_spec (Image.height a) (Image.height b)); [|done].
    destruct (Z.eqb_spec (Image.channels a) (Image.channels b)); [|done].
    destruct Hne as [?|[?|?]]; done.
Qed.

Lemma equality_ignores_layout_witness :
  Image.eqb (raster_2x2x3 false) (raster_2x2x3 true) = Ok true
  /\ Image.eqb raster_4x4 (raster_2x2x3 false) = Ok false.
Proof.
  split.
  - apply (proj1 equality_ignores_layout 2 2 3). reflexivity.
  - apply (proj2 equality_ignores_layout). left. cbn. lia.
Defined.

(* ===================================================================== *)
(** * Layout conversion                                                   *)
(* ===================================================================== *)

(** The loop nest the two conversions share: every pixel is moved from its
    offset in one layout to its offset in the other. *)
Lemma convert_ok (W H C : Z) (from_soa : bool) (src : list Z) :
  0 <= W -> 0 <= H -> 0 <= C ->
  Z.of_nat (length src) = W * H * C ->
  exists dst,
    for_range 0 C (fun channel =>
      for_range 0 H (fun row =>
        for_range 0 W (fun col dst =>
          do v <- raw_load src (offset from_soa W H C col row channel);
          raw_store dst (offset (negb from_soa) W H C col row channel) v)))
      (replicate (Z.to_nat (W * H * C)) 0) = Ok dst
    /\ Z.of_nat (length dst) = W * H * C
    /\ forall x y ch, in_raster W H C x y ch ->
         dst !! Z.to_nat (offset (negb from_soa) W H C x y ch)
         = src !! Z.to_nat (offset from_soa W H C x y ch).
Proof.
  intros HW HH HC Hlen.
  destruct (fill_ok W H C (negb from_soa)
    (fun (s : list Z) j => s !! j)
    (fun s => Z.of_nat (length s) = W * H * C)
    (fun x y ch => default 0 (src !! Z.to_nat (offset from_soa W H C x y ch)))
    (fun channel row col dst =>
       do v <- raw_load src (offset from_soa W H C col row channel);
       raw_store dst (offset (negb from_soa) W H C col row channel) v))
    with (s0 := replicate (Z.to_nat (W * H * C)) 0) as (dst & E & Hl & Hd & _).
  - intros ch y x s Hin Hs.
    pose proof (offset_bounds from_soa W H C x y ch Hin) as Hb1.
    pose proof (offset_bounds (negb from_soa) W H C x y ch Hin) as Hb2.
    destruct (raw_load_lt src (offset from_soa W H C x y ch)) as (v & Ev & El);
      [lia|].
    rewrite Ev, El. cbn [bind default from_option].
    rewrite raw_store_ok by lia. eexists. split; [done|].
    split; [by rewrite length_insert|]. split.
    + apply list_lookup_insert_eq. lia.
    + intros j Hj. by apply list_lookup_insert_ne.
  - done.
  - done.
  - done.
  - rewrite length_replicate. nia.
  - exists dst. split; [exact E|]. split; [done|].
    intros x y ch Hin. rewrite Hd by done.
    pose proof (offset_bounds from_soa W H C x y ch Hin) as Hb1.
    destruct (raw_load_lt src (offset from_soa W H C x y ch)) as (v & _ & El);
      [lia|].
    by rewrite El.
Qed.

(** A buffer is determined by the values at the offsets of its pixels. *)
Lemma buffer_ext (W H C : Z) (soa : bool) (d1 d2 : list Z) :
  0 <= W -> 0 <= H -> 0 <= C ->
  Z.of_nat (length d1) = W * H * C ->
  Z.of_nat (length d2) = W * H * C ->
  (forall x y ch, in_raster W H C x y ch ->
     d1 !! Z.to_nat (offset soa W H C x y ch)
     = d2 !! Z.to_nat (offset soa W H C x y ch)) ->
  d1 = d2.
Proof.
  intros HW HH HC H1 H2 Hpx.
  apply list_eq. intros j.
  destruct (decide (Z.of_nat j < W * H * C)) as [Hj|Hj].
  - destruct (offset_surj soa W H C (Z.of_nat j)) as (x & y & ch & Hin & Eo);
      [nia|nia|nia|lia|].
    specialize (Hpx x y ch Hin). rewrite Eo, Nat2Z.id in Hpx. done.
  - rewrite !lookup_ge_None_2 by lia. done.
Qed.

Lemma with_data_id (im : Image.t) (d1 : list Z) :
  Image.with_data (Image.with_data im d1) (Image.data im) = im.
Proof. by destruct im. Qed.

(** C6. For every raster buffer, the interleaved-to-planar permutation
    followed by the planar-to-interleaved permutation returns a buffer
    byte-identical to the original (and likewise in the other order). *)
Theorem layout_round_trip (im : Image.t) :
  0 <= Image.width im -> 0 <= Image.height im -> 0 <= Image.channels im ->
  Z.of_nat (length (Image.data im)) = Image.get_size im ->
  (exists planar, Image.AoS_to_SoA im = Ok planar
                  /\ Image.SoA_to_AoS planar = Ok im)
  /\ (exists interleaved, Image.SoA_to_AoS im = Ok interleaved
                          /\ Image.AoS_to_SoA interleaved = Ok im).
Proof.
  intros HW HH HC Hlen. unfold Image.get_size in Hlen.
  set (W := Image.width im) in *. set (H := Image.height im) in *.
  set (C := Image.channels im) in *.
  assert (Hround : forall from_soa,
    exists d1 d2,
      for_range 0 C (fun channel =>
        for_range 0 H (fun row =>
          for_range 0 W (fun col dst =>
            do v <- raw_load (Image.data im) (offset from_soa W H C col row channel);
            raw_store dst (offset (negb from_soa) W H C col row channel) v)))
        (replicate (Z.to_nat (W * H * C)) 0) = Ok d1
      /\ for_range 0 C (fun channel =>
           for_range 0 H (fun row =>
             for_range 0 W (fun col dst =>
               do v <- raw_load d1 (offset (negb from_soa) W H C col row channel);
               raw_store dst (offset from_soa W H C col row channel) v)))
           (replicate (Z.to_nat (W * H * C)) 0) = Ok d2
      /\ d2 = Image.data im).
  { intros from_soa.
    destruct (convert_ok W H C from_soa (Image.data im)) as (d1 & E1 & L1 & P1);
      [done..|].
    destruct (convert_ok W H C (negb from_soa) d1) as (d2 & E2 & L2 & P2);
      [done..|].
    rewrite negb_involutive in E2, P2.
    exists d1, d2. split; [done|]. split; [done|].
    apply (buffer_ext W H C from_soa); [done..|].
    intros x y ch Hin. rewrite P2, P1 by done. done. }
  split.
  - destruct (Hround false) as (d1 & d2 & E1 & E2 & ->).
    exists (Image.with_data im d1). split.
    + unfold Image.AoS_to_SoA, Image.get_size. fold W H C.
      change (for_range 0 C _ _) with
        (for_range 0 C (fun channel =>
           for_range 0 H (fun row =>
             for_range 0 W (fun col dst =>
               do v <- raw_load (Image.data im) (offset false W H C col row channel);
               raw_store dst (offset (negb false) W H C col row channel) v)))
           (replicate (Z.to_nat (W * H * C)) 0)).
      by rewrite E1.
    + unfold Image.SoA_to_AoS, Image.get_size. cbn [Image.with_data Image.width
        Image.height Image.channels Image.data Image.is_SoA]. fold W H C.
      change (for_range 0 C _ _) with
        (for_range 0 C (fun channel =>
           for_range 0 H (fun row =>
             for_range 0 W (fun col dst =>
               do v <- raw_load d1 (offset (negb false) W H C col row channel);
               raw_store dst (offset false W H C col row channel) v)))
           (replicate (Z.to_nat (W * H * C)) 0)).
      rewrite E2. cbn [bind]. f_equal. apply with_data_id.
  - destruct (Hround true) as (d1 & d2 & E1 & E2 & ->).
    exists (Image.with_data im d1). split.
    + unfold Image.SoA_to_AoS, Image.get_size. fold W H C.
      change (for_range 0 C _ _) with
        (for_range 0 C (fun channel =>
           for_range 0 H (fun row =>
             for_range 0 W (fun col dst =>
               do v <- raw_load (Image.data im) (offset true W H C col row channel);
               raw_store dst (offset (negb true) W H C col row channel) v)))
           (replicate (Z.to_nat (W * H * C)) 0)).
      by rewrite E1.
    + unfold Image.AoS_to_SoA, Image.get_size. cbn [Image.with_data Image.width
        Image.height Image.channels Image.data Image.is_SoA]. fold W H C.
      change (for_range 0 C _ _) with
        (for_range 0 C (fun channel =>
           for_range 0 H (fun row =>
             for_range 0 W (fun col dst =>
               do v <- raw_load d1 (offset (negb true) W H C col row channel);
               raw_store dst (offset true W H C col row channel) v)))
           (replicate (Z.to_nat (W * H * C)) 0)).
      rewrite E2. cbn [bind]. f_equal. apply with_data_id.
Qed.

Lemma layout_round_trip_witness :
  (exists planar, Image.AoS_to_SoA (raster_2x2x3 false) = Ok planar
                  /\ Image.SoA_to_AoS planar = Ok (raster_2x2x3 false))
  /\ (exists interleaved, Image.SoA_to_AoS (raster_2x2x3 false) = Ok interleaved
                          /\ Image.AoS_to_SoA interleaved = Ok (raster_2x2x3 false)).
Proof.
  apply (layout_round_trip (raster_2x2x3 false));
    [cbn; lia | cbn; lia | cbn; lia | reflexivity].
Defined.

(* ===================================================================== *)
(** * Custom kernels                                                      *)
(* ===================================================================== *)

Lemma fold_over_indices {A B : Type} (g : B -> A -> B) (x0 : A) (d : list A) (z : B) :
  fold_left (fun t j => g t (default x0 (d !! Z.to_nat j)))
            (seqZ 0 (Z.of_nat (length d))) z
  = fold_left g d z.
Proof.
  assert (G : forall k, (k <= length d)%nat ->
    fold_left (fun t j => g t (default x0 (d !! Z.to_nat j))) (seqZ 0 (Z.of_nat k)) z
    = fold_left g (take k d) z).
  { induction k as [|k IH]; intros Hk; [by rewrite take_0|].
    rewrite seqZ_S, fold_left_app, IH by lia. cbn [fold_left].
    destruct (lookup_lt_is_Some_2 d k) as [a Ea]; [lia|].
    rewrite (take_S_r _ _ _ Ea), fold_left_app. cbn [fold_left].
    replace (Z.to_nat (0 + Z.of_nat k)) with k by lia. by rewrite Ea. }
  rewrite G by lia. by rewrite firstn_all.
Qed.

(** The first loop of [custom_kernel]: the sum of the weights, accumulated
    in [float] from [0.0] in array order. *)
Lemma sum_loop (d : list F32.float) (n : Z) :
  Z.of_nat (length d) = n ->
  for_range 0 n (fun i sum => do v <- raw_load d i; Ok (F32.add sum v)) F32.zero
  = Ok (fold_left F32.add d F32.zero).
Proof.
  intros Hn.
  rewrite (for_range_fold
             (fun t j => F32.add t (default F32.zero (d !! Z.to_nat j)))).
  - rewrite Z.sub_0_r, <- Hn. f_equal. apply fold_over_indices.
  - intros j t Hj.
    destruct (raw_load_lt d j) as (v & -> & ->); [lia|]. done.
Qed.

(** The second loop of [custom_kernel]: every weight divided in place. *)
Lemma scale_loop (d : list F32.float) (n : Z) (sum : F32.float) :
  Z.of_nat (length d) = n ->
  for_range 0 n (fun i d => do v <- raw_load d i; raw_store d i (F32.div v sum)) d
  = Ok (map (fun w => F32.div w sum) d).
Proof.
  intros Hn.
  destruct (for_range_ok
    (fun i (s : list F32.float) =>
       length s = length d
       /\ forall j : nat,
            s !! j = if decide (Z.of_nat j < i)
                     then (fun w => F32.div w sum) <$> d !! j
                     else d !! j)
    0 n (fun i d => do v <- raw_load d i; raw_store d i (F32.div v sum)) d)
    as (s' & E & Hl & Hs).
  - lia.
  - split; [done|]. intros j. destruct (decide (Z.of_nat j < 0)); [lia|done].
  - intros i s Hi (Hl & Hs).
    destruct (raw_load_lt s i) as (v & Ev & El); [lia|].
    rewrite Ev. cbn [bind]. rewrite raw_store_ok by lia.
    eexists. split; [done|]. split; [by rewrite length_insert|].
    intros j. destruct (decide (j = Z.to_nat i)) as [->|Hne].
    + rewrite list_lookup_insert_eq by lia.
      destruct (decide (Z.of_nat (Z.to_nat i) < i + 1)); [|lia].
      rewrite Hs in El. destruct (decide (Z.of_nat (Z.to_nat i) < i)); [lia|].
      by rewrite El.
    + rewrite list_lookup_insert_ne by done. rewrite Hs.
      destruct (decide (Z.of_nat j < i)), (decide (Z.of_nat j < i + 1));
        try done; lia.
  - rewrite E. f_equal. apply list_eq. intros j.
    rewrite Hs, list_lookup_fmap.
    destruct (decide (Z.of_nat j < n)); [done|].
    rewrite lookup_ge_None_2 by lia. done.
Qed.

(** C9. [custom_kernel] with [normalize = true] mutates the caller's
    weight array in place: after the call every entry has been divided by
    the sum of all entries, and the returned kernel holds a copy of those
    values; with [normalize = false] the caller's array is unchanged. *)
Theorem custom_kernel_normalizes_in_place (size : Z) (d : list F32.float) :
  Z.of_nat (length d) = size * size ->
  let sum := fold_left F32.add d F32.zero in
  let scaled := map (fun w => F32.div w sum) d in
  fst (Kernel.custom_kernel size d true) = scaled
  /\ (forall k, snd (Kernel.custom_kernel size d true) = Ok k ->
        Kernel.data k = scaled)
  /\ fst (Kernel.custom_kernel size d false) = d
  /\ (forall k, snd (Kernel.custom_kernel size d false) = Ok k ->
        Kernel.data k = d)
  /\ (0 < size -> Z.odd size = true ->
      snd (Kernel.custom_kernel size d true) = Ok (Kernel.make size size scaled)
      /\ snd (Kernel.custom_kernel size d false) = Ok (Kernel.make size size d)).
Proof.
  intros Hlen sum scaled.
  assert (Hfrom : forall d' : list F32.float,
    Z.of_nat (length d') = size * size ->
    (forall k, Kernel.create_from size size d' = Ok k -> Kernel.data k = d')
    /\ (0 < size -> Z.odd size = true ->
        Kernel.create_from size size d' = Ok (Kernel.make size size d'))).
  { intros d' Hd'.
    assert (Hcopy : memcpy d' (size * size) = Ok d').
    { unfold memcpy. destruct (Z.ltb_spec (Z.of_nat (length d')) (size * size)); [lia|].
      f_equal. apply take_ge. lia. }
    split.
    - intros k. unfold Kernel.create_from.
      destruct (Kernel.create size size) as [k0| | |] eqn:E0; try done.
      apply create_inv in E0 as (_ & _ & _ & ->).
      unfold Kernel.get_size. cbn [bind Kernel.width Kernel.height].
      rewrite Hcopy. cbn [bind]. by intros [= <-].
    - intros Hs Ho. unfold Kernel.create_from. rewrite create_ok by done.
      unfold Kernel.get_size. cbn [bind Kernel.width Kernel.height].
      by rewrite Hcopy. }
  assert (Hscaled : Z.of_nat (length scaled) = size * size).
  { unfold scaled. by rewrite length_map. }
  assert (Etrue : Kernel.custom_kernel size d true
                  = (scaled, Kernel.create_from size size scaled)).
  { unfold Kernel.custom_kernel. rewrite (sum_loop d) by done. cbn [bind].
    by rewrite (scale_loop d) by done. }
  assert (Efalse : Kernel.custom_kernel size d false
                   = (d, Kernel.create_from size size d)) by done.
  rewrite Etrue, Efalse. cbn [fst snd].
  destruct (Hfrom scaled Hscaled) as [Hs1 Hs2].
  destruct (Hfrom d Hlen) as [Hd1 Hd2].
  repeat split; try done.
  - by apply Hs2.
  - by apply Hd2.
Qed.

Lemma custom_kernel_normalizes_in_place_witness :
  let d := replicate 9 (F32.of_int 1) in
  let sum := fold_left F32.add d F32.zero in
  let scaled := map (fun w => F32.div w sum) d in
  fst (Kernel.custom_kernel 3 d true) = scaled
  /\ (forall k, snd (Kernel.custom_kernel 3 d true) = Ok k ->
        Kernel.data k = scaled)
  /\ fst (Kernel.custom_kernel 3 d false) = d
  /\ (forall k, snd (Kernel.custom_kernel 3 d false) = Ok k ->
        Kernel.data k = d)
  /\ (0 < 3 -> Z.odd 3 = true ->
      snd (Kernel.custom_kernel 3 d true) = Ok (Kernel.make 3 3 scaled)
      /\ snd (Kernel.custom_kernel 3 d false) = Ok (Kernel.make 3 3 d)).
Proof.
  apply (custom_kernel_normalizes_in_place 3 (replicate 9 (F32.of_int 1))).
  reflexivity.
Defined.

(* ===================================================================== *)
(** * The baseline engine                                                 *)
(* ===================================================================== *)

Lemma get_inv (im : Image.t) (x y ch : Z) (v : Z) :
  Z.of_nat (length (Image.data im)) = Image.get_size im ->
  in_raster (Image.width im) (Image.height im) (Image.channels im) x y ch ->
  Image.get im x y ch = Ok v ->
  Image.data im !! Z.to_nat (offset (Image.is_SoA im) (Image.width im)
                               (Image.height im) (Image.channels im) x y ch)
  = Some v.
Proof.
  intros Hlen Hin E. destruct (get_ok im x y ch Hlen Hin) as (v' & E' & Hl).
  rewrite E in E'. by injection E' as ->.
Qed.

Lemma kernel_get_ok (k : Kernel.t) (kx ky : Z) :
  valid_kernel k -> 0 <= kx < Kernel.width k -> 0 <= ky < Kernel.height k ->
  Kernel.get k kx ky = Ok (weight k kx ky).
Proof.
  intros (Hw & Hh & Ho & Hl) Hkx Hky. unfold weight, Kernel.get.
  destruct (Z.ltb_spec kx 0); [lia|].
  destruct (Z.geb_spec kx (Kernel.width k)); [lia|].
  destruct (Z.ltb_spec ky 0); [lia|].
  destruct (Z.geb_spec ky (Kernel.height k)); [lia|]. cbn [orb].
  destruct (raw_load_lt (Kernel.data k) (ky * Kernel.width k + kx)) as (v & -> & _);
    [|done].
  rewrite Hl. unfold Kernel.get_size.
  pose proof (row_major_bounds (Kernel.width k) (Kernel.height k) kx ky). lia.
Qed.

Lemma odd_half (n : Z) : Z.odd n = true -> n = 2 * (n / 2) + 1.
Proof.
  intros Ho. rewrite Zodd_mod in Ho. apply Z.eqb_eq in Ho.
  pose proof (Z.div_mod n 2). lia.
Qed.

(** The two inner loops of [convolve] accumulate the weighted sum of the
    window. *)
Lemma window_loops (padded : Image.t) (k : Kernel.t) (x y ch pw ph : Z) :
  Z.of_nat (length (Image.data padded)) = Image.get_size padded ->
  valid_kernel k ->
  pw = floor_half (Kernel.width k) -> ph = floor_half (Kernel.width k) ->
  (forall kx ky, 0 <= kx < Kernel.width k -> 0 <= ky < Kernel.height k ->
     in_raster (Image.width padded) (Image.height padded) (Image.channels padded)
       (x + kx) (y + ky) ch) ->
  for_range 0 (Kernel.height k) (fun ky =>
    for_range 0 (Kernel.width k) (fun kx output_value =>
      let col := x + kx - floor_half (Kernel.width k) + pw in
      let row := y + ky - floor_half (Kernel.width k) + ph in
      do p <- Image.get padded col row ch;
      do w <- Kernel.get k kx ky;
      Ok (F32.add output_value (F32.mul (F32.of_int p) w))))
    F32.zero
  = Ok (weighted_sum padded k x y ch).
Proof.
  intros Hlen Hk -> -> Hin.
  rewrite (for_range_fold (fun acc ky =>
    fold_left (fun acc kx =>
      F32.add acc
        (F32.mul (F32.of_int (pixel padded (x + kx) (y + ky) ch)) (weight k kx ky)))
      (seqZ 0 (Kernel.width k)) acc)).
  - unfold weighted_sum. by rewrite Z.sub_0_r.
  - intros ky t Hky.
    rewrite (for_range_fold (fun acc kx =>
      F32.add acc
        (F32.mul (F32.of_int (pixel padded (x + kx) (y + ky) ch)) (weight k kx ky)))).
    + by rewrite Z.sub_0_r.
    + intros kx t' Hkx. cbv zeta.
      replace (x + kx - floor_half (Kernel.width k) + floor_half (Kernel.width k))
        with (x + kx) by lia.
      replace (y + ky - floor_half (Kernel.width k) + floor_half (Kernel.width k))
        with (y + ky) by lia.
      destruct (get_ok padded (x + kx) (y + ky) ch Hlen) as (v & Ev & _);
        [by apply Hin|].
      rewrite Ev. cbn [bind]. rewrite (pixel_get _ _ _ _ _ Ev).
      rewrite kernel_get_ok by done. done.
Qed.

(** The baseline engine, pixel by pixel: it pads by half the kernel,
    and stores for every pixel the clamped, truncated weighted sum of its
    window. *)
Lemma convolve_ok (im : Image.t) (k : Kernel.t) (pt : PaddingType) :
  valid_image im -> valid_kernel k ->
  (pt = MIRROR -> Kernel.width k / 2 < Image.width im
                  /\ Kernel.width k / 2 < Image.height im) ->
  exists padded out,
    Image.padding im (Kernel.width k / 2) (Kernel.height k / 2) pt = Ok padded
    /\ Sequential.convolve im k pt = Ok out
    /\ Image.width out = Image.width im
    /\ Image.height out = Image.height im
    /\ Image.channels out = Image.channels im
    /\ Image.is_SoA out = Image.is_SoA im
    /\ Z.of_nat (length (Image.data out)) = Image.get_size out
    /\ forall x y ch,
         in_raster (Image.width im) (Image.height im) (Image.channels im) x y ch ->
         Image.get out x y ch = Ok (stored (weighted_sum padded k x y ch)).
Proof.
  intros Hv Hk Hm.
  pose proof Hk as (Hkw & Hkh & Hko & Hkl).
  pose proof (odd_half _ Hko) as Hhalf.
  assert (Hq : Z.quot (Kernel.width k) 2 = Kernel.width k / 2)
    by (apply Z.quot_div_nonneg; lia).
  assert (Hp0 : 0 <= Kernel.width k / 2) by (apply Z.div_pos; lia).
  destruct (padding_ok im (Kernel.width k / 2) (Kernel.height k / 2) pt Hv)
    as (padded & Ep & Epw & Eph & Epc & Eps & Epl & Hpx).
  { done. } { by rewrite Hkh. } { by rewrite Hkh. }
  destruct Hv as (Hw & Hh & Hc & Hlen & Hu8).
  unfold Sequential.convolve. rewrite Hkh, Hq. rewrite Hkh in Ep. rewrite Ep.
  cbn [bind].
  set (W := Image.width im). set (H := Image.height im).
  set (C := Image.channels im). set (soa := Image.is_SoA im).
  destruct (fill_ok W H C soa
    (fun (s : Image.t) j => Image.data s !! j)
    (fun s => Image.width s = W /\ Image.height s = H /\ Image.channels s = C
              /\ Image.is_SoA s = soa
              /\ Z.of_nat (length (Image.data s)) = W * H * C)
    (fun x y ch => stored (weighted_sum padded k x y ch))
    (fun channel y x output_image =>
       do output_value <-
         for_range 0 (Kernel.width k) (fun ky =>
           for_range 0 (Kernel.width k) (fun kx output_value =>
             let col := x + kx - floor_half (Kernel.width k) + Kernel.width k / 2 in
             let row := y + ky - floor_half (Kernel.width k) + Kernel.width k / 2 in
             do p <- Image.get padded col row channel;
             do w <- Kernel.get k kx ky;
             Ok (F32.add output_value (F32.mul (F32.of_int p) w))))
           F32.zero;
       Image.set output_image x y channel
         (F32.to_uint8 (F32.clamp F32.zero output_value (F32.of_int 255)))))
    with (s0 := Image.create W H C soa) as (out & E & Hg & Hd & _).
  - intros ch y x s Hin (Ew & Eh & Ec & Es & El).
    pose proof (window_loops padded k x y ch (Kernel.width k / 2)
                  (Kernel.width k / 2) Epl Hk eq_refl eq_refl) as Hloops.
    rewrite Hkh in Hloops. rewrite Hloops; clear Hloops.
    + cbn [bind]. fold (stored (weighted_sum padded k x y ch)).
      rewrite set_ok.
      * eexists. split; [done|]. rewrite Ew, Eh, Ec, Es. cbn.
        pose proof (offset_bounds soa W H C x y ch Hin).
        split; [by rewrite length_insert|]. split.
        -- apply list_lookup_insert_eq. lia.
        -- intros j Hj. by apply list_lookup_insert_ne.
      * unfold Image.get_size. by rewrite El, Ew, Eh, Ec.
      * by rewrite Ew, Eh, Ec.
    + intros kx ky Hkx Hky. rewrite Epw, Eph, Epc, Hkh.
      destruct Hin as (Hx & Hy & Hch). unfold in_raster. fold W H C. lia.
  - unfold W; lia.
  - unfold H; lia.
  - unfold C; lia.
  - cbn. rewrite length_replicate. repeat split; try done.
    rewrite Z2Nat.id; [done|]. unfold W, H, C. nia.
  - destruct Hg as (Ew & Eh & Ec & Es & El).
    exists padded, out. split; [done|]. split; [exact E|].
    repeat (split; [done|]).
    split; [unfold Image.get_size; by rewrite El, Ew, Eh, Ec|].
    intros x y ch Hin. unfold Image.get.
    rewrite pixel_index_ok by (by rewrite Ew, Eh, Ec). cbn [bind].
    rewrite Ew, Eh, Ec, Es.
    pose proof (offset_bounds soa W H C x y ch Hin).
    apply raw_load_ok; [lia|]. by apply Hd.
Qed.

(* ===================================================================== *)
(** * Clamping and narrowing                                              *)
(* ===================================================================== *)

Lemma stored_saturates_high (v : F32.float) :
  F32.ltb (F32.of_int 255) v = true -> stored v = 255.
Proof.
  change (F32.of_int 255) with (S754_finite false 16711680 (-16)).
  intros Hv.
  assert (H0 : F32.ltb F32.zero v = true).
  { destruct v as [s|s| |s m e]; try done; by destruct s. }
  unfold stored, F32.clamp, F32.std_max, F32.std_min. rewrite H0.
  change (F32.of_int 255) with (S754_finite false 16711680 (-16)).
  by rewrite Hv.
Qed.

Lemma stored_saturates_low (v : F32.float) :
  F32.ltb F32.zero v = false -> stored v = 0.
Proof.
  intros Hv. unfold stored, F32.clamp, F32.std_max, F32.std_min.
  by rewrite Hv.
Qed.

Lemma trunc_discards_fraction (m p : positive) :
  F32.trunc (S754_finite false m (Zneg p)) = Zpos m / 2 ^ Zpos p.
Proof. unfold F32.trunc. by rewrite Z.shiftr_div_pow2. Qed.

(** A byte survives the trip through [float] under the weight [1.0f]. *)
Lemma stored_identity (b : Z) :
  is_uint8 b ->
  stored (F32.add F32.zero (F32.mul (F32.of_int b) (F32.of_int 1))) = b.
Proof.
  intros Hb.
  assert (Hall : forallb (fun b =>
            stored (F32.add F32.zero (F32.mul (F32.of_int b) (F32.of_int 1))) =? b)
            (seqZ 0 256) = true) by (vm_compute; reflexivity).
  rewrite forallb_forall in Hall. apply Z.eqb_eq, Hall.
  apply list_elem_of_In, elem_of_seqZ. unfold is_uint8 in Hb. lia.
Qed.

(* ===================================================================== *)
(** * The global-memory and constant-memory strategies                    *)
(* ===================================================================== *)

Lemma cuda_stored_eq (v : F32.float) : cuda_stored v = stored v.
Proof.
  unfold cuda_stored, stored, F32.to_uint8, to_uint8.
  rewrite Z.mod_mod by lia. do 3 f_equal.
  change (F32.of_int 255) with (S754_finite false 16711680 (-16)).
  unfold F32.cuda_clamp, F32.clamp, F32.fmax, F32.fmin, F32.std_max,
    F32.std_min, F32.zero.
  destruct v as [s|s| |s m e]; try reflexivity;
    destruct (F32.ltb _ _); reflexivity.
Qed.

Lemma writes_refl {A : Type} (V : nat -> A -> Prop) (s : list A) :
  writes (fun _ => False) V s s.
Proof. split; [done|]. intros c. right. split; [tauto|done]. Qed.

Lemma writes_weaken {A : Type} (W W' : nat -> Prop) (V : nat -> A -> Prop)
    (s s' : list A) :
  (forall c, W c <-> W' c) -> writes W V s s' -> writes W' V s s'.
Proof.
  intros HW [Hl Hc]. split; [done|]. intros c.
  destruct (Hc c) as [[Hw Hv]|[Hw Hv]]; [left|right]; split; try done.
  - by apply HW.
  - intros Hw'. by apply Hw, HW.
Qed.

(** A loop whose iteration [i] writes the cells [wr i] writes their
    union. *)
Lemma for_range_writes {A : Type} (V : nat -> A -> Prop) (wr : Z -> nat -> Prop)
    (lo hi : Z) (body : Z -> list A -> result (list A)) (s0 : list A) :
  lo <= hi ->
  (forall i s, lo <= i < hi -> length s = length s0 ->
     exists s', body i s = Ok s' /\ writes (wr i) V s s') ->
  exists s', for_range lo hi body s0 = Ok s'
             /\ writes (fun c => exists i, lo <= i < hi /\ wr i c) V s0 s'.
Proof.
  intros Hle Hb.
  apply (for_range_ok
           (fun i s => writes (fun c => exists j, lo <= j < i /\ wr j c) V s0 s));
    [done| |].
  - split; [done|]. intros c. right. split; [|done]. intros (j & Hj & _). lia.
  - intros i s Hi [Hl Hs].
    destruct (Hb i s Hi Hl) as (s' & E & Hl' & Hs').
    exists s'. split; [done|]. split; [congruence|]. intros c.
    destruct (Hs' c) as [[Hw Hv]|[Hw Hv]].
    + left. split; [|done]. exists i. split; [lia|done].
    + destruct (Hs c) as [[(j & Hj & Hwj) Hv0]|[Hw0 Hv0]].
      * left. split; [exists j; split; [lia|done]|]. by rewrite Hv.
      * right. split; [|congruence].
        intros (j & Hj & Hwj). destruct (decide (j = i)) as [->|Hne]; [done|].
        apply Hw0. exists j. split; [lia|done].
Qed.

Ltac lia_div := Z.div_mod_to_equations; lia.

Section device.
Variables (padded : Image.t) (k : Kernel.t) (d_kernel : list F32.float).
Variables (W H C : Z) (soa : bool).
Hypothesis HW : 0 < W.
Hypothesis HH : 0 < H.
Hypothesis HC : 0 < C.
Hypothesis Hk : valid_kernel k.
Hypothesis Hpl : Z.of_nat (length (Image.data padded)) = Image.get_size padded.
Hypothesis Hpw : Image.width padded = W + 2 * floor_half (Kernel.width k).
Hypothesis Hph : Image.height padded = H + 2 * floor_half (Kernel.height k).
Hypothesis Hpc : Image.channels padded = C.
Hypothesis Hps : Image.is_SoA padded = soa.
Hypothesis Hdk : forall i v, Kernel.data k !! i = Some v -> d_kernel !! i = Some v.

(** The two inner loops of the CUDA kernels accumulate the weighted sum of
    the window with fused multiply-adds, reading the padded raster and the weights through raw
    pointers. *)
Lemma cuda_window_loops (x y ch : Z) :
  in_raster W H C x y ch ->
  for_range 0 (Kernel.height k) (fun ky =>
    for_range 0 (Kernel.width k) (fun kx output_value =>
      let col := x + kx - floor_half (Kernel.width k) + floor_half (Kernel.width k) in
      let row := y + ky - floor_half (Kernel.height k) + floor_half (Kernel.height k) in
      do p <- Parallel.get_pixel_value (Image.data padded) col row ch
                (W + 2 * floor_half (Kernel.width k))
                (H + 2 * floor_half (Kernel.height k)) C soa;
      do w <- Parallel.get_kernel_value d_kernel kx ky
                (Kernel.width k) (Kernel.height k);
      Ok (F32.fma (F32.of_int p) w output_value)))
    F32.zero
  = Ok (fused_sum padded k x y ch).
Proof using All.
  intros (Hx & Hy & Hch).
  pose proof Hk as (Hkw & Hkh & Hko & Hkl).
  pose proof (odd_half _ Hko) as Hhalf. unfold floor_half in *.
  rewrite <- Hpw, <- Hph, <- Hpc, <- Hps.
  rewrite (for_range_fold (fun acc ky =>
    fold_left (fun acc kx =>
      F32.fma (F32.of_int (pixel padded (x + kx) (y + ky) ch)) (weight k kx ky) acc)
      (seqZ 0 (Kernel.width k)) acc)).
  - unfold fused_sum. by rewrite Z.sub_0_r.
  - intros ky t Hky.
    rewrite (for_range_fold (fun acc kx =>
      F32.fma (F32.of_int (pixel padded (x + kx) (y + ky) ch)) (weight k kx ky) acc)).
    + by rewrite Z.sub_0_r.
    + intros kx t' Hkx. cbv zeta.
      replace (x + kx - Kernel.width k / 2 + Kernel.width k / 2)
        with (x + kx) by lia.
      replace (y + ky - Kernel.height k / 2 + Kernel.height k / 2)
        with (y + ky) by lia.
      destruct (get_ok padded (x + kx) (y + ky) ch Hpl) as (v & Ev & El).
      { rewrite Hpw, Hph, Hpc, Hkh. unfold in_raster, floor_half. lia. }
      unfold Parallel.get_pixel_value.
      change (if Image.is_SoA padded then _ else _)
        with (offset (Image.is_SoA padded) (Image.width padded) (Image.height padded)
                (Image.channels padded) (x + kx) (y + ky) ch).
      assert (Hin : in_raster (Image.width padded) (Image.height padded)
                      (Image.channels padded) (x + kx) (y + ky) ch).
      { rewrite Hpw, Hph, Hpc, Hkh. unfold in_raster, floor_half. lia. }
      pose proof (offset_bounds (Image.is_SoA padded) _ _ _ _ _ _ Hin).
      rewrite (raw_load_ok _ _ v) by (done || lia). cbn [bind].
      rewrite (pixel_get _ _ _ _ _ Ev).
      pose proof (kernel_get_ok k kx ky Hk Hkx Hky) as Eg.
      unfold Kernel.get in Eg.
      destruct (Z.ltb_spec kx 0); [lia|].
      destruct (Z.geb_spec kx (Kernel.width k)); [lia|].
      destruct (Z.ltb_spec ky 0); [lia|].
      destruct (Z.geb_spec ky (Kernel.height k)); [lia|]. cbn [orb] in Eg.
      unfold Parallel.get_kernel_value.
      pose proof (row_major_bounds (Kernel.width k) (Kernel.height k) kx ky Hkx Hky).
      destruct (raw_load_lt (Kernel.data k) (ky * Kernel.width k + kx))
        as (w & Ew & Elw); [unfold Kernel.get_size in Hkl; lia|].
      rewrite Ew in Eg. injection Eg as Ewt. rewrite <- Ewt.
      rewrite (raw_load_ok d_kernel (ky * Kernel.width k + kx) w);
        [done|lia|by apply Hdk].
Qed.

(** One thread of [convolution_kernel_global]: it writes the pixel
    [(blockIdx * blockDim + threadIdx)] in every channel when that pixel
    lies in the raster, and nothing otherwise. *)
Lemma global_thread_writes (blockIdx blockDim threadIdx : Parallel.dim3)
    (s : list Z) :
  0 <= Parallel.x blockIdx * Parallel.x blockDim + Parallel.x threadIdx ->
  0 <= Parallel.y blockIdx * Parallel.y blockDim + Parallel.y threadIdx ->
  Z.of_nat (length s) = W * H * C ->
  exists s',
    Parallel.convolution_kernel_global blockIdx blockDim threadIdx
      (Image.data padded) d_kernel W H C (Kernel.width k) (Kernel.height k)
      (floor_half (Kernel.width k)) (floor_half (Kernel.height k)) soa s = Ok s'
    /\ writes (fun c => exists ch, 0 <= ch < C
                 /\ (Parallel.x blockIdx * Parallel.x blockDim + Parallel.x threadIdx < W
                     /\ Parallel.y blockIdx * Parallel.y blockDim + Parallel.y threadIdx < H)
                 /\ c = Z.to_nat (offset soa W H C
                          (Parallel.x blockIdx * Parallel.x blockDim + Parallel.x threadIdx)
                          (Parallel.y blockIdx * Parallel.y blockDim + Parallel.y threadIdx)
                          ch))
              (convolved padded k W H C soa) s s'.
Proof using All.
  intros Hx0 Hy0 Hlen. unfold Parallel.convolution_kernel_global.
  set (x := Parallel.x blockIdx * Parallel.x blockDim + Parallel.x threadIdx) in *.
  set (y := Parallel.y blockIdx * Parallel.y blockDim + Parallel.y threadIdx) in *.
  destruct (Z.ltb_spec x W) as [Hx|Hx]; cycle 1.
  { exists s. split; [done|]. apply (writes_weaken (fun _ => False));
      [|apply writes_refl]. intros c. split; [done|]. intros (ch & _ & [? _] & _). lia. }
  destruct (Z.ltb_spec y H) as [Hy|Hy]; cycle 1.
  { exists s. split; [done|]. apply (writes_weaken (fun _ => False));
      [|apply writes_refl]. intros c. split; [done|]. intros (ch & _ & [_ ?] & _). lia. }
  cbn [andb].
  destruct (for_range_writes (convolved padded k W H C soa)
              (fun ch c => c = Z.to_nat (offset soa W H C x y ch))
              0 C
              (fun channel d_output =>
                 do output_value <-
                   for_range 0 (Kernel.height k) (fun ky =>
                     for_range 0 (Kernel.width k) (fun kx output_value =>
                       let col := x + kx - floor_half (Kernel.width k)
                                  + floor_half (Kernel.width k) in
                       let row := y + ky - floor_half (Kernel.height k)
                                  + floor_half (Kernel.height k) in
                       do p <- Parallel.get_pixel_value (Image.data padded) col row channel
                                 (W + 2 * floor_half (Kernel.width k))
                                 (H + 2 * floor_half (Kernel.height k)) C soa;
                       do w <- Parallel.get_kernel_value d_kernel kx ky
                                 (Kernel.width k) (Kernel.height k);
                       Ok (F32.fma (F32.of_int p) w output_value)))
                     F32.zero;
                 Parallel.set_pixel_value d_output x y channel W H C soa
                   (F32.to_uint8 (F32.cuda_clamp F32.zero output_value (F32.of_int 255))))
              s) as (s' & E & Hwr); [lia| |].
  - intros ch t Hch Ht.
    assert (Hin : in_raster W H C x y ch) by (unfold in_raster; lia).
    rewrite cuda_window_loops by done. cbn [bind].
    unfold Parallel.set_pixel_value.
    change (if soa then _ else _) with (offset soa W H C x y ch).
    pose proof (offset_bounds soa W H C x y ch Hin).
    rewrite raw_store_ok by lia. eexists. split; [done|].
    split; [by rewrite length_insert|]. intros c.
    destruct (decide (c = Z.to_nat (offset soa W H C x y ch))) as [->|Hne].
    + left. split; [done|]. eexists. split.
      * exists x, y, ch. split; [done|]. split; [done|].
        fold (cuda_stored (fused_sum padded k x y ch)). apply cuda_stored_eq.
      * apply list_lookup_insert_eq. lia.
    + right. split; [done|]. by apply list_lookup_insert_ne.
  - exists s'. split; [exact E|].
    refine (writes_weaken _ _ _ _ _ _ Hwr).
    intros c. split.
    + intros (ch & Hch & ->). exists ch. done.
    + intros (ch & Hch & _ & ->). exists ch. done.
Qed.

(** A launch of [convolution_kernel_global] over the grid stores every
    pixel of the raster. *)
Lemma global_launch_ok (s : list Z) :
  Z.of_nat (length s) = W * H * C ->
  exists s',
    Parallel.launch
      (Parallel.grid_for W H (Parallel.mk_dim3 Parallel.TILE_WIDTH Parallel.TILE_WIDTH))
      (Parallel.mk_dim3 Parallel.TILE_WIDTH Parallel.TILE_WIDTH)
      (fun blockIdx blockDim threadIdx =>
         Parallel.convolution_kernel_global blockIdx blockDim threadIdx
           (Image.data padded) d_kernel W H C (Kernel.width k) (Kernel.height k)
           (floor_half (Kernel.width k)) (floor_half (Kernel.height k)) soa) s
    = Ok s'
    /\ Z.of_nat (length s') = W * H * C
    /\ forall x y ch, in_raster W H C x y ch ->
         s' !! Z.to_nat (offset soa W H C x y ch)
         = Some (stored (fused_sum padded k x y ch)).
Proof using All.
  intros Hlen.
  set (T := Parallel.TILE_WIDTH). assert (HT : T = 16) by reflexivity.
  set (V := convolved padded k W H C soa).
  set (Wt := fun (by_ bx ty tx : Z) (c : nat) =>
    exists ch, 0 <= ch < C
      /\ (bx * T + tx < W /\ by_ * T + ty < H)
      /\ c = Z.to_nat (offset soa W H C (bx * T + tx) (by_ * T + ty) ch)).
  set (Wall := fun c : nat =>
    exists by_, 0 <= by_ < (H + T - 1) / T
      /\ exists bx, 0 <= bx < (W + T - 1) / T
      /\ exists ty, 0 <= ty < T
      /\ exists tx, 0 <= tx < T /\ Wt by_ bx ty tx c).
  unfold Parallel.launch, Parallel.for_blocks, Parallel.for_threads, Parallel.grid_for.
  cbn [Parallel.x Parallel.y]. fold T.
  assert (Hgx : 0 <= (W + T - 1) / T) by (apply Z.div_pos; lia).
  assert (Hgy : 0 <= (H + T - 1) / T) by (apply Z.div_pos; lia).
  lazymatch goal with
  | |- exists s', ?prog = Ok s' /\ _ =>
      assert (Hlaunch : exists s', prog = Ok s' /\ writes Wall V s s')
  end.
  { apply (for_range_writes V (fun by_ c =>
             exists bx, 0 <= bx < (W + T - 1) / T
               /\ exists ty, 0 <= ty < T
               /\ exists tx, 0 <= tx < T /\ Wt by_ bx ty tx c)); [done|].
    intros by_ t Hby Ht.
    apply (for_range_writes V (fun bx c =>
             exists ty, 0 <= ty < T
               /\ exists tx, 0 <= tx < T /\ Wt by_ bx ty tx c)); [done|].
    intros bx u Hbx Hu.
    apply (for_range_writes V (fun ty c =>
             exists tx, 0 <= tx < T /\ Wt by_ bx ty tx c)); [lia|].
    intros ty v Hty Hv.
    apply (for_range_writes V (fun tx c => Wt by_ bx ty tx c)); [lia|].
    intros tx w Htx Hw.
    apply (global_thread_writes (Parallel.mk_dim3 bx by_) (Parallel.mk_dim3 T T)
             (Parallel.mk_dim3 tx ty) w); cbn [Parallel.x Parallel.y];
      [subst T; change Parallel.TILE_WIDTH with 16 in *; lia
      |subst T; change Parallel.TILE_WIDTH with 16 in *; lia|].
    rewrite Hw, Hv, Hu, Ht. done. }
  destruct Hlaunch as (s' & E & Hl & Hc).
  exists s'. split; [exact E|]. split; [by rewrite Hl|].
  intros x y ch Hin.
  pose proof (offset_bounds soa W H C x y ch Hin) as Hb.
  destruct (Hc (Z.to_nat (offset soa W H C x y ch)))
    as [[_ (v & (x' & y' & ch' & Hin' & Eo & ->) & Ev)]|[Hn _]].
  - pose proof (offset_bounds soa W H C x' y' ch' Hin') as Hb'.
    destruct (offset_inj soa W H C x y ch x' y' ch') as (-> & -> & ->);
      [done|done|lia|done].
  - exfalso. apply Hn. destruct Hin as (Hx & Hy & Hch).
    clear Hc Hn E. subst Wall Wt V. cbv beta.
    subst T. change Parallel.TILE_WIDTH with 16 in *.
    exists (y / 16). split; [lia_div|].
    exists (x / 16). split; [lia_div|].
    exists (y mod 16). split; [lia_div|].
    exists (x mod 16). split; [lia_div|].
    exists ch. split; [done|].
    replace (x / 16 * 16 + x mod 16) with x by lia_div.
    replace (y / 16 * 16 + y mod 16) with y by lia_div.
    split; [lia|done].
Qed.

(** The [ITERATIONS] launches of the host method leave every pixel of the
    raster stored. *)
Lemma global_iterations_ok (s : list Z) :
  Z.of_nat (length s) = W * H * C ->
  exists s',
    for_range 0 Parallel.ITERATIONS (fun _ =>
      Parallel.launch
        (Parallel.grid_for W H (Parallel.mk_dim3 Parallel.TILE_WIDTH Parallel.TILE_WIDTH))
        (Parallel.mk_dim3 Parallel.TILE_WIDTH Parallel.TILE_WIDTH)
        (fun blockIdx blockDim threadIdx =>
           Parallel.convolution_kernel_global blockIdx blockDim threadIdx
             (Image.data padded) d_kernel W H C (Kernel.width k) (Kernel.height k)
             (floor_half (Kernel.width k)) (floor_half (Kernel.height k)) soa)) s
    = Ok s'
    /\ Z.of_nat (length s') = W * H * C
    /\ forall x y ch, in_raster W H C x y ch ->
         s' !! Z.to_nat (offset soa W H C x y ch)
         = Some (stored (fused_sum padded k x y ch)).
Proof using All.
  intros Hlen.
  destruct (for_range_ok
    (fun i (t : list Z) =>
       Z.of_nat (length t) = W * H * C
       /\ (0 < i -> forall x y ch, in_raster W H C x y ch ->
             t !! Z.to_nat (offset soa W H C x y ch)
             = Some (stored (fused_sum padded k x y ch))))
    0 Parallel.ITERATIONS
    (fun _ =>
      Parallel.launch
        (Parallel.grid_for W H (Parallel.mk_dim3 Parallel.TILE_WIDTH Parallel.TILE_WIDTH))
        (Parallel.mk_dim3 Parallel.TILE_WIDTH Parallel.TILE_WIDTH)
        (fun blockIdx blockDim threadIdx =>
           Parallel.convolution_kernel_global blockIdx blockDim threadIdx
             (Image.data padded) d_kernel W H C (Kernel.width k) (Kernel.height k)
             (floor_half (Kernel.width k)) (floor_half (Kernel.height k)) soa))
    s) as (s' & E & Hl & Hpx).
  - done.
  - split; [done|]. lia.
  - intros i t Hi [Ht _].
    destruct (global_launch_ok t Ht) as (t' & Et & Hlt & Hpt).
    exists t'. split; [done|]. split; [done|]. intros _. exact Hpt.
  - exists s'. split; [done|]. split; [done|]. by apply Hpx.
Qed.
End device.

Lemma memcpy_all {A : Type} (l : list A) (n : Z) :
  Z.of_nat (length l) = n -> memcpy l n = Ok l.
Proof.
  intros Hn. unfold memcpy.
  destruct (Z.ltb_spec (Z.of_nat (length l)) n); [lia|].
  f_equal. apply take_ge. lia.
Qed.

Lemma length_alloc (uninit : nat -> Z) (n : Z) :
  0 <= n -> Z.of_nat (length (Parallel.alloc uninit n)) = n.
Proof.
  intros Hn. unfold Parallel.alloc. rewrite length_map, length_seq. lia.
Qed.

(** A raster whose buffer has the length of its dimensions is fixed by
    its dimensions, its layout and its pixels. *)
Lemma image_ext (a b : Image.t) :
  0 < Image.width a -> 0 < Image.height a -> 0 < Image.channels a ->
  Image.width b = Image.width a -> Image.height b = Image.height a ->
  Image.channels b = Image.channels a -> Image.is_SoA b = Image.is_SoA a ->
  Z.of_nat (length (Image.data a)) = Image.get_size a ->
  Z.of_nat (length (Image.data b)) = Image.get_size b ->
  (forall x y ch,
     in_raster (Image.width a) (Image.height a) (Image.channels a) x y ch ->
     Image.get a x y ch = Image.get b x y ch) ->
  a = b.
Proof.
  intros HW HH HC Ew Eh Ec Es La Lb Hpx.
  assert (Hd : Image.data a = Image.data b).
  { unfold Image.get_size in La, Lb. rewrite Ew, Eh, Ec in Lb.
    apply (buffer_ext (Image.width a) (Image.height a) (Image.channels a)
             (Image.is_SoA a)); [lia|lia|lia|done|done|].
    intros x y ch Hin.
    destruct (get_ok a x y ch La Hin) as (v & Ev & El).
    rewrite El. symmetry. rewrite <- Ew, <- Eh, <- Ec, <- Es.
    apply get_inv; [unfold Image.get_size; by rewrite Ew, Eh, Ec
                   |by rewrite Ew, Eh, Ec|].
    rewrite <- Ev. symmetry. by apply Hpx. }
  destruct a, b; cbn in *. by subst.
Qed.

(** On every valid raster and kernel the global-memory strategy returns a
    raster of the dimensions and layout of its input whose every pixel is
    the clamped, truncated sum of its window, accumulated with fused
    multiply-adds; the constant-memory strategy returns the same raster
    when the kernel fits the constant table. *)
Theorem global_and_constant_ok (uninit : nat -> Z) (im : Image.t)
    (k : Kernel.t) (pt : PaddingType) :
  valid_image im -> valid_kernel k ->
  (pt = MIRROR -> Kernel.width k / 2 < Image.width im
                  /\ Kernel.width k / 2 < Image.height im) ->
  exists padded out,
    Image.padding im (Kernel.width k / 2) (Kernel.height k / 2) pt = Ok padded
    /\ Parallel.convolve_global uninit im k pt = Ok out
    /\ (Kernel.width k <= Parallel.MAX_MASK_WIDTH ->
        Parallel.convolve_constant uninit im k pt = Ok out)
    /\ Image.width out = Image.width im
    /\ Image.height out = Image.height im
    /\ Image.channels out = Image.channels im
    /\ Image.is_SoA out = Image.is_SoA im
    /\ Z.of_nat (length (Image.data out)) = Image.get_size out
    /\ forall x y ch,
         in_raster (Image.width im) (Image.height im) (Image.channels im) x y ch ->
         Image.get out x y ch = Ok (stored (fused_sum padded k x y ch)).
Proof.
  intros Hv Hk Hm.
  pose proof Hk as (Hkw & Hkh & Hko & Hkl).
  destruct (padding_ok im (Kernel.width k / 2) (Kernel.height k / 2) pt Hv)
    as (padded & Ep & Epw & Eph & Epc & Eps & Epl & _).
  { apply Z.div_pos; lia. } { apply Z.div_pos; lia. } { by rewrite Hkh. }
  pose proof Hv as (HW & HH & HC & Hlen & Hu8).
  assert (Hn : 0 <= Image.width im * Image.height im * Image.channels im) by nia.
  destruct (global_iterations_ok padded k (Kernel.data k)
              (Image.width im) (Image.height im) (Image.channels im)
              (Image.is_SoA im) HW HH HC Hk Epl Epw Eph Epc Eps
              ltac:(done)
              (Parallel.alloc uninit
                 (Image.width im * Image.height im * Image.channels im)))
    as (d & Ed & Hld & Hpd).
  { by apply length_alloc. }
  set (out := Image.make (Image.width im) (Image.height im) (Image.channels im)
                d (Image.is_SoA im)).
  assert (Hrun : forall d_kernel,
    (forall i v, Kernel.data k !! i = Some v -> d_kernel !! i = Some v) ->
    (do d_output <-
       for_range 0 Parallel.ITERATIONS (fun _ =>
         Parallel.launch
           (Parallel.grid_for (Image.width im) (Image.height im)
              (Parallel.mk_dim3 Parallel.TILE_WIDTH Parallel.TILE_WIDTH))
           (Parallel.mk_dim3 Parallel.TILE_WIDTH Parallel.TILE_WIDTH)
           (fun blockIdx blockDim threadIdx =>
              Parallel.convolution_kernel_global blockIdx blockDim threadIdx
                (Image.data padded) d_kernel
                (Image.width im) (Image.height im) (Image.channels im)
                (Kernel.width k) (Kernel.height k)
                (floor_half (Kernel.width k)) (floor_half (Kernel.height k))
                (Image.is_SoA im)))
         (Parallel.alloc uninit
            (Image.width im * Image.height im * Image.channels im));
     Image.create_from (Image.width im) (Image.height im) (Image.channels im)
       d_output (Image.is_SoA im)) = Ok out).
  { intros d_kernel Hdk.
    destruct (global_iterations_ok padded k d_kernel
                (Image.width im) (Image.height im) (Image.channels im)
                (Image.is_SoA im) HW HH HC Hk Epl Epw Eph Epc Eps Hdk
                (Parallel.alloc uninit
                   (Image.width im * Image.height im * Image.channels im)))
      as (d' & Ed' & Hld' & Hpd').
    { by apply length_alloc. }
    rewrite Ed'. cbn [bind]. unfold Image.create_from.
    rewrite memcpy_all by done. cbn [bind]. unfold out. do 2 f_equal.
    apply (buffer_ext (Image.width im) (Image.height im) (Image.channels im)
             (Image.is_SoA im)); [lia|lia|lia|done|done|].
    intros x y ch Hin. rewrite Hpd, Hpd' by done. done. }
  exists padded, out. split; [done|]. split; [|split].
  - unfold Parallel.convolve_global. unfold floor_half at 1 2.
    rewrite Ep. cbn [bind].
    rewrite memcpy_all by done. cbn [bind].
    rewrite memcpy_all by done. cbn [bind].
    by apply Hrun.
  - intros Hfit. unfold Parallel.convolve_constant. unfold floor_half at 1 2.
    rewrite Ep. cbn [bind].
    rewrite memcpy_all by done. cbn [bind].
    unfold Parallel.copy_to_c_kernel.
    assert (Hcount : Kernel.width k * Kernel.height k
                     <= Parallel.MAX_MASK_WIDTH * Parallel.MAX_MASK_WIDTH).
    { rewrite Hkh. change Parallel.MAX_MASK_WIDTH with 10 in *. nia. }
    destruct (Z.ltb_spec (Parallel.MAX_MASK_WIDTH * Parallel.MAX_MASK_WIDTH)
                (Kernel.width k * Kernel.height k)); [lia|].
    rewrite memcpy_all by done. cbn [bind].
    unfold Parallel.convolution_kernel_constant.
    apply Hrun. intros i v Hi.
    pose proof (lookup_lt_Some _ _ _ Hi) as Hlt.
    rewrite list_lookup_inserts; [by rewrite Nat.sub_0_r|lia|].
    rewrite length_replicate. unfold Kernel.get_size in Hkl. lia.
  - unfold out. cbn [Image.width Image.height Image.channels Image.is_SoA Image.data].
    do 4 (split; [done|]). split; [exact Hld|].
    intros x y ch Hin. unfold Image.get.
    rewrite pixel_index_ok by done. cbn [bind Image.data Image.width Image.height
      Image.channels Image.is_SoA].
    pose proof (offset_bounds (Image.is_SoA im) _ _ _ x y ch Hin).
    apply raw_load_ok; [lia|]. by apply Hpd.
Qed.


(* ===================================================================== *)
(** * What the engine stores                                              *)
(* ===================================================================== *)

(** C2, as the specification words it, fails on the code: for the 1x1
    raster of value 1 and the 1x1 kernel of weight 0.75 the accumulated
    value is 0.75, which rounds to 1, and both the baseline and the CUDA
    global-memory engine store 0. *)
Lemma rounding_claim_counterexample :
  exists padded out,
    Image.padding raster_1x1 0 0 ZERO = Ok padded
    /\ Sequential.convolve raster_1x1 kernel_three_quarters ZERO = Ok out
    /\ Parallel.convolve_global (fun _ => 0%Z) raster_1x1 kernel_three_quarters ZERO
       = Ok out
    /\ weighted_sum padded kernel_three_quarters 0 0 0 = three_quarters
    /\ spec_stored (weighted_sum padded kernel_three_quarters 0 0 0) = 1
    /\ Image.get out 0 0 0 = Ok 0
    /\ Image.get out 0 0 0
       <> Ok (spec_stored (weighted_sum padded kernel_three_quarters 0 0 0)).
Proof.
  eexists. eexists.
  split; [vm_compute; reflexivity|].
  split; [vm_compute; reflexivity|].
  repeat split; try (vm_compute; reflexivity).
  vm_compute. discriminate.
Qed.

(** C2, amended. For every output pixel [(x, y)] and channel [c] the
    engine computes the weighted sum of the padded image over the kernel
    window in a [float] accumulator and stores
    [(uint8_t)clamp(0.0f, value, 255.0f)]: the value is clamped first and
    its fraction is then discarded, it is not rounded.  The global-memory
    CUDA kernel stores the same function of the sum it accumulates, every
    step of which is one fused multiply-add.  Clamping is saturating:
    every value above 255 (a raw 300) stores 255 and every value that is
    not above 0 (a raw -40) stores 0. *)
Theorem engine_stores_truncated_clamp (im : Image.t) (k : Kernel.t)
    (pt : PaddingType) :
  valid_image im -> valid_kernel k ->
  (pt = MIRROR -> Kernel.width k / 2 < Image.width im
                  /\ Kernel.width k / 2 < Image.height im) ->
  exists padded out,
    Image.padding im (Kernel.width k / 2) (Kernel.height k / 2) pt = Ok padded
    /\ Sequential.convolve im k pt = Ok out
    /\ (forall x y ch,
          in_raster (Image.width im) (Image.height im) (Image.channels im) x y ch ->
          Image.get out x y ch
          = Ok (to_uint8 (F32.trunc (F32.clamp F32.zero
                                       (weighted_sum padded k x y ch)
                                       (F32.of_int 255)))))
    /\ (forall uninit, exists out',
          Parallel.convolve_global uninit im k pt = Ok out'
          /\ forall x y ch,
               in_raster (Image.width im) (Image.height im) (Image.channels im)
                 x y ch ->
               Image.get out' x y ch
               = Ok (to_uint8 (F32.trunc (F32.clamp F32.zero
                                            (fused_sum padded k x y ch)
                                            (F32.of_int 255)))))
    /\ (forall m p, F32.trunc (S754_finite false m (Zneg p)) = Zpos m / 2 ^ Zpos p)
    /\ (forall v, F32.ltb (F32.of_int 255) v = true -> stored v = 255)
    /\ (forall v, F32.ltb F32.zero v = false -> stored v = 0)
    /\ stored (F32.of_int 300) = 255
    /\ stored (F32.of_int (-40)) = 0.
Proof.
  intros Hv Hk Hm.
  destruct (convolve_ok im k pt Hv Hk Hm)
    as (padded & out & Ep & Eo & _ & _ & _ & _ & _ & Hpx).
  exists padded, out. split; [done|]. split; [done|].
  split; [exact Hpx|].
  split.
  { intros uninit.
    destruct (global_and_constant_ok uninit im k pt Hv Hk Hm)
      as (padded' & out' & Ep' & Eg & _ & _ & _ & _ & _ & _ & Hpx').
    rewrite Ep in Ep'. injection Ep' as <-.
    exists out'. split; [done|exact Hpx']. }
  split; [apply trunc_discards_fraction|].
  split; [apply stored_saturates_high|].
  split; [apply stored_saturates_low|].
  split; reflexivity.
Qed.

Lemma engine_stores_truncated_clamp_witness :
  exists padded out,
    Image.padding raster_4x4 (Kernel.width kernel_three_quarters / 2)
      (Kernel.height kernel_three_quarters / 2) REPLICATE = Ok padded
    /\ Sequential.convolve raster_4x4 kernel_three_quarters REPLICATE = Ok out
    /\ (forall x y ch,
          in_raster (Image.width raster_4x4) (Image.height raster_4x4)
            (Image.channels raster_4x4) x y ch ->
          Image.get out x y ch
          = Ok (to_uint8 (F32.trunc (F32.clamp F32.zero
                                       (weighted_sum padded kernel_three_quarters x y ch)
                                       (F32.of_int 255)))))
    /\ (forall uninit, exists out',
          Parallel.convolve_global uninit raster_4x4 kernel_three_quarters REPLICATE
          = Ok out'
          /\ forall x y ch,
               in_raster (Image.width raster_4x4) (Image.height raster_4x4)
                 (Image.channels raster_4x4) x y ch ->
               Image.get out' x y ch
               = Ok (to_uint8 (F32.trunc (F32.clamp F32.zero
                                            (fused_sum padded kernel_three_quarters x y ch)
                                            (F32.of_int 255)))))
    /\ (forall m p, F32.trunc (S754_finite false m (Zneg p)) = Zpos m / 2 ^ Zpos p)
    /\ (forall v, F32.ltb (F32.of_int 255) v = true -> stored v = 255)
    /\ (forall v, F32.ltb F32.zero v = false -> stored v = 0)
    /\ stored (F32.of_int 300) = 255
    /\ stored (F32.of_int (-40)) = 0.
Proof.
  apply (engine_stores_truncated_clamp raster_4x4 kernel_three_quarters REPLICATE).
  - unfold valid_image; cbn.
    repeat split; try lia.
    repeat (apply Forall_cons_2; [unfold is_uint8; lia|]); apply Forall_nil_2.
  - unfold valid_kernel; cbn. repeat split; lia.
  - intros Hm. discriminate Hm.
Defined.

(* ===================================================================== *)
(** * The identity kernel                                                 *)
(* ===================================================================== *)

Lemma identity_kernel_valid : valid_kernel identity_kernel.
Proof. unfold valid_kernel; cbn. repeat split; lia. Qed.

Lemma identity_kernel_constructed :
  Kernel.create_from 1 1 [F32.of_int 1] = Ok identity_kernel.
Proof. reflexivity. Qed.

(** C7. For every valid input raster, convolving it with the 1x1 kernel
    whose single weight is 1.0, under any padding policy, returns a raster
    equal to the input. *)
Theorem identity_kernel_returns_input (im : Image.t) (pt : PaddingType) :
  valid_image im ->
  exists out,
    Sequential.convolve im identity_kernel pt = Ok out
    /\ out = im
    /\ Image.eqb out im = Ok true.
Proof.
  intros Hv.
  destruct (convolve_ok im identity_kernel pt Hv identity_kernel_valid)
    as (padded & out & Ep & Eo & Ew & Eh & Ec & Es & El & Hpx).
  { intros _. destruct Hv as (? & ? & _).
    change (Kernel.width identity_kernel / 2) with 0. lia. }
  change (Kernel.width identity_kernel / 2) with 0 in Ep.
  change (Kernel.height identity_kernel / 2) with 0 in Ep.
  destruct (padding_ok im 0 0 pt Hv) as (p' & Ep' & Epw & Eph & Epc & Eps & Epl & Hpad);
    [lia|lia|intros _; destruct Hv as (? & ? & _); lia|].
  rewrite Ep in Ep'. injection Ep' as <-.
  destruct Hv as (Hw & Hh & Hc & Hlen & Hu8).
  assert (Hdata : Image.data out = Image.data im).
  { unfold Image.get_size in El, Hlen. rewrite Ew, Eh, Ec in El.
    apply (buffer_ext (Image.width im) (Image.height im) (Image.channels im)
             (Image.is_SoA im)); [lia|lia|lia|done|done|].
    intros x y ch Hin.
    destruct (get_ok im x y ch Hlen Hin) as (v & Ev & Elk).
    rewrite Elk.
    rewrite <- Ew, <- Eh, <- Ec, <- Es.
    apply get_inv; [unfold Image.get_size; by rewrite Ew, Eh, Ec
                   |by rewrite Ew, Eh, Ec|].
    rewrite Hpx by done. f_equal.
    unfold weighted_sum. change (seqZ 0 (Kernel.height identity_kernel)) with [0].
    change (seqZ 0 (Kernel.width identity_kernel)) with [0].
    cbn [fold_left]. rewrite !Z.add_0_r.
    assert (Ewt : weight identity_kernel 0 0 = F32.of_int 1) by reflexivity.
    rewrite Ewt.
    assert (Epx : pixel padded x y ch = v).
    { apply pixel_get. rewrite Hpad by (rewrite Epw, Eph, Epc; unfold in_raster in *; lia).
      f_equal. unfold pad_value. rewrite !Z.sub_0_r.
      destruct Hin as (Hx & Hy & _).
      destruct (Z.leb_spec 0 x), (Z.ltb_spec x (Image.width im)),
        (Z.leb_spec 0 y), (Z.ltb_spec y (Image.height im)); try lia.
      cbn [andb]. by apply pixel_get. }
    rewrite Epx. apply stored_identity.
    rewrite Forall_lookup in Hu8. by apply (Hu8 _ _ Elk). }
  assert (Eout : out = im).
  { destruct out, im; cbn in *. by subst. }
  exists out. split; [done|]. split; [done|].
  rewrite Eout. unfold Image.eqb, memcmp_eq0. rewrite !Z.eqb_refl. cbn [negb orb].
  destruct (Z.ltb_spec (Z.of_nat (length (Image.data im))) (Image.get_size im)); [lia|].
  cbn [orb]. by rewrite bool_decide_eq_true_2.
Qed.

Lemma identity_kernel_returns_input_witness :
  exists out,
    Sequential.convolve raster_4x4 identity_kernel MIRROR = Ok out
    /\ out = raster_4x4
    /\ Image.eqb out raster_4x4 = Ok true.
Proof.
  apply (identity_kernel_returns_input raster_4x4 MIRROR).
  unfold valid_image; cbn.
  repeat split; try lia.
  repeat (apply Forall_cons_2; [unfold is_uint8; lia|]); apply Forall_nil_2.
Defined.

(* ===================================================================== *)
(** * The tile-cached strategy                                            *)
(* ===================================================================== *)

(** A property every iteration preserves survives the loop. *)
Lemma for_range_preserves {St : Type} (Q : St -> Prop) (lo hi : Z)
    (body : Z -> St -> result St) (s s' : St) :
  (forall i t t', lo <= i < hi -> body i t = Ok t' -> Q t -> Q t') ->
  for_range lo hi body s = Ok s' -> Q s -> Q s'.
Proof.
  intros Hb. unfold for_range.
  assert (G : forall n i t, lo <= i -> i + Z.of_nat n <= Z.max lo hi ->
            for_steps n i body t = Ok s' -> Q t -> Q s').
  { induction n as [|n IH]; intros i t Hi Hn; cbn [for_steps].
    - by intros [= ->].
    - destruct (body i t) as [t'| | |] eqn:Et; try done. cbn [bind].
      intros E Hq. apply (IH (i + 1) t'); [lia|lia|done|].
      apply (Hb i t t'); [lia|done|done]. }
  destruct (Z.le_gt_cases lo hi).
  - apply G; lia.
  - replace (Z.to_nat (hi - lo)) with 0%nat by lia. cbn. by intros [= ->].
Qed.

Lemma raw_store_frame {A : Type} (p p' : list A) (i : Z) (v : A) :
  raw_store p i v = Ok p' ->
  0 <= i /\ forall j, j <> Z.to_nat i -> p' !! j = p !! j.
Proof.
  unfold raw_store. destruct (Z.leb_spec 0 i); [|done].
  destruct (Z.ltb_spec i (Z.of_nat (length p))); [|done]. cbn [andb].
  intros [= <-]. split; [done|]. intros j Hj. by apply list_lookup_insert_ne.
Qed.

(** A batch of the staging writes at most the slot [s_index]. *)
Lemma stage_slot_frame (blockIdx blockDim : Parallel.dim3) (d_input : list Z)
    (width height channels kernel_width kernel_height padding_width
     padding_height : Z) (is_SoA : bool) (channel s_index y_padding : Z)
    (guarded : bool) (s_data s_data' : list Z) :
  Parallel.stage_slot blockIdx blockDim d_input width height channels
    kernel_width kernel_height padding_width padding_height is_SoA channel
    s_index y_padding guarded s_data = Ok s_data' ->
  forall j, (0 <= s_index -> j <> Z.to_nat s_index) -> s_data' !! j = s_data !! j.
Proof.
  unfold Parallel.stage_slot.
  destruct (_ =? 0); [done|].
  destruct (negb guarded || _); [|by intros [= ->]].
  destruct (_ && _).
  - destruct (Parallel.get_pixel_value _ _ _ _ _ _ _ _); try done. cbn [bind].
    intros E j Hj. apply raw_store_frame in E as [H0 E]. apply E. by apply Hj.
  - intros E j Hj. apply raw_store_frame in E as [H0 E]. apply E. by apply Hj.
Qed.

(** The staging of a thread writes no slot from
    [2 * blockDim.x * blockDim.y] on. *)
Lemma shared_stage_frame (blockIdx blockDim threadIdx : Parallel.dim3)
    (d_input : list Z)
    (width height channels kernel_width kernel_height padding_width
     padding_height : Z) (is_SoA : bool) (channel : Z)
    (s_data s_data' : list Z) :
  0 <= Parallel.x threadIdx < Parallel.x blockDim ->
  0 <= Parallel.y threadIdx < Parallel.y blockDim ->
  Parallel.shared_stage blockIdx blockDim threadIdx d_input width height channels
    kernel_width kernel_height padding_width padding_height is_SoA channel
    s_data = Ok s_data' ->
  forall j : nat,
    2 * (Parallel.x blockDim * Parallel.y blockDim) <= Z.of_nat j ->
    s_data' !! j = s_data !! j.
Proof.
  intros Hx Hy. unfold Parallel.shared_stage.
  destruct (Parallel.stage_slot _ _ _ _ _ _ _ _ _ _ _ _ _ _ false s_data)
    as [s1| | |] eqn:E1; try done. cbn [bind].
  intros E2 j Hj.
  pose proof (row_major_bounds (Parallel.x blockDim) (Parallel.y blockDim)
                (Parallel.x threadIdx) (Parallel.y threadIdx) Hx Hy) as Hb.
  rewrite (stage_slot_frame _ _ _ _ _ _ _ _ _ _ _ _ _ _ _ _ _ E2) by lia.
  rewrite (stage_slot_frame _ _ _ _ _ _ _ _ _ _ _ _ _ _ _ _ _ E1) by lia.
  done.
Qed.

(** Whatever the image and the kernel, the staging of a whole block leaves
    the slots from [2 * blockDim.x * blockDim.y] on as it found them. *)
Lemma staging_frame (blockIdx blockDim : Parallel.dim3) (d_input : list Z)
    (width height channels kernel_width kernel_height padding_width
     padding_height : Z) (is_SoA : bool) (channel : Z)
    (s_data s_data' : list Z) :
  Parallel.for_threads blockDim (fun threadIdx =>
    Parallel.shared_stage blockIdx blockDim threadIdx d_input
      width height channels kernel_width kernel_height
      padding_width padding_height is_SoA channel) s_data = Ok s_data' ->
  forall j : nat,
    2 * (Parallel.x blockDim * Parallel.y blockDim) <= Z.of_nat j ->
    s_data' !! j = s_data !! j.
Proof.
  intros E j Hj. unfold Parallel.for_threads in E.
  refine (for_range_preserves (fun s => s !! j = s_data !! j)
            _ _ _ s_data s_data' _ E eq_refl).
  intros ty t t' Hty Et Ht.
  refine (for_range_preserves (fun s => s !! j = s_data !! j)
            _ _ _ t t' _ Et Ht).
  intros tx u u' Htx Eu Hu.
  rewrite (shared_stage_frame _ _ (Parallel.mk_dim3 tx ty)
             _ _ _ _ _ _ _ _ _ _ _ _ Htx Hty Eu) by done.
  done.
Qed.

Lemma raster_1x14_valid : valid_image raster_1x14.
Proof. solve_valid_image. Qed.

Lemma kernel_9x9_corner_valid : valid_kernel kernel_9x9_corner.
Proof. unfold valid_kernel; cbn. repeat split; lia. Qed.

(** C1 on the code, at a 1x14 raster of value 255, the 9x9 kernel that
    picks the bottom-right pixel of its window, and REPLICATE padding.
    The baseline, the global-memory and the constant-memory strategies
    return the raster of value 255.  The tile-cached strategy returns, at
    pixel (0, 13), the byte that uninitialised shared memory held at
    offset 512: the two staging batches fill 2 * 16 * 16 = 512 slots of a
    tile that has (16 + 9 - 1)^2 = 576, and the window of that pixel reads
    slot 21 * 24 + 8 = 512. *)
Theorem tile_cached_strategy_reads_unstaged_slot :
  Parallel.TILE_WIDTH = 16
  /\ 2 * (Parallel.TILE_WIDTH * Parallel.TILE_WIDTH)
     < (Parallel.TILE_WIDTH + Kernel.width kernel_9x9_corner - 1)
       * (Parallel.TILE_WIDTH + Kernel.height kernel_9x9_corner - 1)
  /\ Kernel.create_from 9 9 (Kernel.data kernel_9x9_corner) = Ok kernel_9x9_corner
  /\ Sequential.convolve raster_1x14 kernel_9x9_corner REPLICATE
     = Ok (Image.make 1 14 1 (replicate 14 255) false)
  /\ Parallel.convolve_global (fun _ => 0) raster_1x14 kernel_9x9_corner REPLICATE
     = Ok (Image.make 1 14 1 (replicate 14 255) false)
  /\ Parallel.convolve_constant (fun _ => 0) raster_1x14 kernel_9x9_corner REPLICATE
     = Ok (Image.make 1 14 1 (replicate 14 255) false)
  /\ Parallel.convolve_shared (fun _ => 0) raster_1x14 kernel_9x9_corner REPLICATE
     = Ok (Image.make 1 14 1 (replicate 13 255 ++ [0]) false)
  /\ Parallel.convolve_shared (fun _ => 7) raster_1x14 kernel_9x9_corner REPLICATE
     = Ok (Image.make 1 14 1 (replicate 13 255 ++ [7]) false).
Proof.
  split; [reflexivity|]. split; [reflexivity|]. split; [reflexivity|].
  split; [vm_compute; reflexivity|].
  split; [vm_compute; reflexivity|].
  split; [vm_compute; reflexivity|].
  split; vm_compute; reflexivity.
Qed.

(* ===================================================================== *)
(** * Reading and writing through the accessor                            *)
(* ===================================================================== *)

(** X1. A write through [operator()] at a coordinate of the raster is read
    back at that coordinate, leaves every other coordinate as it was, and
    keeps the dimensions, the layout flag and the buffer length. *)
Theorem accessor_write_then_read (im : Image.t) (x y ch v : Z) :
  Z.of_nat (length (Image.data im)) = Image.get_size im ->
  in_raster (Image.width im) (Image.height im) (Image.channels im) x y ch ->
  exists im',
    Image.set im x y ch v = Ok im'
    /\ Image.width im' = Image.width im
    /\ Image.height im' = Image.height im
    /\ Image.channels im' = Image.channels im
    /\ Image.is_SoA im' = Image.is_SoA im
    /\ Z.of_nat (length (Image.data im')) = Image.get_size im'
    /\ Image.get im' x y ch = Ok v
    /\ forall x' y' ch',
         ~ (x' = x /\ y' = y /\ ch' = ch) ->
         Image.get im' x' y' ch' = Image.get im x' y' ch'.
Proof.
  intros Hlen Hin.
  pose proof (offset_bounds (Image.is_SoA im) _ _ _ _ _ _ Hin) as Hb.
  unfold Image.get_size in Hlen.
  rewrite set_ok by done. eexists. split; [reflexivity|].
  assert (Hlen' : Z.of_nat (length (Image.data (Image.with_data im
            (<[Z.to_nat (offset (Image.is_SoA im) (Image.width im) (Image.height im)
                          (Image.channels im) x y ch) := v]> (Image.data im)))))
          = Image.width im * Image.height im * Image.channels im).
  { cbn. by rewrite length_insert. }
  repeat (split; [done|]). split.
  - unfold Image.get. rewrite pixel_index_ok by done. cbn.
    apply raw_load_ok; [lia|]. apply list_lookup_insert_eq. lia.
  - intros x' y' ch' Hne. unfold Image.get.
    destruct (decide (in_raster (Image.width im) (Image.height im)
                        (Image.channels im) x' y' ch')) as [Hin'|Hout].
    + rewrite !pixel_index_ok by done. cbn.
      pose proof (offset_bounds (Image.is_SoA im) _ _ _ _ _ _ Hin') as Hb'.
      unfold raw_load. destruct (Z.ltb_spec (offset (Image.is_SoA im)
        (Image.width im) (Image.height im) (Image.channels im) x' y' ch') 0); [lia|].
      rewrite list_lookup_insert_ne; [done|].
      intros E. apply Hne.
      apply (offset_inj (Image.is_SoA im) (Image.width im) (Image.height im)
               (Image.channels im)); [done|done|lia].
    + by rewrite !pixel_index_throw.
Qed.

Lemma accessor_write_then_read_witness :
  exists im',
    Image.set raster_4x4 2 1 0 99 = Ok im'
    /\ Image.width im' = Image.width raster_4x4
    /\ Image.height im' = Image.height raster_4x4
    /\ Image.channels im' = Image.channels raster_4x4
    /\ Image.is_SoA im' = Image.is_SoA raster_4x4
    /\ Z.of_nat (length (Image.data im')) = Image.get_size im'
    /\ Image.get im' 2 1 0 = Ok 99
    /\ forall x' y' ch',
         ~ (x' = 2 /\ y' = 1 /\ ch' = 0) ->
         Image.get im' x' y' ch' = Image.get raster_4x4 x' y' ch'.
Proof.
  apply (accessor_write_then_read raster_4x4 2 1 0 99).
  - reflexivity.
  - unfold in_raster; cbn; lia.
Defined.

(** X2. On a raster whose buffer has [width * height * channels] bytes the
    accessor throws "Invalid coordinates." exactly at the coordinates
    outside [[0, width) x [0, height) x [0, channels)], for a read and for
    a write; inside, both return. *)
Theorem accessor_throws_exactly_outside (im : Image.t) (x y ch : Z) :
  Z.of_nat (length (Image.data im)) = Image.get_size im ->
  (Image.get im x y ch = Throw "Invalid coordinates."
   <-> ~ in_raster (Image.width im) (Image.height im) (Image.channels im) x y ch)
  /\ (forall v, Image.set im x y ch v = Throw "Invalid coordinates."
      <-> ~ in_raster (Image.width im) (Image.height im) (Image.channels im) x y ch)
  /\ (in_raster (Image.width im) (Image.height im) (Image.channels im) x y ch ->
      (exists b, Image.get im x y ch = Ok b)
      /\ forall v, exists im', Image.set im x y ch v = Ok im').
Proof.
  intros Hlen.
  destruct (decide (in_raster (Image.width im) (Image.height im)
                      (Image.channels im) x y ch)) as [Hin|Hout].
  - destruct (get_ok im x y ch Hlen Hin) as (b & Eb & _).
    split; [|split].
    + rewrite Eb. split; [done|tauto].
    + intros v. rewrite set_ok by done. split; [done|tauto].
    + intros _. split; [by exists b|]. intros v. rewrite set_ok by done. eauto.
  - split; [|split].
    + unfold Image.get. rewrite pixel_index_throw by done. cbn. tauto.
    + intros v. unfold Image.set. rewrite pixel_index_throw by done. cbn. tauto.
    + tauto.
Qed.

Lemma accessor_throws_exactly_outside_witness :
  (Image.get raster_4x4 4 0 0 = Throw "Invalid coordinates."
   <-> ~ in_raster (Image.width raster_4x4) (Image.height raster_4x4)
          (Image.channels raster_4x4) 4 0 0)
  /\ (forall v, Image.set raster_4x4 4 0 0 v = Throw "Invalid coordinates."
      <-> ~ in_raster (Image.width raster_4x4) (Image.height raster_4x4)
             (Image.channels raster_4x4) 4 0 0)
  /\ (in_raster (Image.width raster_4x4) (Image.height raster_4x4)
        (Image.channels raster_4x4) 4 0 0 ->
      (exists b, Image.get raster_4x4 4 0 0 = Ok b)
      /\ forall v, exists im', Image.set raster_4x4 4 0 0 v = Ok im').
Proof.
  apply (accessor_throws_exactly_outside raster_4x4 4 0 0). reflexivity.
Defined.

(* ===================================================================== *)
(** * Padding: REPLICATE and the failures                                 *)
(* ===================================================================== *)

(** X3. REPLICATE padding: every pixel [(x, y)] of the padded raster,
    border or interior, is the source pixel whose column is [x - pad_w]
    clamped into [[0, width - 1]] and whose row is [y - pad_h] clamped into
    [[0, height - 1]]; the dimensions grow by twice the padding and the
    channel count and layout are kept. *)
Theorem replicate_padding_clamps (im : Image.t) (pw ph : Z) :
  valid_image im -> 0 <= pw -> 0 <= ph ->
  exists out,
    Image.padding im pw ph REPLICATE = Ok out
    /\ Image.width out = Image.width im + 2 * pw
    /\ Image.height out = Image.height im + 2 * ph
    /\ Image.channels out = Image.channels im
    /\ Image.is_SoA out = Image.is_SoA im
    /\ forall x y ch,
         in_raster (Image.width out) (Image.height out) (Image.channels out) x y ch ->
         Image.get out x y ch
         = Image.get im (Z.min (Z.max 0 (x - pw)) (Image.width im - 1))
                        (Z.min (Z.max 0 (y - ph)) (Image.height im - 1)) ch.
Proof.
  intros Hv Hpw Hph.
  destruct (padding_ok im pw ph REPLICATE Hv Hpw Hph)
    as (out & E & Ew & Eh & Ec & Es & El & Hpx); [done|].
  exists out. repeat (split; [done|]).
  intros x y ch Hin. rewrite Hpx by done.
  destruct Hv as (Hw & Hh & Hc & Hlen & _).
  destruct Hin as (Hx & Hy & Hch). rewrite Ec in Hch.
  destruct (get_ok im (Z.min (Z.max 0 (x - pw)) (Image.width im - 1))
              (Z.min (Z.max 0 (y - ph)) (Image.height im - 1)) ch Hlen)
    as (v & Ev & _); [unfold in_raster; lia|].
  rewrite Ev. f_equal. unfold pad_value, clamp.
  destruct (Z.leb_spec 0 (x - pw)), (Z.ltb_spec (x - pw) (Image.width im)),
    (Z.leb_spec 0 (y - ph)), (Z.ltb_spec (y - ph) (Image.height im));
    cbn [andb]; try (by apply pixel_get).
  apply pixel_get. rewrite <- Ev. f_equal; lia.
Qed.

Lemma replicate_padding_clamps_witness :
  exists out,
    Image.padding raster_4x4 2 1 REPLICATE = Ok out
    /\ Image.width out = Image.width raster_4x4 + 2 * 2
    /\ Image.height out = Image.height raster_4x4 + 2 * 1
    /\ Image.channels out = Image.channels raster_4x4
    /\ Image.is_SoA out = Image.is_SoA raster_4x4
    /\ forall x y ch,
         in_raster (Image.width out) (Image.height out) (Image.channels out) x y ch ->
         Image.get out x y ch
         = Image.get raster_4x4
             (Z.min (Z.max 0 (x - 2)) (Image.width raster_4x4 - 1))
             (Z.min (Z.max 0 (y - 1)) (Image.height raster_4x4 - 1)) ch.
Proof.
  apply (replicate_padding_clamps raster_4x4 2 1).
  - unfold valid_image; cbn.
    repeat split; try lia.
    repeat (apply Forall_cons_2; [unfold is_uint8; lia|]); apply Forall_nil_2.
  - lia.
  - lia.
Defined.

(** X4. Under ZERO and REPLICATE the padding of a valid raster returns
    exactly when both paddings are non-negative; a negative padding
    throws "Invalid padding dimensions." under every policy and for every
    image. *)
Theorem padding_returns_iff_nonnegative (im : Image.t) (pw ph : Z)
    (pt : PaddingType) :
  valid_image im -> pt <> MIRROR ->
  ((exists out, Image.padding im pw ph pt = Ok out) <-> 0 <= pw /\ 0 <= ph)
  /\ (forall im' pt', pw < 0 \/ ph < 0 ->
        Image.padding im' pw ph pt' = Throw "Invalid padding dimensions.").
Proof.
  intros Hv Hpt. split; [split|].
  - intros (out & E).
    destruct (Z.lt_ge_cases pw 0); [by rewrite padding_throw in E by lia|].
    destruct (Z.lt_ge_cases ph 0); [by rewrite padding_throw in E by lia|]. lia.
  - intros [Hpw Hph].
    destruct (padding_ok im pw ph pt Hv Hpw Hph) as (out & E & _); [done|].
    by exists out.
  - intros im' pt' Hneg. by apply padding_throw.
Qed.

Lemma padding_returns_iff_nonnegative_witness :
  ((exists out, Image.padding raster_4x4 (-1) 2 ZERO = Ok out) <-> 0 <= -1 /\ 0 <= 2)
  /\ (forall im' pt', -1 < 0 \/ 2 < 0 ->
        Image.padding im' (-1) 2 pt' = Throw "Invalid padding dimensions.").
Proof.
  apply (padding_returns_iff_nonnegative raster_4x4 (-1) 2 ZERO).
  - unfold valid_image; cbn.
    repeat split; try lia.
    repeat (apply Forall_cons_2; [unfold is_uint8; lia|]); apply Forall_nil_2.
  - discriminate.
Defined.

(** A loop whose iterations either go on or throw [what], and one of
    which throws, throws. *)
Lemma for_range_or_throws {St : Type} (good : St -> Prop) (what : string)
    (lo hi : Z) (body : Z -> St -> result St) (s : St) :
  (forall i t, lo <= i < hi -> good t ->
     (exists t', body i t = Ok t' /\ good t') \/ body i t = Throw what) ->
  good s ->
  (exists s', for_range lo hi body s = Ok s' /\ good s')
  \/ for_range lo hi body s = Throw what.
Proof.
  intros Hb. unfold for_range.
  assert (G : forall n i t, lo <= i -> i + Z.of_nat n <= Z.max lo hi -> good t ->
            (exists s', for_steps n i body t = Ok s' /\ good s')
            \/ for_steps n i body t = Throw what).
  { induction n as [|n IH]; intros i t Hi Hn Ht; cbn [for_steps].
    - left. by exists t.
    - destruct (Hb i t) as [(t' & -> & Ht')| ->]; [lia|done| |by right].
      cbn [bind]. apply IH; [lia|lia|done]. }
  intros Hs. destruct (Z.le_gt_cases lo hi).
  - apply G; [lia|lia|done].
  - replace (Z.to_nat (hi - lo)) with 0%nat by lia. left. by exists s.
Qed.

Lemma for_range_throws {St : Type} (good : St -> Prop) (what : string)
    (lo hi : Z) (body : Z -> St -> result St) (s : St) :
  (forall i t, lo <= i < hi -> good t ->
     (exists t', body i t = Ok t' /\ good t') \/ body i t = Throw what) ->
  (exists i, lo <= i < hi /\ forall t, good t -> body i t = Throw what) ->
  good s ->
  for_range lo hi body s = Throw what.
Proof.
  intros Hb (j & Hj & Hthrow). unfold for_range.
  assert (G : forall n i t, lo <= i <= j -> j < i + Z.of_nat n -> good t ->
            for_steps n i body t = Throw what).
  { induction n as [|n IH]; intros i t Hi Hn Ht; cbn [for_steps]; [lia|].
    destruct (Hb i t) as [(t' & E & Ht')| ->]; [lia|done| |done].
    destruct (decide (i = j)) as [->|Hne].
    - rewrite Hthrow in E by done. discriminate.
    - rewrite E. cbn [bind]. apply IH; [lia|lia|done]. }
  intros Hs. apply G; [lia|lia|done].
Qed.

(** Under MIRROR a padding as wide as the raster (or wider) makes the
    fold leave the raster, and the accessor rejects the coordinate. *)
Lemma mirror_padding_throws (im : Image.t) (pw ph : Z) :
  valid_image im -> 0 <= pw -> 0 <= ph ->
  Image.width im <= pw \/ Image.height im <= ph ->
  Image.padding im pw ph MIRROR = Throw "Invalid coordinates.".
Proof.
  intros (Hw & Hh & Hc & Hlen & _) Hpw Hph Hwide.
  unfold Image.padding.
  destruct (Z.ltb_spec pw 0); [lia|].
  destruct (Z.ltb_spec ph 0); [lia|]. cbn [orb].
  set (W := Image.width im + pw * 2). set (H' := Image.height im + ph * 2).
  set (C := Image.channels im). set (soa := Image.is_SoA im).
  set (good := fun s : Image.t =>
    Image.width s = W /\ Image.height s = H' /\ Image.channels s = C
    /\ Image.is_SoA s = soa /\ Z.of_nat (length (Image.data s)) = W * H' * C).
  assert (Hm1 : forall dim, 0 < dim -> Image.mirror (2 * dim - 1) dim = -1).
  { intros dim Hd. rewrite mirror_reflect_101 by lia. unfold reflect_101.
    rewrite Z.abs_eq by lia. rewrite Z.mod_small by lia. lia. }
  (* one pixel of the padded raster: the loop goes on, or throws *)
  assert (Hpixel : forall ch y x s,
    in_raster W H' C x y ch -> good s ->
    (exists s',
       (let col := x - pw in
        let row := y - ph in
        if (0 <=? col) && (col <? Image.width im) && (0 <=? row)
           && (row <? Image.height im)
        then do v <- Image.get im col row ch; Image.set s x y ch v
        else
          if (2 * Image.width im =? 0) || (2 * Image.height im =? 0) then Undefined
          else
            let mirror_col := Image.mirror col (Image.width im) in
            let mirror_row := Image.mirror row (Image.height im) in
            do v <- Image.get im mirror_col mirror_row ch;
            Image.set s x y ch v) = Ok s' /\ good s')
    \/ (let col := x - pw in
        let row := y - ph in
        if (0 <=? col) && (col <? Image.width im) && (0 <=? row)
           && (row <? Image.height im)
        then do v <- Image.get im col row ch; Image.set s x y ch v
        else
          if (2 * Image.width im =? 0) || (2 * Image.height im =? 0) then Undefined
          else
            let mirror_col := Image.mirror col (Image.width im) in
            let mirror_row := Image.mirror row (Image.height im) in
            do v <- Image.get im mirror_col mirror_row ch;
            Image.set s x y ch v) = Throw "Invalid coordinates.").
  { intros ch y x s Hin (Ew & Eh & Ec & Es & El). cbv zeta.
    assert (Hset : forall v, exists s', Image.set s x y ch v = Ok s' /\ good s').
    { intros v. rewrite set_ok; [|unfold Image.get_size; by rewrite El, Ew, Eh, Ec
                                 |by rewrite Ew, Eh, Ec].
      eexists. split; [done|]. unfold good. cbn. rewrite length_insert. done. }
    assert (Hget : forall col row,
      (exists s', (do v <- Image.get im col row ch; Image.set s x y ch v) = Ok s'
                  /\ good s')
      \/ (do v <- Image.get im col row ch; Image.set s x y ch v)
         = Throw "Invalid coordinates.").
    { intros col row.
      destruct (decide (in_raster (Image.width im) (Image.height im)
                          (Image.channels im) col row ch)) as [Hi|Ho].
      - destruct (get_ok im col row ch Hlen Hi) as (v & -> & _). cbn [bind].
        left. apply Hset.
      - right. unfold Image.get. by rewrite pixel_index_throw. }
    destruct (_ && _); [apply Hget|].
    destruct (Z.eqb_spec (2 * Image.width im) 0); [lia|].
    destruct (Z.eqb_spec (2 * Image.height im) 0); [lia|]. cbn [orb].
    apply Hget. }
  (* a pixel whose fold leaves the raster throws *)
  assert (Hbad : forall ch y x s,
    (x - pw = 2 * Image.width im - 1 \/ y - ph = 2 * Image.height im - 1) ->
    (let col := x - pw in
     let row := y - ph in
     if (0 <=? col) && (col <? Image.width im) && (0 <=? row)
        && (row <? Image.height im)
     then do v <- Image.get im col row ch; Image.set s x y ch v
     else
       if (2 * Image.width im =? 0) || (2 * Image.height im =? 0) then Undefined
       else
         let mirror_col := Image.mirror col (Image.width im) in
         let mirror_row := Image.mirror row (Image.height im) in
         do v <- Image.get im mirror_col mirror_row ch;
         Image.set s x y ch v) = Throw "Invalid coordinates.").
  { intros ch y x s Hxy. cbv zeta.
    destruct (Z.leb_spec 0 (x - pw)), (Z.ltb_spec (x - pw) (Image.width im)),
      (Z.leb_spec 0 (y - ph)), (Z.ltb_spec (y - ph) (Image.height im));
      cbn [andb]; try lia;
      (destruct (Z.eqb_spec (2 * Image.width im) 0); [lia|];
       destruct (Z.eqb_spec (2 * Image.height im) 0); [lia|]; cbn [orb];
       unfold Image.get; rewrite pixel_index_throw; [done|];
       intros (Hx & Hy & _);
       destruct Hxy as [E|E]; rewrite E, Hm1 in *; lia). }
  assert (Hrow : forall ch y s, 0 <= ch < C -> 0 <= y < H' -> good s ->
    (exists s',
       for_range 0 W (fun x padded_image =>
         let col := x - pw in
         let row := y - ph in
         if (0 <=? col) && (col <? Image.width im) && (0 <=? row)
            && (row <? Image.height im)
         then do v <- Image.get im col row ch; Image.set padded_image x y ch v
         else
           if (2 * Image.width im =? 0) || (2 * Image.height im =? 0) then Undefined
           else
             let mirror_col := Image.mirror col (Image.width im) in
             let mirror_row := Image.mirror row (Image.height im) in
             do v <- Image.get im mirror_col mirror_row ch;
             Image.set padded_image x y ch v) s = Ok s' /\ good s')
    \/ for_range 0 W (fun x padded_image =>
         let col := x - pw in
         let row := y - ph in
         if (0 <=? col) && (col <? Image.width im) && (0 <=? row)
            && (row <? Image.height im)
         then do v <- Image.get im col row ch; Image.set padded_image x y ch v
         else
           if (2 * Image.width im =? 0) || (2 * Image.height im =? 0) then Undefined
           else
             let mirror_col := Image.mirror col (Image.width im) in
             let mirror_row := Image.mirror row (Image.height im) in
             do v <- Image.get im mirror_col mirror_row ch;
             Image.set padded_image x y ch v) s = Throw "Invalid coordinates.").
  { intros ch y s Hch Hy Hs.
    apply (for_range_or_throws good); [|done].
    intros x t Hx Ht. apply Hpixel; [unfold in_raster; lia|done]. }
  assert (Hrow_bad : forall ch y s, 0 <= ch < C -> 0 <= y < H' -> good s ->
    Image.width im <= pw \/ y - ph = 2 * Image.height im - 1 ->
    for_range 0 W (fun x padded_image =>
      let col := x - pw in
      let row := y - ph in
      if (0 <=? col) && (col <? Image.width im) && (0 <=? row)
         && (row <? Image.height im)
      then do v <- Image.get im col row ch; Image.set padded_image x y ch v
      else
        if (2 * Image.width im =? 0) || (2 * Image.height im =? 0) then Undefined
        else
          let mirror_col := Image.mirror col (Image.width im) in
          let mirror_row := Image.mirror row (Image.height im) in
          do v <- Image.get im mirror_col mirror_row ch;
          Image.set padded_image x y ch v) s = Throw "Invalid coordinates.").
  { intros ch y s Hch Hy Hs Hcase.
    apply (for_range_throws good); [| |done].
    - intros x t Hx Ht. apply Hpixel; [unfold in_raster; lia|done].
    - destruct Hcase as [Hcw|Hcy].
      + exists (2 * Image.width im - 1 + pw). split; [unfold W; lia|].
        intros t _. apply Hbad. left. lia.
      + exists 0. split; [unfold W; lia|].
        intros t _. apply Hbad. by right. }
  assert (Hchan : forall ch s, 0 <= ch < C -> good s ->
    for_range 0 H' (fun y =>
      for_range 0 W (fun x padded_image =>
        let col := x - pw in
        let row := y - ph in
        if (0 <=? col) && (col <? Image.width im) && (0 <=? row)
           && (row <? Image.height im)
        then do v <- Image.get im col row ch; Image.set padded_image x y ch v
        else
          if (2 * Image.width im =? 0) || (2 * Image.height im =? 0) then Undefined
          else
            let mirror_col := Image.mirror col (Image.width im) in
            let mirror_row := Image.mirror row (Image.height im) in
            do v <- Image.get im mirror_col mirror_row ch;
            Image.set padded_image x y ch v)) s = Throw "Invalid coordinates.").
  { intros ch s Hch Hs.
    apply (for_range_throws good); [| |done].
    - intros y t Hy Ht. by apply Hrow.
    - destruct Hwide as [Hcw|Hch'].
      + exists 0. split; [unfold H'; lia|].
        intros t Ht. apply Hrow_bad; [done|unfold H'; lia|done|by left].
      + exists (2 * Image.height im - 1 + ph). split; [unfold H'; lia|].
        intros t Ht. apply Hrow_bad; [done|unfold H'; lia|done|right; lia]. }
  apply (for_range_throws good).
  - intros ch t Hch Ht. right. by apply Hchan.
  - exists 0. split; [fold C; lia|]. intros t Ht. apply Hchan; [unfold C; lia|done].
  - unfold good. cbn. rewrite length_replicate. repeat split; try done.
    rewrite Z2Nat.id; [done|]. unfold W, H', C. nia.
Qed.

(** X5. Under MIRROR the padding of a valid raster, with non-negative
    padding sizes, returns exactly when the padding is narrower than the
    raster in both directions; a padding as wide as the raster (or wider)
    makes the fold leave the raster, and the call throws
    "Invalid coordinates.". *)
Theorem mirror_padding_too_wide_throws (im : Image.t) (pw ph : Z) :
  valid_image im -> 0 <= pw -> 0 <= ph ->
  ((exists p, Image.padding im pw ph MIRROR = Ok p)
   <-> pw < Image.width im /\ ph < Image.height im)
  /\ (Image.width im <= pw \/ Image.height im <= ph ->
      Image.padding im pw ph MIRROR = Throw "Invalid coordinates.").
Proof.
  intros Hv Hpw Hph. split; [split|].
  - intros [p Ep].
    destruct (Z.lt_ge_cases pw (Image.width im)) as [Hw|Hw];
      [destruct (Z.lt_ge_cases ph (Image.height im)) as [Hh|Hh]; [done|]|].
    + rewrite (mirror_padding_throws im pw ph) in Ep; [done..|by right].
    + rewrite (mirror_padding_throws im pw ph) in Ep; [done..|by left].
  - intros Hn.
    destruct (padding_ok im pw ph MIRROR Hv Hpw Hph) as (p & Ep & _); [done|].
    by exists p.
  - intros Hwide. by apply mirror_padding_throws.
Qed.

Lemma mirror_padding_too_wide_throws_witness :
  ((exists p, Image.padding raster_4x4 4 0 MIRROR = Ok p)
   <-> 4 < Image.width raster_4x4 /\ 0 < Image.height raster_4x4)
  /\ (Image.width raster_4x4 <= 4 \/ Image.height raster_4x4 <= 0 ->
      Image.padding raster_4x4 4 0 MIRROR = Throw "Invalid coordinates.").
Proof.
  apply (mirror_padding_too_wide_throws raster_4x4 4 0).
  - unfold valid_image; cbn.
    repeat split; try lia.
    repeat (apply Forall_cons_2; [unfold is_uint8; lia|]); apply Forall_nil_2.
  - lia.
  - lia.
Defined.

(** X6. Under MIRROR (the default policy of the command line) a kernel
    whose half width reaches the width or the height of the raster makes
    every strategy throw "Invalid coordinates.": no output raster is
    produced, for instance for a raster one pixel wide and any kernel
    wider than 1x1. *)
Theorem mirror_convolution_of_narrow_raster_throws (im : Image.t) (k : Kernel.t) :
  valid_image im -> valid_kernel k ->
  Image.width im <= Kernel.width k / 2 \/ Image.height im <= Kernel.width k / 2 ->
  Sequential.convolve im k MIRROR = Throw "Invalid coordinates."
  /\ forall uninit,
       Parallel.convolve_global uninit im k MIRROR = Throw "Invalid coordinates."
       /\ Parallel.convolve_constant uninit im k MIRROR = Throw "Invalid coordinates."
       /\ Parallel.convolve_shared uninit im k MIRROR = Throw "Invalid coordinates."
       /\ Parallel.convolve_pinned uninit im k MIRROR = Throw "Invalid coordinates.".
Proof.
  intros Hv (Hkw & Hkh & Hko & Hkl) Hnarrow.
  assert (Hp0 : 0 <= Kernel.width k / 2) by (apply Z.div_pos; lia).
  assert (Hpad : Image.padding im (Kernel.width k / 2) (Kernel.height k / 2) MIRROR
                 = Throw "Invalid coordinates.").
  { rewrite Hkh. by apply mirror_padding_throws. }
  split.
  - unfold Sequential.convolve.
    rewrite !Z.quot_div_nonneg by lia. by rewrite Hpad.
  - intros uninit.
    unfold Parallel.convolve_pinned, Parallel.convolve_global,
      Parallel.convolve_constant, Parallel.convolve_shared, floor_half.
    by rewrite Hpad.
Qed.

Lemma mirror_convolution_of_narrow_raster_throws_witness :
  Sequential.convolve raster_1x14 kernel_9x9_corner MIRROR
  = Throw "Invalid coordinates."
  /\ forall uninit,
       Parallel.convolve_global uninit raster_1x14 kernel_9x9_corner MIRROR
       = Throw "Invalid coordinates."
       /\ Parallel.convolve_constant uninit raster_1x14 kernel_9x9_corner MIRROR
          = Throw "Invalid coordinates."
       /\ Parallel.convolve_shared uninit raster_1x14 kernel_9x9_corner MIRROR
          = Throw "Invalid coordinates."
       /\ Parallel.convolve_pinned uninit raster_1x14 kernel_9x9_corner MIRROR
          = Throw "Invalid coordinates.".
Proof.
  apply (mirror_convolution_of_narrow_raster_throws raster_1x14 kernel_9x9_corner).
  - unfold valid_image; cbn.
    repeat split; try lia.
    repeat (apply Forall_cons_2; [unfold is_uint8; lia|]); apply Forall_nil_2.
  - unfold valid_kernel; cbn. repeat split; lia.
  - left. vm_compute. discriminate.
Defined.

(* ===================================================================== *)
(** * File names                                                          *)
(* ===================================================================== *)

Lemma string_length_app (p r : string) :
  String.length (p ++ r) = (String.length p + String.length r)%nat.
Proof. induction p as [|a p IH]; cbn; [done|]. by rewrite IH. Qed.

Lemma strrchr_suffix (s r : string) (c : ascii) :
  Image.strrchr s c = Some r -> exists p, s = (p ++ r)%string.
Proof.
  revert r. induction s as [|a s IH]; intros r; cbn; [done|].
  destruct (Image.strrchr s c) as [r'|] eqn:E.
  - intros [= <-]. destruct (IH r' eq_refl) as (p & ->).
    by exists (String a p).
  - destruct (Ascii.eqb a c); [|done]. intros [= <-]. by exists EmptyString.
Qed.

Lemma strrchr_last (p e : string) (c : ascii) :
  Image.strrchr e c = None ->
  Image.strrchr (p ++ String c e) c = Some (String c e).
Proof.
  intros He. induction p as [|a p IH]; cbn.
  - by rewrite He, Ascii.eqb_refl.
  - by rewrite IH.
Qed.

Lemma type_of_extension (filename ext : string) :
  Image.strrchr ext "."%char = Some ext ->
  (exists p, filename = (p ++ ext)%string) <->
  Image.strrchr filename "."%char = Some ext.
Proof.
  intros Hext. split.
  - intros (p & ->). destruct ext as [|c e]; [done|].
    cbn in Hext. destruct (Image.strrchr e ".") eqn:E.
    + injection Hext as Hext. apply strrchr_suffix in E as (q & Eq).
      exfalso. apply (f_equal String.length) in Hext.
      rewrite Eq in Hext. cbn in Hext. rewrite string_length_app in Hext.
      cbn in Hext. lia.
    + destruct (Ascii.eqb_spec c "."%char) as [->|]; [|done].
      by apply strrchr_last.
  - apply strrchr_suffix.
Qed.

(** X7. [get_image_type] looks at the text from the last dot on, with an
    exact comparison: the type is PNG, JPG, BMP or TGA exactly when the
    name ends in ".png", ".jpg", ".bmp" or ".tga", and it is never JPEG
    (a name ending in ".jpeg" or ".PNG" is UNKNOWN). *)
Theorem image_type_is_the_last_extension (filename : string) :
  (Image.get_image_type filename = PNG <-> exists p, filename = (p ++ ".png")%string)
  /\ (Image.get_image_type filename = JPG <-> exists p, filename = (p ++ ".jpg")%string)
  /\ (Image.get_image_type filename = BMP <-> exists p, filename = (p ++ ".bmp")%string)
  /\ (Image.get_image_type filename = TGA <-> exists p, filename = (p ++ ".tga")%string)
  /\ Image.get_image_type filename <> JPEG
  /\ (forall p, Image.get_image_type (p ++ ".jpeg") = UNKNOWN)
  /\ (forall p, Image.get_image_type (p ++ ".PNG") = UNKNOWN).
Proof.
  assert (Hty : forall ext t,
    Image.strrchr ext "."%char = Some ext ->
    (forall e, (if String.eqb e ".png" then PNG
                else if String.eqb e ".jpg" then JPG
                else if String.eqb e ".bmp" then BMP
                else if String.eqb e ".tga" then TGA else UNKNOWN) = t <-> e = ext) ->
    Image.get_image_type filename = t <-> exists p, filename = (p ++ ext)%string).
  { intros ext t Hext Hsel. rewrite (type_of_extension filename ext Hext).
    unfold Image.get_image_type.
    destruct (Image.strrchr filename ".") as [e|] eqn:E.
    - rewrite Hsel. split; [by intros ->|by intros [= ->]].
    - split; [|done]. intros <-. exfalso.
      destruct (Hsel EmptyString) as [Hx _]. specialize (Hx eq_refl).
      subst ext. discriminate Hext. }
  assert (Hsel : forall e t,
    (if String.eqb e ".png" then PNG
     else if String.eqb e ".jpg" then JPG
     else if String.eqb e ".bmp" then BMP
     else if String.eqb e ".tga" then TGA else UNKNOWN) = t ->
    t <> UNKNOWN ->
    e = match t with
        | PNG => ".png" | JPG => ".jpg" | BMP => ".bmp" | TGA => ".tga"
        | _ => ""
        end%string).
  { intros e t. 
    destruct (String.eqb_spec e ".png") as [->|]; [by intros <-|].
    destruct (String.eqb_spec e ".jpg") as [->|]; [by intros <-|].
    destruct (String.eqb_spec e ".bmp") as [->|]; [by intros <-|].
    destruct (String.eqb_spec e ".tga") as [->|]; [by intros <-|].
    by intros <-. }
  split; [|split; [|split; [|split; [|split; [|split]]]]].
  - apply Hty; [done|]. intros e. split; [intros H; by apply (Hsel e PNG)|by intros ->].
  - apply Hty; [done|]. intros e. split; [intros H; by apply (Hsel e JPG)|by intros ->].
  - apply Hty; [done|]. intros e. split; [intros H; by apply (Hsel e BMP)|by intros ->].
  - apply Hty; [done|]. intros e. split; [intros H; by apply (Hsel e TGA)|by intros ->].
  - unfold Image.get_image_type. destruct (Image.strrchr filename "."); [|done].
    repeat (destruct (String.eqb _ _); try done).
  - intros p. unfold Image.get_image_type.
    by rewrite (proj1 (type_of_extension (p ++ ".jpeg") ".jpeg" eq_refl)) by eauto.
  - intros p. unfold Image.get_image_type.
    by rewrite (proj1 (type_of_extension (p ++ ".PNG") ".PNG" eq_refl)) by eauto.
Qed.

(* ===================================================================== *)
(** * Loading and saving                                                  *)
(* ===================================================================== *)

Lemma AoS_to_SoA_ok (im : Image.t) :
  0 <= Image.width im -> 0 <= Image.height im -> 0 <= Image.channels im ->
  Z.of_nat (length (Image.data im)) = Image.get_size im ->
  exists d,
    Image.AoS_to_SoA im = Ok (Image.with_data im d)
    /\ Z.of_nat (length d) = Image.get_size im
    /\ forall x y ch,
         in_raster (Image.width im) (Image.height im) (Image.channels im) x y ch ->
         d !! Z.to_nat (offset true (Image.width im) (Image.height im)
                          (Image.channels im) x y ch)
         = Image.data im !! Z.to_nat (offset false (Image.width im) (Image.height im)
                                        (Image.channels im) x y ch).
Proof.
  intros HW HH HC Hlen. unfold Image.get_size in *.
  destruct (convert_ok (Image.width im) (Image.height im) (Image.channels im)
              false (Image.data im)) as (d & E & Hl & Hp); [done..|].
  exists d. split; [|done].
  unfold Image.AoS_to_SoA, Image.get_size.
  change (for_range 0 (Image.channels im) _ _) with
    (for_range 0 (Image.channels im) (fun channel =>
       for_range 0 (Image.height im) (fun row =>
         for_range 0 (Image.width im) (fun col dst =>
           do v <- raw_load (Image.data im)
                     (offset false (Image.width im) (Image.height im)
                        (Image.channels im) col row channel);
           raw_store dst (offset (negb false) (Image.width im) (Image.height im)
                            (Image.channels im) col row channel) v)))
       (replicate (Z.to_nat (Image.width im * Image.height im * Image.channels im)) 0)).
  by rewrite E.
Qed.

Lemma SoA_to_AoS_ok (im : Image.t) :
  0 <= Image.width im -> 0 <= Image.height im -> 0 <= Image.channels im ->
  Z.of_nat (length (Image.data im)) = Image.get_size im ->
  exists d,
    Image.SoA_to_AoS im = Ok (Image.with_data im d)
    /\ Z.of_nat (length d) = Image.get_size im
    /\ forall x y ch,
         in_raster (Image.width im) (Image.height im) (Image.channels im) x y ch ->
         d !! Z.to_nat (offset false (Image.width im) (Image.height im)
                          (Image.channels im) x y ch)
         = Image.data im !! Z.to_nat (offset true (Image.width im) (Image.height im)
                                        (Image.channels im) x y ch).
Proof.
  intros HW HH HC Hlen. unfold Image.get_size in *.
  destruct (convert_ok (Image.width im) (Image.height im) (Image.channels im)
              true (Image.data im)) as (d & E & Hl & Hp); [done..|].
  exists d. split; [|done].
  unfold Image.SoA_to_AoS, Image.get_size.
  change (for_range 0 (Image.channels im) _ _) with
    (for_range 0 (Image.channels im) (fun channel =>
       for_range 0 (Image.height im) (fun row =>
         for_range 0 (Image.width im) (fun col dst =>
           do v <- raw_load (Image.data im)
                     (offset true (Image.width im) (Image.height im)
                        (Image.channels im) col row channel);
           raw_store dst (offset (negb true) (Image.width im) (Image.height im)
                            (Image.channels im) col row channel) v)))
       (replicate (Z.to_nat (Image.width im * Image.height im * Image.channels im)) 0)).
  by rewrite E.
Qed.

Lemma load_ok (filename : string) (f : Image.decoded) (channel_force : Z)
    (soa : bool) :
  let c := if channel_force =? 0 then Image.d_channels f else channel_force in
  0 < Image.d_width f -> 0 < Image.d_height f -> 0 < c ->
  Z.of_nat (length (Image.d_data f)) = Image.d_width f * Image.d_height f * c ->
  exists d,
    Image.load filename (Some f) channel_force soa
    = Ok (Image.make (Image.d_width f) (Image.d_height f) c d soa)
    /\ Z.of_nat (length d) = Image.d_width f * Image.d_height f * c
    /\ forall x y ch,
         in_raster (Image.d_width f) (Image.d_height f) c x y ch ->
         d !! Z.to_nat (offset soa (Image.d_width f) (Image.d_height f) c x y ch)
         = Image.d_data f
             !! Z.to_nat (offset false (Image.d_width f) (Image.d_height f) c x y ch).
Proof.
  intros c HW HH HC Hlen.
  unfold Image.load. fold c.
  set (fresh := Image.create (Image.d_width f) (Image.d_height f) c soa).
  assert (Hcopy : memcpy (Image.d_data f) (Image.get_size fresh) = Ok (Image.d_data f)).
  { unfold memcpy, Image.get_size. cbn.
    destruct (Z.ltb_spec (Z.of_nat (length (Image.d_data f)))
                (Image.d_width f * Image.d_height f * c)); [lia|].
    f_equal. apply take_ge. lia. }
  rewrite Hcopy. cbn [bind].
  destruct soa.
  - destruct (AoS_to_SoA_ok (Image.with_data fresh (Image.d_data f)))
      as (d & E & Hl & Hp); cbn; [lia|lia|lia|done|].
    rewrite E. exists d. split; [done|]. split; [done|].
    intros x y ch Hin. exact (Hp x y ch Hin).
  - exists (Image.d_data f). done.
Qed.

Lemma save_image_ok (im : Image.t) (filename : string) :
  0 < Image.width im -> 0 < Image.height im -> 0 < Image.channels im ->
  Z.of_nat (length (Image.data im)) = Image.get_size im ->
  exists bytes,
    Image.save_image im filename
    = Ok (Image.with_data im bytes,
          match Image.get_image_type filename with
          | PNG => Some (Image.stbi_write_png filename (Image.width im) (Image.height im)
                           (Image.channels im) bytes
                           (Image.width im * Image.channels im))
          | JPG | JPEG => Some (Image.stbi_write_jpg filename (Image.width im)
                                  (Image.height im) (Image.channels im) bytes 100)
          | BMP => Some (Image.stbi_write_bmp filename (Image.width im) (Image.height im)
                           (Image.channels im) bytes)
          | TGA => Some (Image.stbi_write_tga filename (Image.width im) (Image.height im)
                           (Image.channels im) bytes)
          | UNKNOWN => None
          end)
    /\ Z.of_nat (length bytes) = Image.get_size im
    /\ forall x y ch,
         in_raster (Image.width im) (Image.height im) (Image.channels im) x y ch ->
         bytes !! Z.to_nat (offset false (Image.width im) (Image.height im)
                              (Image.channels im) x y ch)
         = Image.data im !! Z.to_nat (offset (Image.is_SoA im) (Image.width im)
                                        (Image.height im) (Image.channels im) x y ch).
Proof.
  intros HW HH HC Hlen. unfold Image.save_image.
  destruct (Image.is_SoA im) eqn:Es.
  - destruct (SoA_to_AoS_ok im) as (d & E & Hl & Hp); [lia|lia|lia|done|].
    rewrite E. cbn [bind]. by exists d.
  - cbn [bind]. exists (Image.data im). by destruct im.
Qed.

(** X8. Loading: whatever layout is asked for, the pixel the accessor
    reads at [(x, y, ch)] of the loaded image is the decoded byte at
    [(y * width + x) * channels + ch]; the channel count is
    [channel_force] unless it is 0; a failed decode throws. *)
Theorem loaded_pixels_are_the_decoded_pixels (filename : string)
    (f : Image.decoded) (channel_force : Z) (soa : bool) :
  let c := if channel_force =? 0 then Image.d_channels f else channel_force in
  0 < Image.d_width f -> 0 < Image.d_height f -> 0 < c ->
  Z.of_nat (length (Image.d_data f)) = Image.d_width f * Image.d_height f * c ->
  (exists im,
     Image.load filename (Some f) channel_force soa = Ok im
     /\ Image.width im = Image.d_width f
     /\ Image.height im = Image.d_height f
     /\ Image.channels im = c
     /\ Image.is_SoA im = soa
     /\ Z.of_nat (length (Image.data im)) = Image.get_size im
     /\ forall x y ch,
          in_raster (Image.d_width f) (Image.d_height f) c x y ch ->
          Image.get im x y ch
          = raw_load (Image.d_data f) ((y * Image.d_width f + x) * c + ch))
  /\ Image.load filename None channel_force soa
     = Throw ("Failed to read " ++ filename ++ ".")%string.
Proof.
  intros c HW HH HC Hlen. split; [|done].
  destruct (load_ok filename f channel_force soa HW HH HC Hlen) as (d & E & Hl & Hp).
  fold c in E, Hl, Hp.
  eexists. split; [exact E|]. cbn. repeat (split; [done|]).
  intros x y ch Hin. unfold Image.get.
  rewrite pixel_index_ok by done. cbn.
  pose proof (offset_bounds soa _ _ _ _ _ _ Hin).
  pose proof (offset_bounds false _ _ _ _ _ _ Hin) as Hb.
  specialize (Hp x y ch Hin). unfold raw_load. rewrite Hp.
  change ((y * Image.d_width f + x) * c + ch)
    with (offset false (Image.d_width f) (Image.d_height f) c x y ch).
  destruct (Z.ltb_spec (offset soa (Image.d_width f) (Image.d_height f) c x y ch) 0);
    [lia|].
  by destruct (Z.ltb_spec (offset false (Image.d_width f) (Image.d_height f) c x y ch) 0);
    [lia|].
Qed.

Lemma loaded_pixels_are_the_decoded_pixels_witness :
  let f := Image.mk_decoded 2 2 3 [1; 2; 3; 4; 5; 6; 7; 8; 9; 10; 11; 12] in
  let c := if 0 =? 0 then Image.d_channels f else 0 in
  (exists im,
     Image.load "a.png" (Some f) 0 true = Ok im
     /\ Image.width im = Image.d_width f
     /\ Image.height im = Image.d_height f
     /\ Image.channels im = c
     /\ Image.is_SoA im = true
     /\ Z.of_nat (length (Image.data im)) = Image.get_size im
     /\ forall x y ch,
          in_raster (Image.d_width f) (Image.d_height f) c x y ch ->
          Image.get im x y ch
          = raw_load (Image.d_data f) ((y * Image.d_width f + x) * c + ch))
  /\ Image.load "a.png" None 0 true = Throw ("Failed to read " ++ "a.png" ++ ".")%string.
Proof.
  apply (loaded_pixels_are_the_decoded_pixels "a.png"
           (Image.mk_decoded 2 2 3 [1; 2; 3; 4; 5; 6; 7; 8; 9; 10; 11; 12]) 0 true);
    cbn; [lia|lia|lia|reflexivity].
Defined.

(** X9. Saving: whatever the layout of the image, the bytes handed to the
    encoder are the pixels in interleaved order (byte
    [(y * width + x) * channels + ch] is pixel [(x, y, ch)]); the encoder
    called is the one of the file type, with stride [width * channels] for
    PNG and quality 100 for JPG, and none is called (nothing is written,
    no error is raised) when the type is UNKNOWN. *)
Theorem save_hands_over_interleaved_pixels (im : Image.t) (filename : string) :
  0 < Image.width im -> 0 < Image.height im -> 0 < Image.channels im ->
  Z.of_nat (length (Image.data im)) = Image.get_size im ->
  exists im' bytes,
    Image.save_image im filename
    = Ok (im',
          match Image.get_image_type filename with
          | PNG => Some (Image.stbi_write_png filename (Image.width im) (Image.height im)
                           (Image.channels im) bytes
                           (Image.width im * Image.channels im))
          | JPG | JPEG => Some (Image.stbi_write_jpg filename (Image.width im)
                                  (Image.height im) (Image.channels im) bytes 100)
          | BMP => Some (Image.stbi_write_bmp filename (Image.width im) (Image.height im)
                           (Image.channels im) bytes)
          | TGA => Some (Image.stbi_write_tga filename (Image.width im) (Image.height im)
                           (Image.channels im) bytes)
          | UNKNOWN => None
          end)
    /\ Z.of_nat (length bytes) = Image.get_size im
    /\ forall x y ch,
         in_raster (Image.width im) (Image.height im) (Image.channels im) x y ch ->
         Image.get im x y ch
         = raw_load bytes ((y * Image.width im + x) * Image.channels im + ch).
Proof.
  intros HW HH HC Hlen.
  destruct (save_image_ok im filename HW HH HC Hlen) as (bytes & E & Hl & Hp).
  exists (Image.with_data im bytes), bytes. split; [exact E|]. split; [done|].
  intros x y ch Hin.
  destruct (get_ok im x y ch Hlen Hin) as (v & Ev & El).
  rewrite Ev. rewrite <- (Hp x y ch Hin) in El.
  pose proof (offset_bounds false _ _ _ _ _ _ Hin) as Hb.
  symmetry. apply raw_load_ok; [unfold offset in Hb; lia|exact El].
Qed.

Lemma save_hands_over_interleaved_pixels_witness :
  exists im' bytes,
    Image.save_image (raster_2x2x3 true) "out.jpeg"
    = Ok (im',
          match Image.get_image_type "out.jpeg" with
          | PNG => Some (Image.stbi_write_png "out.jpeg" (Image.width (raster_2x2x3 true))
                           (Image.height (raster_2x2x3 true))
                           (Image.channels (raster_2x2x3 true)) bytes
                           (Image.width (raster_2x2x3 true)
                            * Image.channels (raster_2x2x3 true)))
          | JPG | JPEG => Some (Image.stbi_write_jpg "out.jpeg"
                                  (Image.width (raster_2x2x3 true))
                                  (Image.height (raster_2x2x3 true))
                                  (Image.channels (raster_2x2x3 true)) bytes 100)
          | BMP => Some (Image.stbi_write_bmp "out.jpeg" (Image.width (raster_2x2x3 true))
                           (Image.height (raster_2x2x3 true))
                           (Image.channels (raster_2x2x3 true)) bytes)
          | TGA => Some (Image.stbi_write_tga "out.jpeg" (Image.width (raster_2x2x3 true))
                           (Image.height (raster_2x2x3 true))
                           (Image.channels (raster_2x2x3 true)) bytes)
          | UNKNOWN => None
          end)
    /\ Z.of_nat (length bytes) = Image.get_size (raster_2x2x3 true)
    /\ forall x y ch,
         in_raster (Image.width (raster_2x2x3 true)) (Image.height (raster_2x2x3 true))
           (Image.channels (raster_2x2x3 true)) x y ch ->
         Image.get (raster_2x2x3 true) x y ch
         = raw_load bytes ((y * Image.width (raster_2x2x3 true) + x)
                           * Image.channels (raster_2x2x3 true) + ch).
Proof.
  apply (save_hands_over_interleaved_pixels (raster_2x2x3 true) "out.jpeg");
    [cbn; lia|cbn; lia|cbn; lia|reflexivity].
Defined.

(** X10. Load, then save: whatever the file type of the target and the
    layout asked for, the encoder of that type receives exactly the
    decoded bytes with the decoded width and height and the loaded channel
    count (stride [width * channels] for PNG, quality 100 for JPG), and
    none is called for an UNKNOWN type; the image left by the call has the
    loaded dimensions, the layout flag it was loaded with, and the decoded
    bytes. *)
Theorem load_then_save_round_trip (source target : string)
    (f : Image.decoded) (channel_force : Z) (soa : bool) :
  let c := if channel_force =? 0 then Image.d_channels f else channel_force in
  0 < Image.d_width f -> 0 < Image.d_height f -> 0 < c ->
  Z.of_nat (length (Image.d_data f)) = Image.d_width f * Image.d_height f * c ->
  exists im im',
    Image.load source (Some f) channel_force soa = Ok im
    /\ Image.save_image im target
       = Ok (im',
             match Image.get_image_type target with
             | PNG => Some (Image.stbi_write_png target (Image.d_width f)
                              (Image.d_height f) c (Image.d_data f)
                              (Image.d_width f * c))
             | JPG | JPEG => Some (Image.stbi_write_jpg target (Image.d_width f)
                                     (Image.d_height f) c (Image.d_data f) 100)
             | BMP => Some (Image.stbi_write_bmp target (Image.d_width f)
                              (Image.d_height f) c (Image.d_data f))
             | TGA => Some (Image.stbi_write_tga target (Image.d_width f)
                              (Image.d_height f) c (Image.d_data f))
             | UNKNOWN => None
             end)
    /\ Image.width im' = Image.d_width f
    /\ Image.height im' = Image.d_height f
    /\ Image.channels im' = c
    /\ Image.is_SoA im' = soa
    /\ Image.data im' = Image.d_data f.
Proof.
  intros c HW HH HC Hlen.
  destruct (load_ok source f channel_force soa HW HH HC Hlen) as (d & El & Hl & Hp).
  fold c in El, Hl, Hp.
  destruct (save_image_ok (Image.make (Image.d_width f) (Image.d_height f) c d soa) target)
    as (bytes & E & Hlb & Hb); [done..|].
  unfold Image.get_size in Hlb.
  cbn [Image.width Image.height Image.channels Image.is_SoA Image.data] in Hlb, Hb, E.
  assert (Hbytes : bytes = Image.d_data f).
  { apply (buffer_ext (Image.d_width f) (Image.d_height f) c false);
      [lia|lia|lia|done|done|].
    intros x y ch Hin. by rewrite (Hb x y ch Hin), (Hp x y ch Hin). }
  subst bytes.
  eexists. eexists. split; [exact El|]. split; [exact E|]. done.
Qed.

Lemma load_then_save_round_trip_witness :
  let f := Image.mk_decoded 2 2 3 [1; 2; 3; 4; 5; 6; 7; 8; 9; 10; 11; 12] in
  let c := if 0 =? 0 then Image.d_channels f else 0 in
  exists im im',
    Image.load "a.png" (Some f) 0 true = Ok im
    /\ Image.save_image im "b.jpg"
       = Ok (im',
             match Image.get_image_type "b.jpg" with
             | PNG => Some (Image.stbi_write_png "b.jpg" (Image.d_width f)
                              (Image.d_height f) c (Image.d_data f)
                              (Image.d_width f * c))
             | JPG | JPEG => Some (Image.stbi_write_jpg "b.jpg" (Image.d_width f)
                                     (Image.d_height f) c (Image.d_data f) 100)
             | BMP => Some (Image.stbi_write_bmp "b.jpg" (Image.d_width f)
                              (Image.d_height f) c (Image.d_data f))
             | TGA => Some (Image.stbi_write_tga "b.jpg" (Image.d_width f)
                              (Image.d_height f) c (Image.d_data f))
             | UNKNOWN => None
             end)
    /\ Image.width im' = Image.d_width f
    /\ Image.height im' = Image.d_height f
    /\ Image.channels im' = c
    /\ Image.is_SoA im' = true
    /\ Image.data im' = Image.d_data f.
Proof.
  apply (load_then_save_round_trip "a.png" "b.jpg"
           (Image.mk_decoded 2 2 3 [1; 2; 3; 4; 5; 6; 7; 8; 9; 10; 11; 12]) 0 true);
    cbn; [lia|lia|lia|reflexivity].
Defined.

(** X11. [save_image] converts a planar buffer in place and leaves the
    flag as it was: after the call the image is still marked planar while
    its bytes are interleaved, so the accessor reads at [(x, y, ch)] the
    pixel whose interleaved offset is the planar offset of [(x, y, ch)]. *)
Theorem save_leaves_planar_image_permuted (im : Image.t) (filename : string) :
  0 < Image.width im -> 0 < Image.height im -> 0 < Image.channels im ->
  Z.of_nat (length (Image.data im)) = Image.get_size im ->
  Image.is_SoA im = true ->
  exists im' call,
    Image.save_image im filename = Ok (im', call)
    /\ Image.is_SoA im' = true
    /\ forall x y ch x' y' ch',
         in_raster (Image.width im) (Image.height im) (Image.channels im) x y ch ->
         in_raster (Image.width im) (Image.height im) (Image.channels im) x' y' ch' ->
         ch * Image.width im * Image.height im + y * Image.width im + x
         = (y' * Image.width im + x') * Image.channels im + ch' ->
         Image.get im' x y ch = Image.get im x' y' ch'.
Proof.
  intros HW HH HC Hlen Es.
  destruct (save_image_ok im filename HW HH HC Hlen) as (bytes & E & Hlb & Hb).
  eexists. eexists. split; [exact E|]. split; [done|].
  intros x y ch x' y' ch' Hin Hin' Hoff.
  specialize (Hb x' y' ch' Hin').
  destruct (get_ok im x' y' ch' Hlen Hin') as (v & Ev & El).
  rewrite Ev. rewrite <- Hb in El.
  unfold Image.get at 1. rewrite pixel_index_ok by done. cbn. rewrite Es.
  unfold offset in *. rewrite Hoff.
  pose proof (offset_bounds false _ _ _ _ _ _ Hin') as Hbd. unfold offset in Hbd.
  apply raw_load_ok; [lia|exact El].
Qed.

Lemma save_leaves_planar_image_permuted_witness :
  exists im' call,
    Image.save_image (raster_2x2x3 true) "b.png" = Ok (im', call)
    /\ Image.is_SoA im' = true
    /\ forall x y ch x' y' ch',
         in_raster (Image.width (raster_2x2x3 true)) (Image.height (raster_2x2x3 true))
           (Image.channels (raster_2x2x3 true)) x y ch ->
         in_raster (Image.width (raster_2x2x3 true)) (Image.height (raster_2x2x3 true))
           (Image.channels (raster_2x2x3 true)) x' y' ch' ->
         ch * Image.width (raster_2x2x3 true) * Image.height (raster_2x2x3 true)
         + y * Image.width (raster_2x2x3 true) + x
         = (y' * Image.width (raster_2x2x3 true) + x')
           * Image.channels (raster_2x2x3 true) + ch' ->
         Image.get im' x y ch = Image.get (raster_2x2x3 true) x' y' ch'.
Proof.
  apply (save_leaves_planar_image_permuted (raster_2x2x3 true) "b.png");
    [cbn; lia|cbn; lia|cbn; lia|reflexivity|reflexivity].
Defined.

(* ===================================================================== *)
(** * Copies and comparison                                               *)
(* ===================================================================== *)

Lemma assign_ok (this other : Image.t) :
  0 <= Image.get_size this ->
  Z.of_nat (length (Image.data this)) = Image.get_size this ->
  Image.get_size this <= Z.of_nat (length (Image.data other)) ->
  Image.assign this other false
  = Ok (Image.with_data this (take (Z.to_nat (Image.get_size this)) (Image.data other))).
Proof.
  intros Hn Hlen Hother. unfold Image.assign, memcpy.
  destruct (Z.ltb_spec (Z.of_nat (length (Image.data this))) (Image.get_size this));
    [lia|].
  destruct (Z.ltb_spec (Z.of_nat (length (Image.data other))) (Image.get_size this));
    [lia|].
  cbn [bind]. do 2 f_equal.
  rewrite drop_ge; [by rewrite app_nil_r|].
  rewrite length_take. lia.
Qed.

(** X12. Assignment copies bytes, never the shape: the assigned-to image
    keeps its width, height, channel count and layout flag and receives
    the first [get_size()] bytes of the other buffer; between images of
    equal dimensions the result compares equal to the source, whatever the
    two layout flags are; self-assignment changes nothing. *)
Theorem assignment_copies_bytes_not_shape (this other : Image.t) :
  0 <= Image.get_size this ->
  Z.of_nat (length (Image.data this)) = Image.get_size this ->
  Image.get_size this <= Z.of_nat (length (Image.data other)) ->
  Image.assign this other false
  = Ok (Image.with_data this (take (Z.to_nat (Image.get_size this)) (Image.data other)))
  /\ Image.assign this this true = Ok this
  /\ (Image.width other = Image.width this ->
      Image.height other = Image.height this ->
      Image.channels other = Image.channels this ->
      Image.eqb (Image.with_data this
                   (take (Z.to_nat (Image.get_size this)) (Image.data other)))
                other = Ok true).
Proof.
  intros Hn Hlen Hother. split; [|split; [done|]].
  - by apply assign_ok.
  - intros Ew Eh Ec. unfold Image.eqb, memcmp_eq0. cbn.
    rewrite Ew, Eh, Ec, !Z.eqb_refl. cbn.
    replace (Image.get_size (Image.with_data this
               (take (Z.to_nat (Image.get_size this)) (Image.data other))))
      with (Image.get_size this) by done.
    rewrite length_take.
    destruct (Z.ltb_spec
      (Z.of_nat (Z.to_nat (Image.get_size this) `min` length (Image.data other)))
      (Image.get_size this)); [lia|].
    destruct (Z.ltb_spec (Z.of_nat (length (Image.data other))) (Image.get_size this));
      [lia|]. cbn.
    f_equal. apply bool_decide_eq_true_2.
    rewrite take_take. f_equal. lia.
Qed.

Lemma assignment_copies_bytes_not_shape_witness :
  Image.assign (raster_2x2x3 true) (raster_2x2x3 false) false
  = Ok (Image.with_data (raster_2x2x3 true)
          (take (Z.to_nat (Image.get_size (raster_2x2x3 true)))
             (Image.data (raster_2x2x3 false))))
  /\ Image.assign (raster_2x2x3 true) (raster_2x2x3 true) true = Ok (raster_2x2x3 true)
  /\ (Image.width (raster_2x2x3 false) = Image.width (raster_2x2x3 true) ->
      Image.height (raster_2x2x3 false) = Image.height (raster_2x2x3 true) ->
      Image.channels (raster_2x2x3 false) = Image.channels (raster_2x2x3 true) ->
      Image.eqb (Image.with_data (raster_2x2x3 true)
                   (take (Z.to_nat (Image.get_size (raster_2x2x3 true)))
                      (Image.data (raster_2x2x3 false))))
                (raster_2x2x3 false) = Ok true).
Proof.
  apply (assignment_copies_bytes_not_shape (raster_2x2x3 true) (raster_2x2x3 false));
    [unfold Image.get_size; cbn; lia|reflexivity|unfold Image.get_size; cbn; lia].
Defined.

(** X13. The copy constructor and the constructor from a buffer return
    an image of the same dimensions and layout flag holding the first
    [width * height * channels] bytes of the source buffer: a copy of a
    well-sized image is that image, and it compares equal to it; a source
    buffer that is too short is read past its end. *)
Theorem copies_hold_the_source_bytes (im : Image.t) :
  (Z.of_nat (length (Image.data im)) = Image.get_size im ->
   Image.copy im = Ok im
   /\ Image.create_from (Image.width im) (Image.height im) (Image.channels im)
        (Image.data im) (Image.is_SoA im) = Ok im
   /\ Image.eqb im im = Ok true)
  /\ (Z.of_nat (length (Image.data im)) < Image.get_size im ->
      Image.copy im = Undefined
      /\ Image.create_from (Image.width im) (Image.height im) (Image.channels im)
           (Image.data im) (Image.is_SoA im) = Undefined).
Proof.
  unfold Image.copy, Image.create_from, Image.eqb, memcmp_eq0, memcpy, Image.get_size.
  cbn [Image.width Image.height Image.channels Image.create].
  split; intros Hlen.
  - destruct (Z.ltb_spec (Z.of_nat (length (Image.data im)))
                (Image.width im * Image.height im * Image.channels im)); [lia|].
    cbn [bind]. rewrite take_ge by lia. rewrite !Z.eqb_refl. cbn.
    rewrite bool_decide_eq_true_2 by done. by destruct im.
  - by destruct (Z.ltb_spec (Z.of_nat (length (Image.data im)))
                   (Image.width im * Image.height im * Image.channels im)); [|lia].
Qed.

(** X14. Equality of two well-sized images is decided by the three
    dimensions and the bytes alone: it holds exactly when the dimensions
    agree and the buffers are identical. *)
Theorem equality_is_dimensions_and_bytes (a b : Image.t) :
  0 <= Image.get_size a ->
  Z.of_nat (length (Image.data a)) = Image.get_size a ->
  Z.of_nat (length (Image.data b)) = Image.get_size b ->
  (exists r, Image.eqb a b = Ok r)
  /\ (Image.eqb a b = Ok true
      <-> Image.width a = Image.width b /\ Image.height a = Image.height b
          /\ Image.channels a = Image.channels b /\ Image.data a = Image.data b).
Proof.
  intros Hn Ha Hb. unfold Image.eqb.
  destruct (Z.eqb_spec (Image.width a) (Image.width b)) as [Ew|Ew];
    [|split; [by eexists|split; [done|by intros (? & _)]]].
  destruct (Z.eqb_spec (Image.height a) (Image.height b)) as [Eh|Eh];
    [|split; [by eexists|split; [done|by intros (_ & ? & _)]]].
  destruct (Z.eqb_spec (Image.channels a) (Image.channels b)) as [Ec|Ec];
    [|split; [by eexists|split; [done|by intros (_ & _ & ? & _)]]].
  cbn [negb orb]. unfold memcmp_eq0.
  assert (Hsz : Image.get_size b = Image.get_size a)
    by (unfold Image.get_size; by rewrite Ew, Eh, Ec).
  destruct (Z.ltb_spec (Z.of_nat (length (Image.data a))) (Image.get_size a)); [lia|].
  destruct (Z.ltb_spec (Z.of_nat (length (Image.data b))) (Image.get_size a)); [lia|].
  cbn [orb]. rewrite !take_ge by lia.
  split; [by eexists|]. split.
  - intros [= E]. apply bool_decide_eq_true_1 in E. done.
  - intros (_ & _ & _ & E). by rewrite bool_decide_eq_true_2.
Qed.

Lemma equality_is_dimensions_and_bytes_witness :
  (exists r, Image.eqb (raster_2x2x3 false) (raster_2x2x3 true) = Ok r)
  /\ (Image.eqb (raster_2x2x3 false) (raster_2x2x3 true) = Ok true
      <-> Image.width (raster_2x2x3 false) = Image.width (raster_2x2x3 true)
          /\ Image.height (raster_2x2x3 false) = Image.height (raster_2x2x3 true)
          /\ Image.channels (raster_2x2x3 false) = Image.channels (raster_2x2x3 true)
          /\ Image.data (raster_2x2x3 false) = Image.data (raster_2x2x3 true)).
Proof.
  apply (equality_is_dimensions_and_bytes (raster_2x2x3 false) (raster_2x2x3 true));
    [unfold Image.get_size; cbn; lia|reflexivity|reflexivity].
Defined.

Lemma copies_hold_the_source_bytes_witness :
  (Image.copy raster_4x4 = Ok raster_4x4
   /\ Image.create_from (Image.width raster_4x4) (Image.height raster_4x4)
        (Image.channels raster_4x4) (Image.data raster_4x4) (Image.is_SoA raster_4x4)
      = Ok raster_4x4
   /\ Image.eqb raster_4x4 raster_4x4 = Ok true)
  /\ Image.copy (Image.make 2 2 1 [1; 2; 3] false) = Undefined.
Proof.
  split.
  - apply (proj1 (copies_hold_the_source_bytes raster_4x4)). reflexivity.
  - apply (proj2 (copies_hold_the_source_bytes (Image.make 2 2 1 [1; 2; 3] false))).
    unfold Image.get_size. cbn. lia.
Defined.

(* ===================================================================== *)
(** * Kernels: accessor, construction order, normalisation                *)
(* ===================================================================== *)

(** X15. The kernel accessor: on a kernel built from a weight array it
    returns, inside the kernel, the array entry [row * width + col]; it
    throws "Invalid kernel coordinates." exactly outside the kernel; a
    kernel built without an array reads zero everywhere. *)
Theorem kernel_accessor (w : Z) (d : list F32.float) (col row : Z) :
  0 < w -> Z.odd w = true -> Z.of_nat (length d) = w * w ->
  exists k k0,
    Kernel.create_from w w d = Ok k
    /\ Kernel.create w w = Ok k0
    /\ (0 <= col < w /\ 0 <= row < w ->
        Kernel.get k col row = raw_load d (row * w + col)
        /\ (exists v, Kernel.get k col row = Ok v)
        /\ Kernel.get k0 col row = Ok F32.zero)
    /\ (~ (0 <= col < w /\ 0 <= row < w) ->
        Kernel.get k col row = Throw "Invalid kernel coordinates."
        /\ Kernel.get k0 col row = Throw "Invalid kernel coordinates.").
Proof.
  intros Hw Ho Hlen.
  exists (Kernel.make w w d), (Kernel.make w w (replicate (Z.to_nat (w * w)) F32.zero)).
  split; [|split; [by apply create_ok|split]].
  - unfold Kernel.create_from. rewrite create_ok by done.
    unfold Kernel.get_size. cbn [bind Kernel.width Kernel.height].
    by rewrite memcpy_all.
  - intros (Hc & Hr). unfold Kernel.get. cbn [Kernel.width Kernel.height Kernel.data].
    destruct (Z.ltb_spec col 0); [lia|].
    destruct (Z.geb_spec col w); [lia|].
    destruct (Z.ltb_spec row 0); [lia|].
    destruct (Z.geb_spec row w); [lia|]. cbn [orb].
    pose proof (row_major_bounds w w col row ltac:(lia) ltac:(lia)) as Hb.
    split; [done|]. split.
    + destruct (raw_load_lt d (row * w + col)) as (v & E & _); [lia|]. by exists v.
    + apply raw_load_ok; [lia|]. apply lookup_replicate_2. lia.
  - intros Hout. unfold Kernel.get. cbn [Kernel.width Kernel.height Kernel.data].
    destruct (Z.ltb_spec col 0); [done|].
    destruct (Z.geb_spec col w); [done|].
    destruct (Z.ltb_spec row 0); [done|].
    destruct (Z.geb_spec row w); [done|]. lia.
Qed.

Lemma kernel_accessor_witness :
  exists k k0,
    Kernel.create_from 1 1 [three_quarters] = Ok k
    /\ Kernel.create 1 1 = Ok k0
    /\ (0 <= 0 < 1 /\ 0 <= 0 < 1 ->
        Kernel.get k 0 0 = raw_load [three_quarters] (0 * 1 + 0)
        /\ (exists v, Kernel.get k 0 0 = Ok v)
        /\ Kernel.get k0 0 0 = Ok F32.zero)
    /\ (~ (0 <= 0 < 1 /\ 0 <= 0 < 1) ->
        Kernel.get k 0 0 = Throw "Invalid kernel coordinates."
        /\ Kernel.get k0 0 0 = Throw "Invalid kernel coordinates.").
Proof.
  apply (kernel_accessor 1 [three_quarters] 0 0); [lia|reflexivity|reflexivity].
Defined.

(** X16. The three dimension checks of the kernel constructor run in a
    fixed order, so the message is that of the first check that fails:
    positivity before parity, parity before squareness. *)
Theorem kernel_checks_in_order (w h : Z) :
  (w <= 0 \/ h <= 0 ->
   Kernel.create w h = Throw "Kernel dimensions must be greater than 0.")
  /\ (0 < w -> 0 < h -> Z.even w = true \/ Z.even h = true ->
      Kernel.create w h = Throw "Kernel dimensions must be odd.")
  /\ (0 < w -> 0 < h -> Z.odd w = true -> Z.odd h = true -> w <> h ->
      Kernel.create w h = Throw "Kernel dimensions must be equal.")
  /\ (forall d what, Kernel.create w h = Throw what ->
        Kernel.create_from w h d = Throw what).
Proof.
  unfold Kernel.create_from, Kernel.create. rewrite !rem2_eqb_even.
  split; [|split; [|split]].
  - intros [H|H].
    + by destruct (Z.leb_spec w 0); [|lia].
    + destruct (Z.leb_spec w 0); [done|]. by destruct (Z.leb_spec h 0); [|lia].
  - intros Hw Hh He.
    destruct (Z.leb_spec w 0); [lia|]. destruct (Z.leb_spec h 0); [lia|]. cbn [orb].
    destruct He as [-> | ->]; [done|]. by rewrite orb_true_r.
  - intros Hw Hh Ow Oh Hne. rewrite <- !Z.negb_odd, Ow, Oh.
    destruct (Z.leb_spec w 0); [lia|]. destruct (Z.leb_spec h 0); [lia|]. cbn [orb negb].
    by destruct (Z.eqb_spec w h).
  - intros d what.
    destruct ((w <=? 0) || (h <=? 0)); [by intros [= <-]|].
    destruct (Z.even w || Z.even h); [by intros [= <-]|].
    destruct (negb (w =? h)); [by intros [= <-]|done].
Qed.

Lemma kernel_checks_in_order_witness :
  Kernel.create 0 2 = Throw "Kernel dimensions must be greater than 0."
  /\ Kernel.create 2 3 = Throw "Kernel dimensions must be odd."
  /\ Kernel.create 3 5 = Throw "Kernel dimensions must be equal.".
Proof.
  split; [|split].
  - apply (proj1 (kernel_checks_in_order 0 2)). left. lia.
  - apply (proj1 (proj2 (kernel_checks_in_order 2 3))); [lia|lia|by left].
  - apply (proj1 (proj2 (proj2 (kernel_checks_in_order 3 5))));
      [lia|lia|reflexivity|reflexivity|lia].
Defined.

Lemma div_by_zero_not_finite (w : F32.float) (s : bool) :
  match F32.div w (S754_zero s) with
  | S754_infinity _ | S754_nan => True
  | _ => False
  end.
Proof. by destruct w. Qed.

(** X17. [custom_kernel] does not guard the normalisation: when the
    weights sum to zero every weight is divided by zero, so that the
    caller's array and the returned kernel hold only infinities and NaN;
    and the array is normalised before the size is checked, so that it is
    overwritten even when the call then throws for an even or
    non-positive size. *)
Theorem custom_kernel_unguarded (size : Z) (d : list F32.float) :
  Z.of_nat (length d) = size * size ->
  (forall s, fold_left F32.add d F32.zero = S754_zero s ->
     Forall (fun w => match w with
                      | S754_infinity _ | S754_nan => True
                      | _ => False
                      end) (fst (Kernel.custom_kernel size d true))
     /\ (0 < size -> Z.odd size = true ->
         snd (Kernel.custom_kernel size d true)
         = Ok (Kernel.make size size (fst (Kernel.custom_kernel size d true)))))
  /\ (size <= 0 \/ Z.even size = true ->
      (exists what, snd (Kernel.custom_kernel size d true) = Throw what)
      /\ fst (Kernel.custom_kernel size d true)
         = map (fun w => F32.div w (fold_left F32.add d F32.zero)) d).
Proof.
  intros Hlen.
  assert (E : Kernel.custom_kernel size d true
              = (map (fun w => F32.div w (fold_left F32.add d F32.zero)) d,
                 Kernel.create_from size size
                   (map (fun w => F32.div w (fold_left F32.add d F32.zero)) d))).
  { unfold Kernel.custom_kernel. rewrite (sum_loop d) by done. cbn [bind].
    by rewrite (scale_loop d) by done. }
  rewrite E. cbn [fst snd]. split.
  - intros s Hs. rewrite Hs. split.
    + apply Forall_forall. intros w Hw.
      apply list_elem_of_fmap in Hw as (v & -> & _). apply div_by_zero_not_finite.
    + intros Hpos Ho. unfold Kernel.create_from. rewrite create_ok by done.
      unfold Kernel.get_size. cbn [bind Kernel.width Kernel.height].
      rewrite memcpy_all; [done|]. by rewrite length_map.
  - intros Hbad. split; [|done].
    unfold Kernel.create_from, Kernel.create. rewrite rem2_eqb_even.
    destruct (Z.leb_spec size 0); [by eexists|]. cbn [orb].
    destruct Hbad as [?|Ev]; [lia|]. rewrite Ev. by eexists.
Qed.

Lemma custom_kernel_unguarded_witness :
  (Forall (fun w => match w with
                    | S754_infinity _ | S754_nan => True
                    | _ => False
                    end) (fst (Kernel.custom_kernel 1 [F32.zero] true))
   /\ snd (Kernel.custom_kernel 1 [F32.zero] true)
      = Ok (Kernel.make 1 1 (fst (Kernel.custom_kernel 1 [F32.zero] true))))
  /\ (exists what,
        snd (Kernel.custom_kernel 2 (replicate 4 (F32.of_int 1)) true) = Throw what)
  /\ fst (Kernel.custom_kernel 2 (replicate 4 (F32.of_int 1)) true)
     = map (fun w => F32.div w (fold_left F32.add (replicate 4 (F32.of_int 1)) F32.zero))
         (replicate 4 (F32.of_int 1)).
Proof.
  split.
  - destruct (proj1 (custom_kernel_unguarded 1 [F32.zero] eq_refl) false eq_refl)
      as [Hnf Hk].
    split; [exact Hnf|]. apply Hk; [lia|reflexivity].
  - apply (proj2 (custom_kernel_unguarded 2 (replicate 4 (F32.of_int 1)) eq_refl)).
    by right.
Defined.

(* ===================================================================== *)
(** * The strategies side by side                                         *)
(* ===================================================================== *)

(** X19. What the device allocations held before the launches does not
    reach the result: the global-memory strategy returns the same raster
    for any two contents of fresh device memory, and the constant-memory
    strategy (kernel within the constant table) returns that same raster.
    Every pixel of it is the clamped, truncated sum of the pixel's window
    in the padded raster, accumulated with fused multiply-adds. *)
Theorem device_garbage_does_not_reach_result (uninit uninit' : nat -> Z)
    (im : Image.t) (k : Kernel.t) (pt : PaddingType) :
  valid_image im -> valid_kernel k ->
  (pt = MIRROR -> Kernel.width k / 2 < Image.width im
                  /\ Kernel.width k / 2 < Image.height im) ->
  exists padded out,
    Image.padding im (Kernel.width k / 2) (Kernel.height k / 2) pt = Ok padded
    /\ Parallel.convolve_global uninit im k pt = Ok out
    /\ Parallel.convolve_global uninit' im k pt = Ok out
    /\ (Kernel.width k <= Parallel.MAX_MASK_WIDTH ->
        Parallel.convolve_constant uninit im k pt = Ok out
        /\ Parallel.convolve_constant uninit' im k pt = Ok out)
    /\ forall x y ch,
         in_raster (Image.width im) (Image.height im) (Image.channels im) x y ch ->
         Image.get out x y ch = Ok (stored (fused_sum padded k x y ch)).
Proof.
  intros Hv Hk Hm.
  destruct (global_and_constant_ok uninit im k pt Hv Hk Hm)
    as (padded & out & Ep & Eg & Ec & Ew & Eh & Ech & Es & El & Hpx).
  destruct (global_and_constant_ok uninit' im k pt Hv Hk Hm)
    as (padded' & out' & Ep' & Eg' & Ec' & Ew' & Eh' & Ech' & Es' & El' & Hpx').
  rewrite Ep in Ep'. injection Ep' as <-.
  destruct Hv as (HW & HH & HC & _).
  assert (E : out = out').
  { apply image_ext; try congruence; try lia.
    intros x y ch Hin. rewrite Ew, Eh, Ech in Hin.
    by rewrite Hpx, Hpx'. }
  subst out'. exists padded, out.
  split; [done|]. split; [done|]. split; [done|].
  split; [|done]. intros Hfit. split; [by apply Ec|by apply Ec'].
Qed.

Lemma device_garbage_does_not_reach_result_witness :
  exists padded out,
    Image.padding raster_4x4 (Kernel.width kernel_three_quarters / 2)
      (Kernel.height kernel_three_quarters / 2) REPLICATE = Ok padded
    /\ Parallel.convolve_global (fun _ => 0) raster_4x4 kernel_three_quarters REPLICATE
       = Ok out
    /\ Parallel.convolve_global (fun i => Z.of_nat i mod 256) raster_4x4
         kernel_three_quarters REPLICATE = Ok out
    /\ (Kernel.width kernel_three_quarters <= Parallel.MAX_MASK_WIDTH ->
        Parallel.convolve_constant (fun _ => 0) raster_4x4 kernel_three_quarters
          REPLICATE = Ok out
        /\ Parallel.convolve_constant (fun i => Z.of_nat i mod 256) raster_4x4
             kernel_three_quarters REPLICATE = Ok out)
    /\ forall x y ch,
         in_raster (Image.width raster_4x4) (Image.height raster_4x4)
           (Image.channels raster_4x4) x y ch ->
         Image.get out x y ch
         = Ok (stored (fused_sum padded kernel_three_quarters x y ch)).
Proof.
  apply (device_garbage_does_not_reach_result (fun _ => 0) (fun i => Z.of_nat i mod 256)
           raster_4x4 kernel_three_quarters REPLICATE).
  - apply raster_4x4_valid.
  - unfold valid_kernel, Kernel.get_size. cbn. repeat split; lia.
  - intros [=].
Defined.

Lemma fold_left_ext_elem {A B : Type} (f g : B -> A -> B) (l : list A) (b : B) :
  (forall b x, x ∈ l -> f b x = g b x) -> fold_left f l b = fold_left g l b.
Proof.
  revert b. induction l as [|a l IH]; intros b H; [done|]. cbn.
  rewrite H by left. apply IH. intros b' x Hx. apply H. by right.
Qed.

(** The weighted sum depends on the window only. *)
Lemma weighted_sum_ext (p p' : Image.t) (k : Kernel.t) (x y ch : Z) :
  (forall kx ky, 0 <= kx < Kernel.width k -> 0 <= ky < Kernel.height k ->
     pixel p (x + kx) (y + ky) ch = pixel p' (x + kx) (y + ky) ch) ->
  weighted_sum p k x y ch = weighted_sum p' k x y ch.
Proof.
  intros H. unfold weighted_sum.
  apply fold_left_ext_elem. intros acc ky Hky. apply elem_of_seqZ in Hky.
  apply fold_left_ext_elem. intros acc' kx Hkx. apply elem_of_seqZ in Hkx.
  rewrite H by lia. done.
Qed.

(** What padding adds is read from pixels of the raster. *)
Lemma pad_value_ext (im im' : Image.t) (pw ph : Z) (pt : PaddingType) (x y ch : Z) :
  Image.width im' = Image.width im -> Image.height im' = Image.height im ->
  0 < Image.width im -> 0 < Image.height im ->
  (pt = MIRROR -> pw < Image.width im /\ ph < Image.height im) ->
  0 <= x < Image.width im + 2 * pw -> 0 <= y < Image.height im + 2 * ph ->
  (forall x y, 0 <= x < Image.width im -> 0 <= y < Image.height im ->
     pixel im x y ch = pixel im' x y ch) ->
  pad_value Image.mirror im pw ph pt x y ch = pad_value Image.mirror im' pw ph pt x y ch.
Proof.
  intros Ew Eh HW HH Hm Hx Hy Hpx. unfold pad_value. rewrite Ew, Eh.
  destruct (Z.leb_spec 0 (x - pw)); cbn [andb].
  - destruct (Z.ltb_spec (x - pw) (Image.width im)); cbn [andb].
    + destruct (Z.leb_spec 0 (y - ph)); cbn [andb].
      * destruct (Z.ltb_spec (y - ph) (Image.height im)).
        -- apply Hpx; lia.
        -- destruct pt; [done| |].
           ++ apply Hpx; by apply clamp_range.
           ++ destruct (Hm eq_refl). apply Hpx; apply mirror_range; lia.
      * destruct pt; [done| |].
        -- apply Hpx; by apply clamp_range.
        -- destruct (Hm eq_refl). apply Hpx; apply mirror_range; lia.
    + destruct pt; [done| |].
      * apply Hpx; by apply clamp_range.
      * destruct (Hm eq_refl). apply Hpx; apply mirror_range; lia.
  - destruct pt; [done| |].
    + apply Hpx; by apply clamp_range.
    + destruct (Hm eq_refl). apply Hpx; apply mirror_range; lia.
Qed.

(** X20. The result of a convolution is a function of the pixels, not of
    the layout: two rasters of the same dimensions that hold the same
    pixels, each in its own layout, give outputs that hold the same
    pixels, each in the layout of its input. *)
Theorem convolution_ignores_layout (im im' : Image.t) (k : Kernel.t)
    (pt : PaddingType) :
  valid_image im -> valid_image im' -> valid_kernel k ->
  (pt = MIRROR -> Kernel.width k / 2 < Image.width im
                  /\ Kernel.width k / 2 < Image.height im) ->
  Image.width im' = Image.width im -> Image.height im' = Image.height im ->
  Image.channels im' = Image.channels im ->
  (forall x y ch,
     in_raster (Image.width im) (Image.height im) (Image.channels im) x y ch ->
     Image.get im x y ch = Image.get im' x y ch) ->
  exists out out',
    Sequential.convolve im k pt = Ok out
    /\ Sequential.convolve im' k pt = Ok out'
    /\ Image.is_SoA out = Image.is_SoA im
    /\ Image.is_SoA out' = Image.is_SoA im'
    /\ forall x y ch,
         in_raster (Image.width im) (Image.height im) (Image.channels im) x y ch ->
         Image.get out x y ch = Image.get out' x y ch.
Proof.
  intros Hv Hv' Hk Hm Ew Eh Ec Hsame.
  assert (Hm' : pt = MIRROR -> Kernel.width k / 2 < Image.width im'
                               /\ Kernel.width k / 2 < Image.height im')
    by (rewrite Ew, Eh; exact Hm).
  destruct (convolve_ok im k pt Hv Hk Hm)
    as (p & out & Ep & Eo & _ & _ & _ & Es & _ & Hpx).
  destruct (convolve_ok im' k pt Hv' Hk Hm')
    as (p' & out' & Ep' & Eo' & _ & _ & _ & Es' & _ & Hpx').
  exists out, out'. repeat (split; [done|]).
  intros x y ch Hin. rewrite Hpx by done. rewrite Hpx' by (by rewrite Ew, Eh, Ec).
  do 2 f_equal.
  pose proof Hk as (Hkw & Hkh & Hko & Hkl).
  pose proof (odd_half _ Hko) as Hhalf.
  assert (Hp0 : 0 <= Kernel.width k / 2) by (apply Z.div_pos; lia).
  destruct (padding_ok im (Kernel.width k / 2) (Kernel.height k / 2) pt Hv)
    as (q & Eq & Eqw & Eqh & Eqc & _ & _ & Hq);
    [done|by rewrite Hkh|by rewrite Hkh|].
  destruct (padding_ok im' (Kernel.width k / 2) (Kernel.height k / 2) pt Hv')
    as (q' & Eq' & Eqw' & Eqh' & Eqc' & _ & _ & Hq');
    [done|by rewrite Hkh|by rewrite Hkh, Ew, Eh|].
  rewrite Ep in Eq. injection Eq as <-. rewrite Ep' in Eq'. injection Eq' as <-.
  destruct Hin as (Hx & Hy & Hch).
  destruct Hv as (HW & HH & HC & _).
  apply weighted_sum_ext. intros kx ky Hkx Hky.
  assert (Hin : in_raster (Image.width p) (Image.height p) (Image.channels p)
                  (x + kx) (y + ky) ch).
  { unfold in_raster. rewrite Hkh in *. lia. }
  assert (Hin' : in_raster (Image.width p') (Image.height p') (Image.channels p')
                   (x + kx) (y + ky) ch) by (unfold in_raster; rewrite Hkh in *; lia).
  rewrite (pixel_get p _ _ _ _ (Hq _ _ _ Hin)).
  rewrite (pixel_get p' _ _ _ _ (Hq' _ _ _ Hin')).
  apply pad_value_ext; try done; try lia.
  - by rewrite Hkh.
  - rewrite Hkh in *. lia.
  - intros x0 y0 Hx0 Hy0. unfold pixel. by rewrite Hsame.
Qed.

Lemma convolution_ignores_layout_witness :
  exists out out',
    Sequential.convolve raster_4x4 kernel_three_quarters MIRROR = Ok out
    /\ Sequential.convolve (Image.make 4 4 1 (Image.data raster_4x4) true)
         kernel_three_quarters MIRROR = Ok out'
    /\ Image.is_SoA out = Image.is_SoA raster_4x4
    /\ Image.is_SoA out' = true
    /\ forall x y ch,
         in_raster (Image.width raster_4x4) (Image.height raster_4x4)
           (Image.channels raster_4x4) x y ch ->
         Image.get out x y ch = Image.get out' x y ch.
Proof.
  apply (convolution_ignores_layout raster_4x4
           (Image.make 4 4 1 (Image.data raster_4x4) true)
           kernel_three_quarters MIRROR).
  - apply raster_4x4_valid.
  - destruct raster_4x4_valid as (? & ? & ? & ? & ?). by repeat split.
  - unfold valid_kernel, Kernel.get_size. cbn. repeat split; lia.
  - intros _. split; reflexivity.
  - reflexivity.
  - reflexivity.
  - reflexivity.
  - intros x y ch (Hx & Hy & Hch). cbn in Hx, Hy, Hch.
    unfold Image.get, Image.pixel_index. cbn.
    replace ch with 0 by lia.
    by replace (0 * 4 * 4 + y * 4 + x) with ((y * 4 + x) * 1 + 0) by lia.
Defined.

(* ===================================================================== *)
(** * The predefined kernels on flat rasters                              *)
(* ===================================================================== *)

Lemma weighted_sum_flat (p : Image.t) (k : Kernel.t) (x y ch v : Z) :
  (forall kx ky, 0 <= kx < Kernel.width k -> 0 <= ky < Kernel.height k ->
     pixel p (x + kx) (y + ky) ch = v) ->
  weighted_sum p k x y ch = flat_sum k v.
Proof.
  intros H. unfold weighted_sum, flat_sum.
  apply fold_left_ext_elem. intros acc ky Hky. apply elem_of_seqZ in Hky.
  apply fold_left_ext_elem. intros acc' kx Hkx. apply elem_of_seqZ in Hkx.
  rewrite H by lia. done.
Qed.

(** With REPLICATE or MIRROR padding every pixel of the padded flat
    raster holds the value of the raster. *)
Lemma pad_value_flat (im : Image.t) (pw ph : Z) (pt : PaddingType) (x y ch v : Z) :
  0 < Image.width im -> 0 < Image.height im ->
  pt <> ZERO ->
  (pt = MIRROR -> pw < Image.width im /\ ph < Image.height im) ->
  0 <= x < Image.width im + 2 * pw -> 0 <= y < Image.height im + 2 * ph ->
  (forall x y, 0 <= x < Image.width im -> 0 <= y < Image.height im ->
     pixel im x y ch = v) ->
  pad_value Image.mirror im pw ph pt x y ch = v.
Proof.
  intros HW HH Hz Hm Hx Hy Hpx. unfold pad_value.
  destruct ((0 <=? x - pw) && (x - pw <? Image.width im) && (0 <=? y - ph)
            && (y - ph <? Image.height im)) eqn:E.
  - apply Hpx; lia.
  - destruct pt; [done| |].
    + apply Hpx; by apply clamp_range.
    + destruct (Hm eq_refl). apply Hpx; apply mirror_range; lia.
Qed.

(** A flat raster under any kernel: every output pixel is the stored
    value of the flat sum. *)
Lemma flat_raster_convolution (im : Image.t) (k : Kernel.t) (pt : PaddingType) (v : Z) :
  valid_image im -> valid_kernel k -> pt <> ZERO ->
  (pt = MIRROR -> Kernel.width k / 2 < Image.width im
                  /\ Kernel.width k / 2 < Image.height im) ->
  (forall x y ch,
     in_raster (Image.width im) (Image.height im) (Image.channels im) x y ch ->
     Image.get im x y ch = Ok v) ->
  is_uint8 v
  /\ exists out,
       Sequential.convolve im k pt = Ok out
       /\ forall x y ch,
            in_raster (Image.width im) (Image.height im) (Image.channels im) x y ch ->
            Image.get out x y ch = Ok (stored (flat_sum k v)).
Proof.
  intros Hv Hk Hz Hm Hflat. split.
  { destruct Hv as (HW & HH & HC & Hlen & Hu8).
    assert (Hin : in_raster (Image.width im) (Image.height im) (Image.channels im) 0 0 0)
      by (unfold in_raster; lia).
    pose proof (get_inv im 0 0 0 v Hlen Hin (Hflat 0 0 0 Hin)) as Hl.
    by apply (Forall_lookup_1 _ _ _ _ Hu8 Hl). }
  destruct (convolve_ok im k pt Hv Hk Hm)
    as (p & out & Ep & Eo & _ & _ & _ & _ & _ & Hpx).
  exists out. split; [done|].
  intros x y ch Hin. rewrite Hpx by done. do 2 f_equal.
  pose proof Hk as (Hkw & Hkh & Hko & Hkl).
  pose proof (odd_half _ Hko) as Hhalf.
  assert (Hp0 : 0 <= Kernel.width k / 2) by (apply Z.div_pos; lia).
  destruct (padding_ok im (Kernel.width k / 2) (Kernel.height k / 2) pt Hv)
    as (q & Eq & Eqw & Eqh & Eqc & _ & _ & Hq);
    [done|by rewrite Hkh|by rewrite Hkh|].
  rewrite Ep in Eq. injection Eq as <-.
  destruct Hin as (Hx & Hy & Hch).
  destruct Hv as (HW & HH & HC & _).
  apply weighted_sum_flat. intros kx ky Hkx Hky.
  assert (Hin : in_raster (Image.width p) (Image.height p) (Image.channels p)
                  (x + kx) (y + ky) ch)
    by (unfold in_raster; rewrite Hkh in *; lia).
  rewrite (pixel_get p _ _ _ _ (Hq _ _ _ Hin)).
  apply pad_value_flat; try done.
  - by rewrite Hkh.
  - lia.
  - rewrite Hkh in *. lia.
  - intros x0 y0 Hx0 Hy0. apply pixel_get, Hflat. unfold in_raster. lia.
Qed.

(** What a kernel stores for each of the 256 values of a flat raster. *)
Lemma all_bytes (P : Z -> bool) :
  forallb P (seqZ 0 256) = true -> forall v, is_uint8 v -> P v = true.
Proof.
  intros H v Hv. rewrite forallb_forall in H. apply H.
  apply list_elem_of_In, elem_of_seqZ. unfold is_uint8 in Hv. lia.
Qed.

Ltac flat_preset Hv Hz Hm Hflat :=
  match goal with
  | |- exists k out, ?preset = Ok k /\ _ =>
      let k := eval vm_compute in preset in
      match k with
      | Ok ?kv =>
          exists kv;
          assert (Hk : valid_kernel kv)
            by (by vm_compute);
          let Hu := fresh "Hu" in
          let out := fresh "out" in
          let Eo := fresh "Eo" in
          let Hpx := fresh "Hpx" in
          destruct (flat_raster_convolution _ kv _ _ Hv Hk Hz
                      ltac:(intros Hmir; destruct (Hm Hmir);
                             cbn [Kernel.width]; split; lia_div) Hflat)
            as (Hu & out & Eo & Hpx);
          exists out; split; [by vm_compute|]; split; [exact Eo|]
      end
  end.



(** X22. The two predefined kernels that do not keep a flat raster.  On
    a raster whose pixels all hold [v], padded with REPLICATE or MIRROR:
    the edge detection kernel, whose weights sum to zero, returns 0 at
    every pixel; the box blur, whose weight is the [float] nearest to 1/9,
    accumulates nine products in [float] and truncates the sum, so that it
    returns [v] or [v - 1] everywhere, 254 for white (255) and 0 for
    black. *)
Theorem edge_and_box_presets_on_flat_rasters (im : Image.t) (pt : PaddingType)
    (v : Z) :
  valid_image im -> pt <> ZERO ->
  (pt = MIRROR -> 1 < Image.width im /\ 1 < Image.height im) ->
  (forall x y ch,
     in_raster (Image.width im) (Image.height im) (Image.channels im) x y ch ->
     Image.get im x y ch = Ok v) ->
  (exists k out,
     Kernel.edge_detection_kernel = Ok k
     /\ Sequential.convolve im k pt = Ok out
     /\ forall x y ch,
          in_raster (Image.width im) (Image.height im) (Image.channels im) x y ch ->
          Image.get out x y ch = Ok 0)
  /\ exists k out r,
       Kernel.box_blur_kernel = Ok k
       /\ Sequential.convolve im k pt = Ok out
       /\ (forall x y ch,
             in_raster (Image.width im) (Image.height im) (Image.channels im) x y ch ->
             Image.get out x y ch = Ok r)
       /\ (r = v \/ r = v - 1)
       /\ (v = 255 -> r = 254)
       /\ (v = 0 -> r = 0).
Proof.
  intros Hv Hz Hm Hflat. split.
  - flat_preset Hv Hz Hm Hflat.
    intros x y ch Hin; rewrite Hpx by done; f_equal.
    match goal with
    | |- stored (flat_sum ?k _) = 0 =>
        apply Z.eqb_eq;
        apply (all_bytes (fun v => stored (flat_sum k v) =? 0)); [by vm_compute|done]
    end.
  - set (kv := Kernel.make 3 3
                 (replicate 9 (F64.to_float (F64.div (F64.of_int 1) (F64.of_int 9))))).
    assert (Hk : valid_kernel kv) by (by vm_compute).
    destruct (flat_raster_convolution im kv pt v Hv Hk Hz) as (Hu & out & Eo & Hpx);
      [|done|].
    { intros Hmir. destruct (Hm Hmir). cbn [Kernel.width kv]. split; lia_div. }
    exists kv, out, (stored (flat_sum kv v)).
    split; [by vm_compute|]. split; [done|]. split; [done|].
    split; [|split].
    + pose proof (all_bytes (fun v => (stored (flat_sum kv v) =? v)
                                       || (stored (flat_sum kv v) =? v - 1))
                    ltac:(by vm_compute) v Hu) as E.
      cbn beta in E. apply orb_true_iff in E. lia.
    + intros ->. by vm_compute.
    + intros ->. by vm_compute.
Qed.

Lemma edge_and_box_presets_on_flat_rasters_witness :
  let im := Image.make 3 3 1 (replicate 9 255) false in
  (exists k out,
     Kernel.edge_detection_kernel = Ok k
     /\ Sequential.convolve im k REPLICATE = Ok out
     /\ forall x y ch,
          in_raster (Image.width im) (Image.height im) (Image.channels im) x y ch ->
          Image.get out x y ch = Ok 0)
  /\ exists k out r,
       Kernel.box_blur_kernel = Ok k
       /\ Sequential.convolve im k REPLICATE = Ok out
       /\ (forall x y ch,
             in_raster (Image.width im) (Image.height im) (Image.channels im) x y ch ->
             Image.get out x y ch = Ok r)
       /\ (r = 255 \/ r = 255 - 1)
       /\ (255 = 255 -> r = 254)
       /\ (255 = 0 -> r = 0).
Proof.
  apply (edge_and_box_presets_on_flat_rasters (Image.make 3 3 1 (replicate 9 255) false)
           REPLICATE 255).
  - unfold valid_image, Image.get_size. cbn.
    repeat split; try lia. repeat constructor; unfold is_uint8; lia.
  - discriminate.
  - intros [=].
  - intros x y ch (Hx & Hy & Hch). cbn in Hx, Hy, Hch.
    assert (Ex : x = 0 \/ x = 1 \/ x = 2) by lia.
    assert (Ey : y = 0 \/ y = 1 \/ y = 2) by lia.
    assert (Ech : ch = 0) by lia.
    destruct Ex as [->|[->| ->]], Ey as [->|[->| ->]]; subst ch; reflexivity.
Defined.

(** The fused sum of a window whose pixels all hold [v]. *)
Lemma fused_sum_flat (p : Image.t) (k : Kernel.t) (x y ch v : Z) :
  (forall kx ky, 0 <= kx < Kernel.width k -> 0 <= ky < Kernel.height k ->
     pixel p (x + kx) (y + ky) ch = v) ->
  fused_sum p k x y ch = fused_flat_sum k v.
Proof.
  intros H. unfold fused_sum, fused_flat_sum.
  apply fold_left_ext_elem. intros acc ky Hky. apply elem_of_seqZ in Hky.
  apply fold_left_ext_elem. intros acc' kx Hkx. apply elem_of_seqZ in Hkx.
  rewrite H by lia. done.
Qed.

(** A flat raster under any kernel, on the device: every output pixel of
    the global-memory strategy is the stored value of the fused flat
    sum. *)
Lemma flat_raster_device_convolution (uninit : nat -> Z) (im : Image.t)
    (k : Kernel.t) (pt : PaddingType) (v : Z) :
  valid_image im -> valid_kernel k -> pt <> ZERO ->
  (pt = MIRROR -> Kernel.width k / 2 < Image.width im
                  /\ Kernel.width k / 2 < Image.height im) ->
  (forall x y ch,
     in_raster (Image.width im) (Image.height im) (Image.channels im) x y ch ->
     Image.get im x y ch = Ok v) ->
  exists out,
    Parallel.convolve_global uninit im k pt = Ok out
    /\ forall x y ch,
         in_raster (Image.width im) (Image.height im) (Image.channels im) x y ch ->
         Image.get out x y ch = Ok (stored (fused_flat_sum k v)).
Proof.
  intros Hv Hk Hz Hm Hflat.
  destruct (global_and_constant_ok uninit im k pt Hv Hk Hm)
    as (p & out & Ep & Eo & _ & _ & _ & _ & _ & _ & Hpx).
  exists out. split; [done|].
  intros x y ch Hin. rewrite Hpx by done. do 2 f_equal.
  pose proof Hk as (Hkw & Hkh & Hko & Hkl).
  pose proof (odd_half _ Hko) as Hhalf.
  assert (Hp0 : 0 <= Kernel.width k / 2) by (apply Z.div_pos; lia).
  destruct (padding_ok im (Kernel.width k / 2) (Kernel.height k / 2) pt Hv)
    as (q & Eq & Eqw & Eqh & Eqc & _ & _ & Hq);
    [done|by rewrite Hkh|by rewrite Hkh|].
  rewrite Ep in Eq. injection Eq as <-.
  destruct Hin as (Hx & Hy & Hch).
  destruct Hv as (HW & HH & HC & _).
  apply fused_sum_flat. intros kx ky Hkx Hky.
  assert (Hin : in_raster (Image.width p) (Image.height p) (Image.channels p)
                  (x + kx) (y + ky) ch)
    by (unfold in_raster; rewrite Hkh in *; lia).
  rewrite (pixel_get p _ _ _ _ (Hq _ _ _ Hin)).
  apply pad_value_flat; try done.
  - by rewrite Hkh.
  - lia.
  - rewrite Hkh in *. lia.
  - intros x0 y0 Hx0 Hy0. apply pixel_get, Hflat. unfold in_raster. lia.
Qed.

(** X18. The CUDA kernels do not always store the byte of the baseline.
    A kernel accumulates with fused multiply-adds, the baseline rounds
    every product and every sum.  On a raster whose pixels all hold [v],
    padded with REPLICATE or MIRROR, under the preset box blur: for [v]
    one of 49, 89, 98, 107, 169, 178, 187, 196, 205, 214 and 223 the
    baseline returns [v] at every pixel and the global-memory strategy
    [v - 1]; for every other [v] the two return the same byte. *)
Theorem fused_box_blur_differs_from_baseline (uninit : nat -> Z) (im : Image.t)
    (pt : PaddingType) (v : Z) :
  valid_image im -> pt <> ZERO ->
  (pt = MIRROR -> 1 < Image.width im /\ 1 < Image.height im) ->
  (forall x y ch,
     in_raster (Image.width im) (Image.height im) (Image.channels im) x y ch ->
     Image.get im x y ch = Ok v) ->
  exists k host device r r',
    Kernel.box_blur_kernel = Ok k
    /\ Sequential.convolve im k pt = Ok host
    /\ Parallel.convolve_global uninit im k pt = Ok device
    /\ (forall x y ch,
          in_raster (Image.width im) (Image.height im) (Image.channels im) x y ch ->
          Image.get host x y ch = Ok r /\ Image.get device x y ch = Ok r')
    /\ (v ∈ [49; 89; 98; 107; 169; 178; 187; 196; 205; 214; 223] ->
        r = v /\ r' = v - 1)
    /\ (v ∉ [49; 89; 98; 107; 169; 178; 187; 196; 205; 214; 223] -> r' = r).
Proof.
  intros Hv Hz Hm Hflat.
  set (kv := Kernel.make 3 3
               (replicate 9 (F64.to_float (F64.div (F64.of_int 1) (F64.of_int 9))))).
  assert (Hk : valid_kernel kv) by (by vm_compute).
  assert (Hm' : pt = MIRROR -> Kernel.width kv / 2 < Image.width im
                               /\ Kernel.width kv / 2 < Image.height im).
  { intros Hmir. destruct (Hm Hmir). cbn [Kernel.width kv]. split; lia_div. }
  destruct (flat_raster_convolution im kv pt v Hv Hk Hz Hm' Hflat)
    as (Hu & host & Eh & Hh).
  destruct (flat_raster_device_convolution uninit im kv pt v Hv Hk Hz Hm' Hflat)
    as (device & Ed & Hd).
  exists kv, host, device, (stored (flat_sum kv v)), (stored (fused_flat_sum kv v)).
  split; [by vm_compute|]. split; [done|]. split; [done|].
  split; [intros x y ch Hin; split; [by apply Hh|by apply Hd]|].
  set (special := [49; 89; 98; 107; 169; 178; 187; 196; 205; 214; 223]).
  pose proof (all_bytes
    (fun v => if bool_decide (v ∈ special)
              then (stored (flat_sum kv v) =? v)
                   && (stored (fused_flat_sum kv v) =? v - 1)
              else stored (fused_flat_sum kv v) =? stored (flat_sum kv v))
    ltac:(by vm_compute) v Hu) as E.
  cbn beta in E. split.
  - intros Hin. rewrite bool_decide_eq_true_2 in E by done.
    apply andb_true_iff in E. lia.
  - intros Hout. rewrite bool_decide_eq_false_2 in E by done. lia.
Qed.

Lemma fused_box_blur_differs_from_baseline_witness :
  let im := Image.make 3 3 1 (replicate 9 49) false in
  exists k host device r r',
    Kernel.box_blur_kernel = Ok k
    /\ Sequential.convolve im k REPLICATE = Ok host
    /\ Parallel.convolve_global (fun _ => 0) im k REPLICATE = Ok device
    /\ (forall x y ch,
          in_raster (Image.width im) (Image.height im) (Image.channels im) x y ch ->
          Image.get host x y ch = Ok r /\ Image.get device x y ch = Ok r')
    /\ (49 ∈ [49; 89; 98; 107; 169; 178; 187; 196; 205; 214; 223] ->
        r = 49 /\ r' = 49 - 1)
    /\ (49 ∉ [49; 89; 98; 107; 169; 178; 187; 196; 205; 214; 223] -> r' = r).
Proof.
  apply (fused_box_blur_differs_from_baseline (fun _ => 0)
           (Image.make 3 3 1 (replicate 9 49) false) REPLICATE 49).
  - unfold valid_image, Image.get_size. cbn.
    repeat split; try lia. repeat constructor; unfold is_uint8; lia.
  - discriminate.
  - intros [=].
  - intros x y ch (Hx & Hy & Hch). cbn in Hx, Hy, Hch.
    assert (Ex : x = 0 \/ x = 1 \/ x = 2) by lia.
    assert (Ey : y = 0 \/ y = 1 \/ y = 2) by lia.
    assert (Ech : ch = 0) by lia.
    destruct Ex as [->|[->| ->]], Ey as [->|[->| ->]]; subst ch; reflexivity.
Defined.

(* ===================================================================== *)
(** * The timed revision of the baseline                                  *)
(* ===================================================================== *)

(** X23. The timed revision returns what the baseline returns: the
    padding it recovers from the padded raster is the padding that was
    applied, every one of its [ITERATIONS] rounds computes the raster of
    the baseline, and assigning it to the output image leaves exactly
    that raster. *)
Theorem timed_revision_matches_baseline (im : Image.t) (k : Kernel.t)
    (pt : PaddingType) :
  valid_image im -> valid_kernel k ->
  (pt = MIRROR -> Kernel.width k / 2 < Image.width im
                  /\ Kernel.width k / 2 < Image.height im) ->
  exists padded out,
    Image.padding im (Kernel.width k / 2) (Kernel.height k / 2) pt = Ok padded
    /\ SequentialTimed.convolution im k padded = Ok out
    /\ SequentialTimed.convolve im k pt = Ok out
    /\ Sequential.convolve im k pt = Ok out.
Proof.
  intros Hv Hk Hm.
  destruct (convolve_ok im k pt Hv Hk Hm)
    as (p & out & Ep & Eo & Ew & Eh & Ec & Es & El & _).
  pose proof Hk as (Hkw & Hkh & Hko & Hkl).
  assert (Hp0 : 0 <= Kernel.width k / 2) by (apply Z.div_pos; lia).
  destruct (padding_ok im (Kernel.width k / 2) (Kernel.height k / 2) pt Hv)
    as (q & Eq & Eqw & Eqh & _); [done|by rewrite Hkh|by rewrite Hkh|].
  rewrite Ep in Eq. injection Eq as <-.
  assert (Hq : Z.quot (Kernel.width k) 2 = Kernel.width k / 2)
    by (apply Z.quot_div_nonneg; lia).
  assert (Econv : SequentialTimed.convolution im k p = Ok out).
  { rewrite <- Eo. unfold SequentialTimed.convolution, Sequential.convolve.
    rewrite Hkh in *. rewrite Hq, Ep. cbn [bind].
    rewrite Eqw, Eqh.
    replace (Image.width im + 2 * (Kernel.width k / 2) - Image.width im)
      with ((Kernel.width k / 2) * 2) by lia.
    replace (Image.height im + 2 * (Kernel.width k / 2) - Image.height im)
      with ((Kernel.width k / 2) * 2) by lia.
    by rewrite Z.quot_mul by lia. }
  exists p, out. split; [done|]. split; [done|]. split; [|done].
  unfold SequentialTimed.convolve, floor_half. rewrite Ep. cbn [bind].
  destruct Hv as (HW & HH & HC & Hlen & _).
  assert (Hsz : 0 <= Image.width im * Image.height im * Image.channels im) by nia.
  destruct (for_range_ok
    (fun i (s : Image.t) =>
       Image.width s = Image.width im /\ Image.height s = Image.height im
       /\ Image.channels s = Image.channels im /\ Image.is_SoA s = Image.is_SoA im
       /\ Z.of_nat (length (Image.data s)) = Image.get_size s
       /\ (0 < i -> s = out))
    0 Parallel.ITERATIONS
    (fun _ output_image =>
       do result <- SequentialTimed.convolution im k p;
       Image.assign output_image result false)
    (Image.create (Image.width im) (Image.height im) (Image.channels im)
       (Image.is_SoA im)))
    as (s & E & _ & _ & _ & _ & _ & Hs).
  - done.
  - unfold Image.get_size. cbn. rewrite length_replicate.
    repeat split; try done; lia.
  - intros i s Hi (Hsw & Hsh & Hsc & Hss & Hsl & _).
    rewrite Econv. cbn [bind].
    assert (Esz : Image.get_size s = Image.get_size out)
      by (unfold Image.get_size; by rewrite Hsw, Hsh, Hsc, Ew, Eh, Ec).
    rewrite assign_ok by (rewrite ?Esz; unfold Image.get_size in *; lia).
    eexists. split; [done|]. cbn. repeat (split; [done|]).
    split.
    + rewrite length_take. unfold Image.get_size in *. cbn. lia.
    + intros _. rewrite take_ge by (unfold Image.get_size in *; lia).
      unfold Image.with_data. rewrite Hsw, Hsh, Hsc, Hss, <- Ew, <- Eh, <- Ec, <- Es.
      by destruct out.
  - rewrite E. f_equal. apply Hs. done.
Qed.

Lemma timed_revision_matches_baseline_witness :
  exists padded out,
    Image.padding raster_4x4 (Kernel.width kernel_three_quarters / 2)
      (Kernel.height kernel_three_quarters / 2) REPLICATE = Ok padded
    /\ SequentialTimed.convolution raster_4x4 kernel_three_quarters padded = Ok out
    /\ SequentialTimed.convolve raster_4x4 kernel_three_quarters REPLICATE = Ok out
    /\ Sequential.convolve raster_4x4 kernel_three_quarters REPLICATE = Ok out.
Proof.
  apply (timed_revision_matches_baseline raster_4x4 kernel_three_quarters REPLICATE).
  - apply raster_4x4_valid.
  - unfold valid_kernel, Kernel.get_size. cbn. repeat split; lia.
  - intros [=].
Defined.

(* ===================================================================== *)
(** * The tile-cached strategy on kernels up to 7x7                       *)
(* ===================================================================== *)

Lemma writes_seq {A : Type} (W1 W2 : nat -> Prop) (V : nat -> A -> Prop)
    (s s' s'' : list A) :
  writes W1 V s s' -> writes W2 V s' s'' ->
  writes (fun c => W1 c \/ W2 c) V s s''.
Proof.
  intros [Hl1 H1] [Hl2 H2]. split; [congruence|]. intros c.
  destruct (H2 c) as [[Hw Hv]|[Hw Hv]].
  - left. split; [by right|done].
  - destruct (H1 c) as [[Hw' Hv']|[Hw' Hv']].
    + left. split; [by left|]. by rewrite Hv.
    + right. split; [tauto|congruence].
Qed.

(** Repeating a launch that stores every cell leaves every cell stored. *)
Lemma iterate_ok {St : Type} (Q R : St -> Prop) (launch : St -> result St)
    (n : Z) (s : St) :
  0 < n ->
  (forall t, Q t -> exists t', launch t = Ok t' /\ Q t' /\ R t') ->
  Q s ->
  exists s', for_range 0 n (fun _ => launch) s = Ok s' /\ Q s' /\ R s'.
Proof.
  intros Hn Hl Hs.
  destruct (for_range_ok (fun i t => Q t /\ (0 < i -> R t)) 0 n (fun _ => launch) s)
    as (s' & E & Hq & Hr); [lia|split; [done|lia]| |].
  - intros i t Hi [Ht _]. destruct (Hl t Ht) as (t' & Et & Hq & Hr).
    exists t'. by repeat split.
  - exists s'. split; [done|]. split; [done|]. by apply Hr.
Qed.

Lemma slot_coords (n a b : Z) :
  0 <= a < n -> 0 <= b -> Z.rem (b * n + a) n = a /\ Z.quot (b * n + a) n = b.
Proof.
  intros Ha Hb.
  assert (0 <= b * n + a) by nia.
  rewrite Z.rem_mod_nonneg, Z.quot_div_nonneg by lia.
  pose proof (Z.div_mod (b * n + a) n ltac:(lia)) as E.
  pose proof (Z.mod_pos_bound (b * n + a) n ltac:(lia)).
  destruct (quot_rem_unique n ((b * n + a) / n) ((b * n + a) mod n) b a); lia.
Qed.

Section tile.
Variables (padded : Image.t) (k : Kernel.t) (c_kernel : list F32.float).
Variables (W H C : Z) (soa : bool).
Hypothesis HW : 0 < W.
Hypothesis HH : 0 < H.
Hypothesis HC : 0 < C.
Hypothesis Hk : valid_kernel k.
Hypothesis Hpl : Z.of_nat (length (Image.data padded)) = Image.get_size padded.
Hypothesis Hpw : Image.width padded = W + 2 * floor_half (Kernel.width k).
Hypothesis Hph : Image.height padded = H + 2 * floor_half (Kernel.height k).
Hypothesis Hpc : Image.channels padded = C.
Hypothesis Hps : Image.is_SoA padded = soa.
Hypothesis Hdk : forall i v, Kernel.data k !! i = Some v -> c_kernel !! i = Some v.

Local Abbreviation T := Parallel.TILE_WIDTH.
Local Abbreviation kw := (Kernel.width k).
Local Abbreviation kh := (Kernel.height k).
Local Abbreviation sw := (Parallel.TILE_WIDTH + (Kernel.width k - 1)).
Local Abbreviation sh := (Parallel.TILE_WIDTH + (Kernel.height k - 1)).

(** One batch of the staging, at a slot of the tile: the slot receives
    the pixel of the padded raster under it, 0 outside the raster. *)
Lemma stage_slot_ok (bx by_ ch i yp : Z) (guarded : bool) (s : list Z) :
  0 <= bx -> 0 <= by_ -> 0 <= ch < C -> 0 <= i < sw * sh ->
  yp = floor_half kw ->
  Z.of_nat (length s) = sw * sh ->
  Parallel.stage_slot (Parallel.mk_dim3 bx by_) (Parallel.mk_dim3 T T)
    (Image.data padded) W H C kw kh (floor_half kw) (floor_half kh) soa ch
    i yp guarded s
  = Ok (<[Z.to_nat i := tile_value padded T sw bx by_ ch i]> s).
Proof using HW HH HC Hk Hpl Hpw Hph Hpc Hps.
  intros Hbx Hby Hch Hi -> Hlen.
  pose proof Hk as (Hkw & Hkh & Hko & Hkl).
  unfold Parallel.stage_slot, tile_value. cbn [Parallel.x Parallel.y].
  assert (Hsw : 0 < sw) by (change T with 16; lia).
  destruct (Z.eqb_spec sw 0) as [?|_]; [lia|].
  assert (Hrem : 0 <= Z.rem i sw < sw) by (rewrite Z.rem_mod_nonneg by lia; lia_div).
  assert (Hquot : 0 <= Z.quot i sw < sh).
  { rewrite Z.quot_div_nonneg by lia. split; [apply Z.div_pos; lia|].
    apply Z.div_lt_upper_bound; lia. }
  destruct (Z.ltb_spec (Z.quot i sw) sh) as [_|?]; [|lia].
  rewrite orb_true_r.
  rewrite Hkh in *.
  replace (bx * T + Z.rem i sw - floor_half kw + floor_half kw)
    with (bx * T + Z.rem i sw) by lia.
  replace (by_ * T + Z.quot i sw - floor_half kw + floor_half kw)
    with (by_ * T + Z.quot i sw) by lia.
  rewrite <- Hpw, <- Hph.
  destruct ((0 <=? bx * T + Z.rem i sw) && (bx * T + Z.rem i sw <? Image.width padded)
            && (0 <=? by_ * T + Z.quot i sw)
            && (by_ * T + Z.quot i sw <? Image.height padded)) eqn:Ein.
  - apply andb_prop in Ein as [Ein Ey2]. apply andb_prop in Ein as [Ein Ey1].
    apply andb_prop in Ein as [Ex1 Ex2].
    assert (Hin : in_raster (Image.width padded) (Image.height padded)
                    (Image.channels padded)
                    (bx * T + Z.rem i sw) (by_ * T + Z.quot i sw) ch)
      by (unfold in_raster; lia).
    destruct (get_ok padded _ _ _ Hpl Hin) as (v & Ev & El).
    unfold Parallel.get_pixel_value. rewrite <- Hpc, <- Hps.
    change (if Image.is_SoA padded then _ else _)
      with (offset (Image.is_SoA padded) (Image.width padded) (Image.height padded)
              (Image.channels padded) (bx * T + Z.rem i sw) (by_ * T + Z.quot i sw) ch).
    pose proof (offset_bounds (Image.is_SoA padded) _ _ _ _ _ _ Hin).
    rewrite (raw_load_ok _ _ v) by (done || lia). cbn [bind].
    rewrite (pixel_get _ _ _ _ _ Ev). apply raw_store_ok. lia.
  - apply raw_store_ok. lia.
Qed.

(** The guarded batch past the end of the tile writes nothing. *)
Lemma stage_slot_skip (bx by_ ch i yp : Z) (s : list Z) :
  sw * sh <= i ->
  Parallel.stage_slot (Parallel.mk_dim3 bx by_) (Parallel.mk_dim3 T T)
    (Image.data padded) W H C kw kh (floor_half kw) (floor_half kh) soa ch
    i yp true s
  = Ok s.
Proof using HW HH HC Hk Hpl Hpw Hph Hpc Hps.
  intros Hi. pose proof Hk as (Hkw & Hkh & Hko & Hkl).
  unfold Parallel.stage_slot. cbn [Parallel.x Parallel.y].
  assert (Hsw : 0 < sw) by (change T with 16; lia).
  assert (Hsh : 0 < sh) by (change T with 16; lia).
  destruct (Z.eqb_spec sw 0) as [?|_]; [lia|].
  assert (Hquot : sh <= Z.quot i sw).
  { rewrite Z.quot_div_nonneg by nia. apply Z.div_le_lower_bound; lia. }
  by destruct (Z.ltb_spec (Z.quot i sw) sh) as [?|_]; [lia|].
Qed.

(** The two inner loops of [convolution_kernel_shared] read the window
    from the staged tile: they return for every thread of the block, and
    for a thread whose pixel lies in the raster they accumulate the
    weighted sum of its window with fused multiply-adds. *)
Lemma shared_window_loops (bx by_ ch tx ty : Z) (s_data : list Z) :
  0 <= bx -> 0 <= by_ -> 0 <= tx < T -> 0 <= ty < T ->
  (forall i, 0 <= i < sw * sh ->
     s_data !! Z.to_nat i = Some (tile_value padded T sw bx by_ ch i)) ->
  exists v,
    for_range 0 kh (fun ky =>
      for_range 0 kw (fun kx output_value =>
        do p <- Parallel.get_shared_pixel_value s_data (tx + kx) (ty + ky) sw sh;
        do w <- Parallel.get_kernel_value c_kernel kx ky kw kh;
        Ok (F32.fma (F32.of_int p) w output_value)))
      F32.zero
    = Ok v
    /\ (bx * T + tx < W -> by_ * T + ty < H ->
        v = fused_sum padded k (bx * T + tx) (by_ * T + ty) ch).
Proof using All.
  intros Hbx Hby Htx Hty Htile.
  pose proof Hk as (Hkw & Hkh & Hko & Hkl).
  pose proof (odd_half _ Hko) as Hhalf.
  rewrite (for_range_fold (fun acc ky =>
    fold_left (fun acc kx =>
      F32.fma (F32.of_int (tile_value padded T sw bx by_ ch
                             ((ty + ky) * sw + (tx + kx))))
        (weight k kx ky) acc)
      (seqZ 0 kw) acc)).
  - eexists. split; [done|]. intros Hx Hy.
    unfold fused_sum. rewrite !Z.sub_0_r.
    apply fold_left_ext_elem. intros acc ky Hky. apply elem_of_seqZ in Hky.
    apply fold_left_ext_elem. intros acc' kx Hkx. apply elem_of_seqZ in Hkx.
    do 3 f_equal. unfold tile_value.
    destruct (slot_coords sw (tx + kx) (ty + ky)) as [-> ->]; [lia|lia|].
    rewrite Hpw, Hph, Hkh. unfold floor_half.
    destruct (Z.leb_spec 0 (bx * T + (tx + kx))); [|change T with 16 in *; lia].
    destruct (Z.ltb_spec (bx * T + (tx + kx)) (W + 2 * (kw / 2))); [|lia].
    destruct (Z.leb_spec 0 (by_ * T + (ty + ky))); [|change T with 16 in *; lia].
    destruct (Z.ltb_spec (by_ * T + (ty + ky)) (H + 2 * (kw / 2))); [|lia].
    cbn [andb]. f_equal; lia.
  - intros ky t Hky.
    rewrite (for_range_fold (fun acc kx =>
      F32.fma (F32.of_int (tile_value padded T sw bx by_ ch
                             ((ty + ky) * sw + (tx + kx))))
        (weight k kx ky) acc)).
    + by rewrite Z.sub_0_r.
    + intros kx t' Hkx. cbv zeta.
      unfold Parallel.get_shared_pixel_value.
      pose proof (row_major_bounds sw sh (tx + kx) (ty + ky)
                    ltac:(lia) ltac:(lia)) as Hb.
      rewrite (raw_load_ok s_data _ (tile_value padded T sw bx by_ ch
                                       ((ty + ky) * sw + (tx + kx))));
        [|lia|apply Htile; lia].
      cbn [bind].
      pose proof (kernel_get_ok k kx ky Hk Hkx Hky) as Eg.
      unfold Kernel.get in Eg.
      destruct (Z.ltb_spec kx 0); [lia|].
      destruct (Z.geb_spec kx kw); [lia|].
      destruct (Z.ltb_spec ky 0); [lia|].
      destruct (Z.geb_spec ky kh); [lia|]. cbn [orb] in Eg.
      unfold Parallel.get_kernel_value.
      pose proof (row_major_bounds kw kh kx ky Hkx Hky).
      destruct (raw_load_lt (Kernel.data k) (ky * kw + kx))
        as (w & Ew & Elw); [unfold Kernel.get_size in Hkl; lia|].
      rewrite Ew in Eg. injection Eg as Ewt. rewrite <- Ewt.
      rewrite (raw_load_ok c_kernel (ky * kw + kx) w);
        [done|lia|by apply Hdk].
Qed.

(** One thread between the barriers: it stores its pixel of the channel
    when the pixel lies in the raster, and nothing otherwise. *)
Lemma shared_compute_writes (bx by_ ch tx ty : Z) (s_data d : list Z) :
  0 <= bx -> 0 <= by_ -> 0 <= ch < C -> 0 <= tx < T -> 0 <= ty < T ->
  (forall i, 0 <= i < sw * sh ->
     s_data !! Z.to_nat i = Some (tile_value padded T sw bx by_ ch i)) ->
  Z.of_nat (length d) = W * H * C ->
  exists d',
    Parallel.shared_compute c_kernel (Parallel.mk_dim3 bx by_) (Parallel.mk_dim3 T T)
      (Parallel.mk_dim3 tx ty) s_data W H C kw kh soa ch d = Ok d'
    /\ writes (fun c => (bx * T + tx < W /\ by_ * T + ty < H)
                        /\ c = Z.to_nat (offset soa W H C (bx * T + tx) (by_ * T + ty) ch))
              (convolved padded k W H C soa) d d'.
Proof using All.
  intros Hbx Hby Hch Htx Hty Htile Hlen.
  unfold Parallel.shared_compute. cbn [Parallel.x Parallel.y]. cbv zeta.
  destruct (shared_window_loops bx by_ ch tx ty s_data) as (v & -> & Hv); try done.
  cbn [bind].
  destruct (Z.ltb_spec (bx * T + tx) W) as [Hx|Hx]; cycle 1.
  { exists d. split; [done|]. apply (writes_weaken (fun _ => False));
      [|apply writes_refl]. intros c. split; [done|]. intros [[? _] _]. lia. }
  destruct (Z.ltb_spec (by_ * T + ty) H) as [Hy|Hy]; cycle 1.
  { exists d. split; [done|]. apply (writes_weaken (fun _ => False));
      [|apply writes_refl]. intros c. split; [done|]. intros [[_ ?] _]. lia. }
  cbn [andb]. rewrite Hv by done.
  assert (Hin : in_raster W H C (bx * T + tx) (by_ * T + ty) ch)
    by (unfold in_raster; change T with 16 in *; lia).
  unfold Parallel.set_pixel_value.
  change (if soa then _ else _)
    with (offset soa W H C (bx * T + tx) (by_ * T + ty) ch).
  pose proof (offset_bounds soa W H C _ _ _ Hin).
  rewrite raw_store_ok by lia. eexists. split; [done|].
  split; [by rewrite length_insert|]. intros c.
  destruct (decide (c = Z.to_nat (offset soa W H C (bx * T + tx) (by_ * T + ty) ch)))
    as [->|Hne].
  - left. split; [done|]. eexists. split.
    + exists (bx * T + tx), (by_ * T + ty), ch. split; [done|]. split; [done|].
      fold (cuda_stored (fused_sum padded k (bx * T + tx) (by_ * T + ty) ch)).
      apply cuda_stored_eq.
    + apply list_lookup_insert_eq. lia.
  - right. split; [tauto|]. by apply list_lookup_insert_ne.
Qed.

(** One block of a tile-cached kernel, given that its staging fills the
    tile: it stores every pixel of the block that lies in the raster,
    whatever the shared memory held. *)
Lemma tile_block_writes (staging : Z -> list Z -> result (list Z))
    (uninit : nat -> Z) (bx by_ : Z) (d : list Z) :
  0 <= bx -> 0 <= by_ ->
  (forall ch s, 0 <= ch < C -> Z.of_nat (length s) = sw * sh ->
     exists s', staging ch s = Ok s'
       /\ Z.of_nat (length s') = sw * sh
       /\ forall i, 0 <= i < sw * sh ->
            s' !! Z.to_nat i = Some (tile_value padded T sw bx by_ ch i)) ->
  Z.of_nat (length d) = W * H * C ->
  exists d',
    (do st <-
       for_range 0 C (fun channel (st : list Z * list Z) =>
         do s_data <- staging channel (fst st);
         do d_output <-
           Parallel.for_threads (Parallel.mk_dim3 T T) (fun threadIdx =>
             Parallel.shared_compute c_kernel (Parallel.mk_dim3 bx by_)
               (Parallel.mk_dim3 T T) threadIdx s_data W H C kw kh soa channel)
             (snd st);
         Ok (s_data, d_output))
         (Parallel.alloc uninit (sw * sh), d);
     Ok (snd st)) = Ok d'
    /\ writes (block_cells soa W H C bx by_ C) (convolved padded k W H C soa) d d'.
Proof using All.
  intros Hbx Hby Hstaging Hlen.
  assert (Hts : 0 <= sw * sh).
  { destruct Hk as (? & Hkh & _). rewrite Hkh. change T with 16. nia. }
  destruct (for_range_ok
    (fun i (st : list Z * list Z) =>
       Z.of_nat (length (fst st)) = sw * sh
       /\ writes (block_cells soa W H C bx by_ i) (convolved padded k W H C soa) d (snd st))
    0 C
    (fun channel (st : list Z * list Z) =>
       do s_data <- staging channel (fst st);
       do d_output <-
         Parallel.for_threads (Parallel.mk_dim3 T T) (fun threadIdx =>
           Parallel.shared_compute c_kernel (Parallel.mk_dim3 bx by_)
             (Parallel.mk_dim3 T T) threadIdx s_data W H C kw kh soa channel)
           (snd st);
       Ok (s_data, d_output))
    (Parallel.alloc uninit (sw * sh), d)) as (st & E & _ & Hwr).
  - lia.
  - cbn [fst snd]. split; [apply length_alloc; lia|].
    apply (writes_weaken (fun _ => False)); [|apply writes_refl].
    intros c. split; [done|]. intros (ch & ? & _). lia.
  - intros ch [s0 d0] Hch [Hs0 Hd0]. cbn [fst snd] in *.
    destruct (Hstaging ch s0) as (s1 & -> & Hl1 & Htile); try done.
    cbn [bind].
    assert (Hld0 : Z.of_nat (length d0) = W * H * C) by (destruct Hd0 as [-> _]; done).
    assert (Hrun : exists d1,
      Parallel.for_threads (Parallel.mk_dim3 T T) (fun threadIdx =>
        Parallel.shared_compute c_kernel (Parallel.mk_dim3 bx by_)
          (Parallel.mk_dim3 T T) threadIdx s1 W H C kw kh soa ch) d0 = Ok d1
      /\ writes (fun c => exists ty, 0 <= ty < T /\ exists tx, 0 <= tx < T
                   /\ (bx * T + tx < W /\ by_ * T + ty < H)
                   /\ c = Z.to_nat (offset soa W H C (bx * T + tx) (by_ * T + ty) ch))
                (convolved padded k W H C soa) d0 d1).
    { unfold Parallel.for_threads. cbn [Parallel.x Parallel.y].
      apply (for_range_writes (convolved padded k W H C soa)
               (fun ty c => exists tx, 0 <= tx < T
                  /\ (bx * T + tx < W /\ by_ * T + ty < H)
                  /\ c = Z.to_nat (offset soa W H C (bx * T + tx) (by_ * T + ty) ch)));
        [done|].
      intros ty t Hty Ht.
      apply (for_range_writes (convolved padded k W H C soa)
               (fun tx c => (bx * T + tx < W /\ by_ * T + ty < H)
                  /\ c = Z.to_nat (offset soa W H C (bx * T + tx) (by_ * T + ty) ch)));
        [done|].
      intros tx u Htx Hu.
      apply shared_compute_writes; try done. rewrite Hu, Ht. done. }
    destruct Hrun as (d1 & -> & Hd1). cbn [bind].
    eexists. split; [done|]. cbn [fst snd]. split; [done|].
    pose proof (writes_seq _ _ _ _ _ _ Hd0 Hd1) as Hd.
    refine (writes_weaken _ _ _ _ _ _ Hd). intros c. unfold block_cells. split.
    + intros [(ch' & Hch' & Hc)|Hc].
      * exists ch'. split; [lia|done].
      * exists ch. split; [lia|done].
    + intros (ch' & Hch' & Hc).
      destruct (decide (ch' = ch)) as [->|Hne]; [by right|].
      left. exists ch'. split; [lia|done].
  - rewrite E. cbn [bind]. by exists (snd st).
Qed.

(** A launch over the grid of blocks that each store their pixels stores
    every pixel of the raster. *)
Lemma tile_launch_ok (block : Parallel.dim3 -> list Z -> result (list Z)) (s : list Z) :
  (forall bx by_ d, 0 <= bx -> 0 <= by_ -> Z.of_nat (length d) = W * H * C ->
     exists d', block (Parallel.mk_dim3 bx by_) d = Ok d'
       /\ writes (block_cells soa W H C bx by_ C) (convolved padded k W H C soa) d d') ->
  Z.of_nat (length s) = W * H * C ->
  exists s',
    Parallel.for_blocks (Parallel.grid_for W H (Parallel.mk_dim3 T T)) block s = Ok s'
    /\ Z.of_nat (length s') = W * H * C
    /\ forall x y ch, in_raster W H C x y ch ->
         s' !! Z.to_nat (offset soa W H C x y ch)
         = Some (stored (fused_sum padded k x y ch)).
Proof using All.
  intros Hblock Hlen.
  set (V := convolved padded k W H C soa).
  unfold Parallel.for_blocks, Parallel.grid_for. cbn [Parallel.x Parallel.y].
  assert (Hgx : 0 <= (W + T - 1) / T) by (apply Z.div_pos; change T with 16; lia).
  assert (Hgy : 0 <= (H + T - 1) / T) by (apply Z.div_pos; change T with 16; lia).
  lazymatch goal with
  | |- exists s', ?prog = Ok s' /\ _ =>
      assert (Hlaunch : exists s', prog = Ok s'
                /\ writes (fun c => exists by_, 0 <= by_ < (H + T - 1) / T
                             /\ exists bx, 0 <= bx < (W + T - 1) / T
                             /\ block_cells soa W H C bx by_ C c) V s s')
  end.
  { apply (for_range_writes V (fun by_ c =>
             exists bx, 0 <= bx < (W + T - 1) / T
               /\ block_cells soa W H C bx by_ C c)); [done|].
    intros by_ t Hby Ht.
    apply (for_range_writes V (fun bx c => block_cells soa W H C bx by_ C c)); [done|].
    intros bx u Hbx Hu.
    apply Hblock; [lia|lia|]. rewrite Hu, Ht. done. }
  destruct Hlaunch as (s' & E & Hl & Hc).
  exists s'. split; [exact E|]. split; [by rewrite Hl|].
  intros x y ch Hin.
  pose proof (offset_bounds soa W H C x y ch Hin) as Hb.
  destruct (Hc (Z.to_nat (offset soa W H C x y ch)))
    as [[_ (v & (x' & y' & ch' & Hin' & Eo & ->) & Ev)]|[Hn _]].
  - pose proof (offset_bounds soa W H C x' y' ch' Hin') as Hb'.
    destruct (offset_inj soa W H C x y ch x' y' ch') as (-> & -> & ->);
      [done|done|lia|done].
  - exfalso. apply Hn. destruct Hin as (Hx & Hy & Hch).
    clear Hc Hn E. unfold block_cells.
    change T with 16 in *.
    exists (y / 16). split; [lia_div|].
    exists (x / 16). split; [lia_div|].
    exists ch. split; [done|].
    exists (y mod 16). split; [lia_div|].
    exists (x mod 16). split; [lia_div|].
    replace (x / 16 * 16 + x mod 16) with x by lia_div.
    replace (y / 16 * 16 + y mod 16) with y by lia_div.
    split; [lia|done].
Qed.
End tile.

Section first_version.
Variables (padded : Image.t) (k : Kernel.t).
Variables (W H C : Z) (soa : bool).
Hypothesis HW : 0 < W.
Hypothesis HH : 0 < H.
Hypothesis HC : 0 < C.
Hypothesis Hk : valid_kernel k.
Hypothesis Hpl : Z.of_nat (length (Image.data padded)) = Image.get_size padded.
Hypothesis Hpw : Image.width padded = W + 2 * floor_half (Kernel.width k).
Hypothesis Hph : Image.height padded = H + 2 * floor_half (Kernel.height k).
Hypothesis Hpc : Image.channels padded = C.
Hypothesis Hps : Image.is_SoA padded = soa.
Hypothesis Hfit : Kernel.width k <= 7.

Local Abbreviation T := Parallel.TILE_WIDTH.
Local Abbreviation kw := (Kernel.width k).
Local Abbreviation kh := (Kernel.height k).
Local Abbreviation sw := (Parallel.TILE_WIDTH + (Kernel.width k - 1)).
Local Abbreviation sh := (Parallel.TILE_WIDTH + (Kernel.height k - 1)).

(** Up to 7x7 the tile has at most two batches of slots. *)
Lemma tile_size : T * T <= sw * sh <= 2 * (T * T).
Proof using All.
  destruct Hk as (Hkw & Hkh & _). rewrite Hkh.
  change T with 16. nia.
Qed.

(** The staging of one thread. *)
Lemma shared_stage_writes (bx by_ ch tx ty : Z) (s : list Z) :
  0 <= bx -> 0 <= by_ -> 0 <= ch < C -> 0 <= tx < T -> 0 <= ty < T ->
  Z.of_nat (length s) = sw * sh ->
  exists s',
    Parallel.shared_stage (Parallel.mk_dim3 bx by_) (Parallel.mk_dim3 T T)
      (Parallel.mk_dim3 tx ty) (Image.data padded) W H C kw kh
      (floor_half kw) (floor_half kh) soa ch s = Ok s'
    /\ writes (fun c => Z.of_nat c = ty * T + tx
                        \/ (Z.of_nat c = ty * T + tx + T * T /\ Z.of_nat c < sw * sh))
              (fun c v => v = tile_value padded T sw bx by_ ch (Z.of_nat c)) s s'.
Proof using All.
  intros Hbx Hby Hch Htx Hty Hlen.
  pose proof tile_size as Hts.
  pose proof Hk as (Hkw & Hkh & Hko & Hkl).
  unfold Parallel.shared_stage. cbn [Parallel.x Parallel.y].
  assert (H1 : 0 <= ty * T + tx < T * T) by (change T with 16 in *; lia).
  rewrite (stage_slot_ok padded k W H C soa) by (done || lia). cbn [bind].
  set (s1 := <[Z.to_nat (ty * T + tx) := _]> s).
  assert (Hl1 : Z.of_nat (length s1) = sw * sh) by (unfold s1; by rewrite length_insert).
  assert (Hw1 : writes (fun c => Z.of_nat c = ty * T + tx)
                  (fun c v => v = tile_value padded T sw bx by_ ch (Z.of_nat c)) s s1).
  { split; [unfold s1; by rewrite length_insert|]. intros c.
    destruct (decide (Z.of_nat c = ty * T + tx)) as [E|E].
    - left. split; [done|]. eexists. split; [done|].
      unfold s1. rewrite <- E, Nat2Z.id. rewrite list_lookup_insert_eq by lia.
      by rewrite E.
    - right. split; [done|]. unfold s1. apply list_lookup_insert_ne. lia. }
  destruct (Z.lt_ge_cases (ty * T + tx + T * T) (sw * sh)) as [Hin|Hout].
  - rewrite (stage_slot_ok padded k W H C soa) by (done || lia || by rewrite Hkh).
    eexists. split; [done|].
    apply (writes_seq _ (fun c => Z.of_nat c = ty * T + tx + T * T /\ Z.of_nat c < sw * sh)
             _ s s1); [done|].
    split; [by rewrite length_insert|]. intros c.
    destruct (decide (Z.of_nat c = ty * T + tx + T * T)) as [E|E].
    + left. split; [lia|]. eexists. split; [done|].
      rewrite <- E, Nat2Z.id. rewrite list_lookup_insert_eq by lia. by rewrite E.
    + right. split; [lia|]. apply list_lookup_insert_ne. lia.
  - rewrite (stage_slot_skip padded k W H C soa) by (done || lia).
    exists s1. split; [done|].
    refine (writes_weaken _ _ _ _ _ _ Hw1). intros c. lia.
Qed.

(** After the staging of the block every slot of the tile holds the pixel
    under it. *)
Lemma staging_ok (bx by_ ch : Z) (s : list Z) :
  0 <= bx -> 0 <= by_ -> 0 <= ch < C ->
  Z.of_nat (length s) = sw * sh ->
  exists s',
    Parallel.for_threads (Parallel.mk_dim3 T T) (fun threadIdx =>
      Parallel.shared_stage (Parallel.mk_dim3 bx by_) (Parallel.mk_dim3 T T) threadIdx
        (Image.data padded) W H C kw kh (floor_half kw) (floor_half kh) soa ch) s
    = Ok s'
    /\ Z.of_nat (length s') = sw * sh
    /\ forall i, 0 <= i < sw * sh ->
         s' !! Z.to_nat i = Some (tile_value padded T sw bx by_ ch i).
Proof using All.
  intros Hbx Hby Hch Hlen.
  pose proof tile_size as Hts.
  set (V := fun (c : nat) (v : Z) => v = tile_value padded T sw bx by_ ch (Z.of_nat c)).
  set (Wt := fun (ty tx : Z) (c : nat) =>
    Z.of_nat c = ty * T + tx
    \/ (Z.of_nat c = ty * T + tx + T * T /\ Z.of_nat c < sw * sh)).
  unfold Parallel.for_threads. cbn [Parallel.x Parallel.y].
  lazymatch goal with
  | |- exists s', ?prog = Ok s' /\ _ =>
      assert (Hrun : exists s', prog = Ok s'
                /\ writes (fun c => exists ty, 0 <= ty < T
                             /\ exists tx, 0 <= tx < T /\ Wt ty tx c) V s s')
  end.
  { apply (for_range_writes V (fun ty c => exists tx, 0 <= tx < T /\ Wt ty tx c));
      [done|].
    intros ty t Hty Ht.
    apply (for_range_writes V (fun tx c => Wt ty tx c)); [done|].
    intros tx u Htx Hu.
    apply shared_stage_writes; try done. rewrite Hu, Ht. done. }
  destruct Hrun as (s' & E & Hl & Hc).
  exists s'. split; [exact E|]. split; [by rewrite Hl|].
  intros i Hi.
  destruct (Hc (Z.to_nat i)) as [[_ (v & -> & Ev)]|[Hn _]].
  - rewrite Ev. by rewrite Z2Nat.id by lia.
  - exfalso. apply Hn. subst Wt. cbv beta. rewrite Z2Nat.id by lia.
    change T with 16 in *.
    destruct (Z.lt_ge_cases i 256).
    + exists (i / 16). split; [lia_div|].
      exists (i mod 16). split; [lia_div|]. left. lia_div.
    + exists ((i - 256) / 16). split; [lia_div|].
      exists ((i - 256) mod 16). split; [lia_div|]. right. split; [lia_div|lia].
Qed.

End first_version.

(** X24. The tile-cached strategy is right for kernels up to 7x7: two
    batches of [TILE_WIDTH * TILE_WIDTH] slots cover the whole tile, every
    thread then reads its window from staged slots only, and
    [convolve_shared] returns the raster that the global-memory strategy
    returns, whatever shared and device memory held before: every pixel
    is the clamped, truncated sum of its window in the padded raster,
    accumulated with fused multiply-adds. *)
Theorem tile_cached_strategy_matches_global_strategy (uninit uninit' : nat -> Z)
    (im : Image.t) (k : Kernel.t) (pt : PaddingType) :
  valid_image im -> valid_kernel k ->
  (pt = MIRROR -> Kernel.width k / 2 < Image.width im
                  /\ Kernel.width k / 2 < Image.height im) ->
  Kernel.width k <= 7 ->
  exists padded out,
    Image.padding im (Kernel.width k / 2) (Kernel.height k / 2) pt = Ok padded
    /\ Parallel.convolve_shared uninit im k pt = Ok out
    /\ Parallel.convolve_global uninit' im k pt = Ok out
    /\ forall x y ch,
         in_raster (Image.width im) (Image.height im) (Image.channels im) x y ch ->
         Image.get out x y ch = Ok (stored (fused_sum padded k x y ch)).
Proof.
  intros Hv Hk Hm Hfit.
  destruct (global_and_constant_ok uninit' im k pt Hv Hk Hm)
    as (padded & out & Ep & Eo & _ & Ew & Eh & Ec & Es & El & Hpx).
  pose proof Hk as (Hkw & Hkh & Hko & Hkl).
  destruct (padding_ok im (Kernel.width k / 2) (Kernel.height k / 2) pt Hv)
    as (p' & Ep' & Epw & Eph & Epc & Eps & Epl & _).
  { apply Z.div_pos; lia. } { apply Z.div_pos; lia. } { by rewrite Hkh. }
  rewrite Ep in Ep'. injection Ep' as <-.
  pose proof Hv as (HW & HH & HC & Hlen & Hu8).
  assert (Hn : 0 <= Image.width im * Image.height im * Image.channels im) by nia.
  assert (Hs : Parallel.convolve_shared uninit im k pt = Ok out).
  { unfold Parallel.convolve_shared. unfold floor_half at 1 2.
    rewrite Ep. cbn [bind].
    rewrite memcpy_all by done. cbn [bind].
    unfold Parallel.copy_to_c_kernel.
    assert (Hcount : Kernel.width k * Kernel.height k
                     <= Parallel.MAX_MASK_WIDTH * Parallel.MAX_MASK_WIDTH).
    { rewrite Hkh. change Parallel.MAX_MASK_WIDTH with 10 in *. nia. }
    destruct (Z.ltb_spec (Parallel.MAX_MASK_WIDTH * Parallel.MAX_MASK_WIDTH)
                (Kernel.width k * Kernel.height k)); [lia|].
    rewrite memcpy_all by done. cbn [bind].
    replace ((Parallel.TILE_WIDTH + Kernel.width k - 1)
             * (Parallel.TILE_WIDTH + Kernel.height k - 1))
      with ((Parallel.TILE_WIDTH + (Kernel.width k - 1))
            * (Parallel.TILE_WIDTH + (Kernel.height k - 1))) by lia.
    set (c_kernel := list_inserts 0 (Kernel.data k)
                       (replicate (Z.to_nat (Parallel.MAX_MASK_WIDTH
                                             * Parallel.MAX_MASK_WIDTH)) F32.zero)).
    assert (Hdk : forall i v, Kernel.data k !! i = Some v -> c_kernel !! i = Some v).
    { intros i v Hi. unfold c_kernel.
      pose proof (lookup_lt_Some _ _ _ Hi) as Hlt.
      rewrite list_lookup_inserts; [by rewrite Nat.sub_0_r|lia|].
      rewrite length_replicate. unfold Kernel.get_size in Hkl. lia. }
    destruct (iterate_ok
      (fun t : list Z => Z.of_nat (length t)
                         = Image.width im * Image.height im * Image.channels im)
      (fun t : list Z => forall x y ch,
         in_raster (Image.width im) (Image.height im) (Image.channels im) x y ch ->
         t !! Z.to_nat (offset (Image.is_SoA im) (Image.width im) (Image.height im)
                          (Image.channels im) x y ch)
         = Some (stored (fused_sum padded k x y ch)))
      (Parallel.for_blocks
         (Parallel.grid_for (Image.width im) (Image.height im)
            (Parallel.mk_dim3 Parallel.TILE_WIDTH Parallel.TILE_WIDTH))
         (fun blockIdx =>
            Parallel.convolution_kernel_shared_block uninit
              ((Parallel.TILE_WIDTH + (Kernel.width k - 1))
               * (Parallel.TILE_WIDTH + (Kernel.height k - 1)))
              c_kernel blockIdx
              (Parallel.mk_dim3 Parallel.TILE_WIDTH Parallel.TILE_WIDTH)
              (Image.data padded)
              (Image.width im) (Image.height im) (Image.channels im)
              (Kernel.width k) (Kernel.height k)
              (floor_half (Kernel.width k)) (floor_half (Kernel.height k))
              (Image.is_SoA im)))
      Parallel.ITERATIONS
      (Parallel.alloc uninit
         (Image.width im * Image.height im * Image.channels im)))
      as (d & Ed & Hld & Hpd).
    { done. }
    { intros t Ht.
      apply (tile_launch_ok padded k c_kernel (Image.width im) (Image.height im)
               (Image.channels im) (Image.is_SoA im) HW HH HC Hk Epl Epw Eph Epc Eps Hdk);
        [|done].
      intros bx by_ d0 Hbx Hby Hd0.
      apply (tile_block_writes padded k c_kernel (Image.width im) (Image.height im)
               (Image.channels im) (Image.is_SoA im) HW HH HC Hk Epl Epw Eph Epc Eps Hdk
               (fun channel =>
                  Parallel.for_threads
                    (Parallel.mk_dim3 Parallel.TILE_WIDTH Parallel.TILE_WIDTH)
                    (fun threadIdx =>
                       Parallel.shared_stage (Parallel.mk_dim3 bx by_)
                         (Parallel.mk_dim3 Parallel.TILE_WIDTH Parallel.TILE_WIDTH)
                         threadIdx (Image.data padded)
                         (Image.width im) (Image.height im) (Image.channels im)
                         (Kernel.width k) (Kernel.height k)
                         (floor_half (Kernel.width k)) (floor_half (Kernel.height k))
                         (Image.is_SoA im) channel))); try done.
      intros ch s0 Hch Hs0.
      by apply (staging_ok padded k (Image.width im) (Image.height im)
                  (Image.channels im) (Image.is_SoA im) HW HH HC Hk Epl Epw Eph Epc Eps
                  Hfit). }
    { by apply length_alloc. }
    rewrite Ed. cbn [bind]. unfold Image.create_from.
    rewrite memcpy_all by done. cbn [bind]. f_equal.
    assert (Hdata : d = Image.data out).
    { unfold Image.get_size in El. rewrite Ew, Eh, Ec in El.
      apply (buffer_ext (Image.width im) (Image.height im) (Image.channels im)
               (Image.is_SoA im)); [lia|lia|lia|done|done|].
      intros x y ch Hin. rewrite Hpd by done. symmetry.
      rewrite <- Ew, <- Eh, <- Ec, <- Es.
      apply get_inv; [unfold Image.get_size; by rewrite Ew, Eh, Ec
                     |by rewrite Ew, Eh, Ec|].
      by apply Hpx. }
    destruct out; cbn in *. by subst. }
  exists padded, out. done.
Qed.

Lemma tile_cached_strategy_matches_global_strategy_witness :
  exists padded out,
    Image.padding raster_4x4 (Kernel.width kernel_three_quarters / 2)
      (Kernel.height kernel_three_quarters / 2) REPLICATE = Ok padded
    /\ Parallel.convolve_shared (fun _ => 7) raster_4x4 kernel_three_quarters REPLICATE
       = Ok out
    /\ Parallel.convolve_global (fun _ => 0) raster_4x4 kernel_three_quarters REPLICATE
       = Ok out
    /\ forall x y ch,
         in_raster (Image.width raster_4x4) (Image.height raster_4x4)
           (Image.channels raster_4x4) x y ch ->
         Image.get out x y ch
         = Ok (stored (fused_sum padded kernel_three_quarters x y ch)).
Proof.
  apply (tile_cached_strategy_matches_global_strategy (fun _ => 7) (fun _ => 0)
           raster_4x4 kernel_three_quarters REPLICATE).
  - apply raster_4x4_valid.
  - unfold valid_kernel, Kernel.get_size. cbn. repeat split; lia.
  - intros [=].
  - cbn. lia.
Defined.

Section revision.
Variables (padded : Image.t) (k : Kernel.t).
Variables (W H C : Z) (soa : bool).
Hypothesis HW : 0 < W.
Hypothesis HH : 0 < H.
Hypothesis HC : 0 < C.
Hypothesis Hk : valid_kernel k.
Hypothesis Hpl : Z.of_nat (length (Image.data padded)) = Image.get_size padded.
Hypothesis Hpw : Image.width padded = W + 2 * floor_half (Kernel.width k).
Hypothesis Hph : Image.height padded = H + 2 * floor_half (Kernel.height k).
Hypothesis Hpc : Image.channels padded = C.
Hypothesis Hps : Image.is_SoA padded = soa.

Local Abbreviation T := Parallel.TILE_WIDTH.
Local Abbreviation kw := (Kernel.width k).
Local Abbreviation kh := (Kernel.height k).
Local Abbreviation sw := (Parallel.TILE_WIDTH + (Kernel.width k - 1)).
Local Abbreviation sh := (Parallel.TILE_WIDTH + (Kernel.height k - 1)).
Local Abbreviation batches := ((sw * sh) / (T * T)).

(** The staging of one thread in the revision: one slot per batch. *)
Lemma revised_stage_writes (bx by_ ch tx ty : Z) (s : list Z) :
  0 <= bx -> 0 <= by_ -> 0 <= ch < C -> 0 <= tx < T -> 0 <= ty < T ->
  Z.of_nat (length s) = sw * sh ->
  exists s',
    ParallelRevised.shared_stage (Parallel.mk_dim3 bx by_) (Parallel.mk_dim3 tx ty)
      (Image.data padded) W H C kw kh (floor_half kw) (floor_half kh) soa ch s = Ok s'
    /\ writes (fun c => exists i, 0 <= i <= batches
                          /\ Z.of_nat c = ty * T + tx + i * (T * T)
                          /\ Z.of_nat c < sw * sh)
              (fun c v => v = tile_value padded T sw bx by_ ch (Z.of_nat c)) s s'.
Proof using All.
  intros Hbx Hby Hch Htx Hty Hlen.
  pose proof Hk as (Hkw & Hkh & Hko & Hkl).
  set (V := fun (c : nat) (v : Z) => v = tile_value padded T sw bx by_ ch (Z.of_nat c)).
  assert (Hsz : 0 <= sw * sh) by (rewrite Hkh; change T with 16; nia).
  assert (Hnb : 0 <= batches) by (apply Z.div_pos; [done|by change T with 16]).
  assert (Hfull : batches * (T * T) <= sw * sh).
  { change T with 16 in *. lia_div. }
  assert (H1 : 0 <= ty * T + tx < T * T) by (change T with 16 in *; lia).
  unfold ParallelRevised.shared_stage. cbv zeta. cbn [Parallel.x Parallel.y].
  assert (Hslot : forall i t yp g, 0 <= i -> ty * T + tx + i * (T * T) < sw * sh ->
            yp = floor_half kw -> Z.of_nat (length t) = sw * sh ->
            exists t',
              Parallel.stage_slot (Parallel.mk_dim3 bx by_) (Parallel.mk_dim3 T T)
                (Image.data padded) W H C kw kh (floor_half kw) (floor_half kh) soa ch
                (ty * T + tx + i * (T * T)) yp g t = Ok t'
              /\ writes (fun c => Z.of_nat c = ty * T + tx + i * (T * T)) V t t').
  { intros i t yp g Hi Hlt Hyp Ht.
    rewrite (stage_slot_ok padded k W H C soa) by (done || nia).
    eexists. split; [done|].
    split; [by rewrite length_insert|]. intros c.
    destruct (decide (Z.of_nat c = ty * T + tx + i * (T * T))) as [E|E].
    - left. split; [done|]. eexists. split; [done|].
      rewrite <- E, Nat2Z.id. rewrite list_lookup_insert_eq; [by rewrite E|].
      apply Nat2Z.inj_lt. rewrite Ht, E. exact Hlt.
    - right. split; [done|]. apply list_lookup_insert_ne.
      change T with 16 in *. lia. }
  destruct (for_range_writes V (fun i c => Z.of_nat c = ty * T + tx + i * (T * T))
              0 batches
              (fun i s_data =>
                 Parallel.stage_slot (Parallel.mk_dim3 bx by_) (Parallel.mk_dim3 T T)
                   (Image.data padded) W H C kw kh (floor_half kw) (floor_half kh)
                   soa ch (ty * T + tx + i * (T * T)) (floor_half kw) false s_data)
              s) as (s1 & -> & Hw1); [done| |].
  { intros i t Hi Ht. apply Hslot; [lia|nia|done|lia]. }
  cbn [bind].
  assert (Hl1 : Z.of_nat (length s1) = sw * sh) by (destruct Hw1 as [-> _]; done).
  destruct (Z.lt_ge_cases (ty * T + tx + batches * (T * T)) (sw * sh)) as [Hin|Hout].
  - destruct (Hslot batches s1 (floor_half kh) true ltac:(lia) Hin
                ltac:(by rewrite Hkh) Hl1) as (s2 & E2 & Hw2).
    exists s2. split; [exact E2|].
    pose proof (writes_seq _ _ _ _ _ _ Hw1 Hw2) as Hw.
    refine (writes_weaken _ _ _ _ _ _ Hw). intros c. split.
    + intros [(i & Hi & Ec)|Ec]; [exists i|exists batches]; (split; [lia|]); split;
        [done|nia|done|lia].
    + intros (i & Hi & Ec & Hc).
      destruct (decide (i = batches)) as [->|Hne]; [by right|].
      left. exists i. split; [lia|done].
  - rewrite (stage_slot_skip padded k W H C soa) by (done || lia).
    exists s1. split; [done|].
    refine (writes_weaken _ _ _ _ _ _ Hw1). intros c. split.
    + intros (i & Hi & Ec). exists i. split; [lia|]. split; [done|nia].
    + intros (i & Hi & Ec & Hc).
      exists i. split; [|done]. nia.
Qed.

(** After the staging of the revision every slot of the tile holds the
    pixel under it, whatever the size of the tile. *)
Lemma revised_staging_ok (bx by_ ch : Z) (s : list Z) :
  0 <= bx -> 0 <= by_ -> 0 <= ch < C ->
  Z.of_nat (length s) = sw * sh ->
  exists s',
    Parallel.for_threads (Parallel.mk_dim3 T T) (fun threadIdx =>
      ParallelRevised.shared_stage (Parallel.mk_dim3 bx by_) threadIdx
        (Image.data padded) W H C kw kh (floor_half kw) (floor_half kh) soa ch) s
    = Ok s'
    /\ Z.of_nat (length s') = sw * sh
    /\ forall i, 0 <= i < sw * sh ->
         s' !! Z.to_nat i = Some (tile_value padded T sw bx by_ ch i).
Proof using All.
  intros Hbx Hby Hch Hlen.
  set (V := fun (c : nat) (v : Z) => v = tile_value padded T sw bx by_ ch (Z.of_nat c)).
  set (Wt := fun (ty tx : Z) (c : nat) =>
    exists i, 0 <= i <= batches
      /\ Z.of_nat c = ty * T + tx + i * (T * T) /\ Z.of_nat c < sw * sh).
  unfold Parallel.for_threads. cbn [Parallel.x Parallel.y].
  lazymatch goal with
  | |- exists s', ?prog = Ok s' /\ _ =>
      assert (Hrun : exists s', prog = Ok s'
                /\ writes (fun c => exists ty, 0 <= ty < T
                             /\ exists tx, 0 <= tx < T /\ Wt ty tx c) V s s')
  end.
  { apply (for_range_writes V (fun ty c => exists tx, 0 <= tx < T /\ Wt ty tx c));
      [done|].
    intros ty t Hty Ht.
    apply (for_range_writes V (fun tx c => Wt ty tx c)); [done|].
    intros tx u Htx Hu.
    apply revised_stage_writes; try done. rewrite Hu, Ht. done. }
  destruct Hrun as (s' & E & Hl & Hc).
  exists s'. split; [exact E|]. split; [by rewrite Hl|].
  intros i Hi.
  destruct (Hc (Z.to_nat i)) as [[_ (v & -> & Ev)]|[Hn _]].
  - rewrite Ev. by rewrite Z2Nat.id by lia.
  - exfalso. apply Hn. subst Wt. cbv beta. rewrite Z2Nat.id by lia.
    change T with 16 in *.
    exists ((i mod 256) / 16). split; [lia_div|].
    exists (i mod 16). split; [lia_div|].
    exists (i / 256). split; [|split; [lia_div|lia]].
    split; [lia_div|]. apply Z.div_le_mono; lia.
Qed.
End revision.

(** X25. The revision of the tile-cached strategy is right for every
    kernel that fits the constant table: its staging fills the whole
    tile, whatever the number of batches, and [convolve_shared] returns
    the raster that the global-memory strategy returns, whatever shared,
    device and host memory held before (in particular for the 9x9 kernels
    on which the first version reads slots it never staged): every pixel
    is the clamped, truncated sum of its window in the padded raster,
    accumulated with fused multiply-adds. *)
Theorem revised_tile_cached_strategy_matches_global_strategy
    (uninit uninit' : nat -> Z) (im : Image.t) (k : Kernel.t) (pt : PaddingType) :
  valid_image im -> valid_kernel k ->
  (pt = MIRROR -> Kernel.width k / 2 < Image.width im
                  /\ Kernel.width k / 2 < Image.height im) ->
  Kernel.width k <= Parallel.MAX_MASK_WIDTH ->
  exists padded out,
    Image.padding im (Kernel.width k / 2) (Kernel.height k / 2) pt = Ok padded
    /\ ParallelRevised.convolve_shared uninit im k pt = Ok out
    /\ Parallel.convolve_global uninit' im k pt = Ok out
    /\ forall x y ch,
         in_raster (Image.width im) (Image.height im) (Image.channels im) x y ch ->
         Image.get out x y ch = Ok (stored (fused_sum padded k x y ch)).
Proof.
  intros Hv Hk Hm Hfit.
  destruct (global_and_constant_ok uninit' im k pt Hv Hk Hm)
    as (padded & out & Ep & Eo & _ & Ew & Eh & Ec & Es & El & Hpx).
  pose proof Hk as (Hkw & Hkh & Hko & Hkl).
  destruct (padding_ok im (Kernel.width k / 2) (Kernel.height k / 2) pt Hv)
    as (p' & Ep' & Epw & Eph & Epc & Eps & Epl & _).
  { apply Z.div_pos; lia. } { apply Z.div_pos; lia. } { by rewrite Hkh. }
  rewrite Ep in Ep'. injection Ep' as <-.
  pose proof Hv as (HW & HH & HC & Hlen & Hu8).
  assert (Hn : 0 <= Image.width im * Image.height im * Image.channels im) by nia.
  exists padded, out. split; [done|]. split; [|done].
  unfold ParallelRevised.convolve_shared. unfold floor_half at 1 2.
  rewrite Ep. cbn [bind]. cbv zeta.
  set (c_kernel := list_inserts 0 (Kernel.data k)
                     (replicate (Z.to_nat (Parallel.MAX_MASK_WIDTH
                                           * Parallel.MAX_MASK_WIDTH)) F32.zero)).
  assert (Hdk : forall i v, Kernel.data k !! i = Some v -> c_kernel !! i = Some v).
  { intros i v Hi. unfold c_kernel.
    pose proof (lookup_lt_Some _ _ _ Hi) as Hlt.
    rewrite list_lookup_inserts; [by rewrite Nat.sub_0_r|lia|].
    rewrite length_replicate. unfold Kernel.get_size in Hkl.
    rewrite Hkh in Hkl. change Parallel.MAX_MASK_WIDTH with 10 in *. nia. }
  assert (Hcopy : Parallel.copy_to_c_kernel (Kernel.data k)
                    (Kernel.width k * Kernel.height k) = Ok c_kernel).
  { unfold Parallel.copy_to_c_kernel.
    assert (Hcount : Kernel.width k * Kernel.height k
                     <= Parallel.MAX_MASK_WIDTH * Parallel.MAX_MASK_WIDTH).
    { rewrite Hkh. change Parallel.MAX_MASK_WIDTH with 10 in *. nia. }
    destruct (Z.ltb_spec (Parallel.MAX_MASK_WIDTH * Parallel.MAX_MASK_WIDTH)
                (Kernel.width k * Kernel.height k)); [lia|].
    by rewrite memcpy_all by done. }
  replace ((Parallel.TILE_WIDTH + Kernel.width k - 1)
           * (Parallel.TILE_WIDTH + Kernel.height k - 1))
    with ((Parallel.TILE_WIDTH + (Kernel.width k - 1))
          * (Parallel.TILE_WIDTH + (Kernel.height k - 1))) by lia.
  set (N := Image.width im * Image.height im * Image.channels im) in *.
  set (stored_all := fun t : list Z => forall x y ch,
         in_raster (Image.width im) (Image.height im) (Image.channels im) x y ch ->
         t !! Z.to_nat (offset (Image.is_SoA im) (Image.width im) (Image.height im)
                          (Image.channels im) x y ch)
         = Some (stored (fused_sum padded k x y ch))).
  lazymatch goal with
  | |- (do st <- for_range 0 _ ?body ?init; _) = _ =>
      destruct (for_range_ok
        (fun i (st : list Z * list Z) =>
           Z.of_nat (length (fst st)) = N /\ Z.of_nat (length (snd st)) = N
           /\ (0 < i -> stored_all (snd st)))
        0 Parallel.ITERATIONS body init) as (st & E & _ & Hlh & Hst)
  end.
  - done.
  - cbn [fst snd]. rewrite !length_alloc by done. repeat split. lia.
  - intros i [d0 h0] Hi (Hd0 & Hh0 & _). cbn [fst snd] in *.
    rewrite memcpy_all by (by unfold Image.get_size in Epl). cbn [bind].
    rewrite Hcopy. cbn [bind].
    destruct (tile_launch_ok padded k c_kernel (Image.width im) (Image.height im)
                (Image.channels im) (Image.is_SoA im) HW HH HC Hk Epl Epw Eph Epc Eps Hdk
                (fun blockIdx =>
                   ParallelRevised.convolution_kernel_shared_block uninit
                     ((Parallel.TILE_WIDTH + (Kernel.width k - 1))
                      * (Parallel.TILE_WIDTH + (Kernel.height k - 1)))
                     c_kernel blockIdx
                     (Parallel.mk_dim3 Parallel.TILE_WIDTH Parallel.TILE_WIDTH)
                     (Image.data padded)
                     (Image.width im) (Image.height im) (Image.channels im)
                     (Kernel.width k) (Kernel.height k)
                     (floor_half (Kernel.width k)) (floor_half (Kernel.height k))
                     (Image.is_SoA im))
                d0) as (d1 & -> & Hl1 & Hp1); [|done|].
    { intros bx by_ d Hbx Hby Hd.
      apply (tile_block_writes padded k c_kernel (Image.width im) (Image.height im)
               (Image.channels im) (Image.is_SoA im) HW HH HC Hk Epl Epw Eph Epc Eps Hdk
               (fun channel =>
                  Parallel.for_threads
                    (Parallel.mk_dim3 Parallel.TILE_WIDTH Parallel.TILE_WIDTH)
                    (fun threadIdx =>
                       ParallelRevised.shared_stage (Parallel.mk_dim3 bx by_) threadIdx
                         (Image.data padded)
                         (Image.width im) (Image.height im) (Image.channels im)
                         (Kernel.width k) (Kernel.height k)
                         (floor_half (Kernel.width k)) (floor_half (Kernel.height k))
                         (Image.is_SoA im) channel))); try done.
      intros ch s0 Hch Hs0.
      by apply (revised_staging_ok padded k (Image.width im) (Image.height im)
                  (Image.channels im) (Image.is_SoA im) HW HH HC Hk Epl Epw Eph Epc
                  Eps). }
    cbn [bind]. rewrite memcpy_all by done. cbn [bind].
    eexists. split; [done|]. cbn [fst snd]. by repeat split.
  - rewrite E. cbn [bind]. unfold Image.create_from.
    rewrite memcpy_all by done. cbn [bind]. f_equal.
    assert (Hdata : snd st = Image.data out).
    { unfold Image.get_size in El. rewrite Ew, Eh, Ec in El.
      apply (buffer_ext (Image.width im) (Image.height im) (Image.channels im)
               (Image.is_SoA im)); [lia|lia|lia|done|done|].
      intros x y ch Hin. rewrite (Hst ltac:(done) x y ch Hin). symmetry.
      rewrite <- Ew, <- Eh, <- Ec, <- Es.
      apply get_inv; [unfold Image.get_size; by rewrite Ew, Eh, Ec
                     |by rewrite Ew, Eh, Ec|].
      by apply Hpx. }
    rewrite Hdata. destruct out; cbn in *. by subst.
Qed.

Lemma revised_tile_cached_strategy_matches_global_strategy_witness :
  exists padded out,
    Image.padding raster_1x14 (Kernel.width kernel_9x9_corner / 2)
      (Kernel.height kernel_9x9_corner / 2) REPLICATE = Ok padded
    /\ ParallelRevised.convolve_shared (fun _ => 7) raster_1x14 kernel_9x9_corner
         REPLICATE = Ok out
    /\ Parallel.convolve_global (fun _ => 0) raster_1x14 kernel_9x9_corner REPLICATE
       = Ok out
    /\ forall x y ch,
         in_raster (Image.width raster_1x14) (Image.height raster_1x14)
           (Image.channels raster_1x14) x y ch ->
         Image.get out x y ch
         = Ok (stored (fused_sum padded kernel_9x9_corner x y ch)).
Proof.
  apply (revised_tile_cached_strategy_matches_global_strategy (fun _ => 7) (fun _ => 0)
           raster_1x14 kernel_9x9_corner REPLICATE).
  - apply raster_1x14_valid.
  - apply kernel_9x9_corner_valid.
  - intros [=].
  - cbn. change Parallel.MAX_MASK_WIDTH with 10. lia.
Defined.

(* ===================================================================== *)
(** * The command line                                                    *)
(* ===================================================================== *)

Lemma eqb_one_of (s : string) (names : list string) :
  existsb (String.eqb s) names = true -> s ∈ names.
Proof.
  induction names as [|n names IH]; cbn; [done|].
  intros H. apply orb_true_iff in H as [H|H].
  - apply String.eqb_eq in H as ->. by left.
  - right. by apply IH.
Qed.

Section command_line.
Variable stoi : string -> result Z.
Variable kernel_data_numbers : string -> list F32.float.

Local Abbreviation kernels :=
  ["box_blur"; "gaussian_blur"; "sharpen"; "edge_detection"; "unsharpen_mask";
   "emboss"; "custom"]%string.
Local Abbreviation memories := ["global"; "constant"; "shared"; "pinned"]%string.

(** What the loop of [processInput] keeps true of the globals. *)
Lemma process_arg_keeps (arg : string) (g : Main.globals) (s : Main.step) :
  (Main.KERNEL g = EmptyString \/ Main.KERNEL g ∈ kernels) ->
  (Main.EXECUTION_TYPE g = EmptyString
   \/ Main.EXECUTION_TYPE g ∈ ["parallel"; "sequential"]%string) ->
  (Main.MEMORY_TYPE g = EmptyString \/ Main.MEMORY_TYPE g ∈ memories) ->
  Main.process_arg stoi kernel_data_numbers arg g = Ok s ->
  match s with
  | Main.Continue g' =>
      (Main.KERNEL g' = EmptyString \/ Main.KERNEL g' ∈ kernels)
      /\ (Main.EXECUTION_TYPE g' = EmptyString
          \/ Main.EXECUTION_TYPE g' ∈ ["parallel"; "sequential"]%string)
      /\ (Main.MEMORY_TYPE g' = EmptyString \/ Main.MEMORY_TYPE g' ∈ memories)
  | Main.Return status _ => status = 0 -> arg = "--help"%string \/ arg = "-H"%string
  end.
Proof using Type.
  intros Hk He Hm. unfold Main.process_arg.
  destruct (String.eqb arg "--help" || String.eqb arg "-H") eqn:Ehelp.
  { intros [= <-] _. apply orb_true_iff in Ehelp as [E|E];
      apply String.eqb_eq in E; tauto. }
  repeat match goal with
  | |- (if ?c then _ else _) = _ -> _ => destruct c eqn:?
  | |- bind ?m _ = _ -> _ => destruct m; cbn [bind]; try done
  end; try (intros [= <-]); try done; cbn; repeat split; try done; right.
  all: match goal with
       | H : _ = true |- ?v ∈ ?l => apply eqb_one_of; cbn [existsb]; try done
       end.
  all: match goal with
       | H : (_ || _) = true |- _ =>
           revert H; rewrite ?orb_true_iff, ?orb_false_r; tauto
       end.
Qed.

Lemma process_args_keeps (args : list string) (g g' : Main.globals) :
  (Main.KERNEL g = EmptyString \/ Main.KERNEL g ∈ kernels) ->
  (Main.EXECUTION_TYPE g = EmptyString
   \/ Main.EXECUTION_TYPE g ∈ ["parallel"; "sequential"]%string) ->
  (Main.MEMORY_TYPE g = EmptyString \/ Main.MEMORY_TYPE g ∈ memories) ->
  (forall a, a ∈ args -> a <> "--help"%string /\ a <> "-H"%string) ->
  Main.process_args stoi kernel_data_numbers args g = Ok (0, g') ->
  Main.IMAGE_PATH g' <> EmptyString
  /\ Main.KERNEL g' ∈ kernels
  /\ Main.EXECUTION_TYPE g' ∈ ["parallel"; "sequential"]%string
  /\ (Main.MEMORY_TYPE g' = EmptyString \/ Main.MEMORY_TYPE g' ∈ memories).
Proof using Type.
  revert g. induction args as [|arg args IH]; intros g Hk He Hm Hnh; cbn.
  - destruct (String.eqb_spec (Main.IMAGE_PATH g) EmptyString) as [|Hi]; [done|].
    destruct (String.eqb_spec (Main.KERNEL g) EmptyString) as [|Hkn]; [done|].
    destruct (String.eqb_spec (Main.EXECUTION_TYPE g) EmptyString) as [|Hen]; [done|].
    cbn. intros [= <-]. split; [done|]. split; [tauto|]. split; [tauto|done].
  - destruct (Main.process_arg stoi kernel_data_numbers arg g) as [s| | |] eqn:Es;
      try done. cbn [bind].
    pose proof (process_arg_keeps arg g s Hk He Hm Es) as Hs.
    destruct s as [g1|status g1].
    + destruct Hs as (Hk1 & He1 & Hm1). apply IH; try done.
      intros a Ha. apply Hnh. by right.
    + intros [= -> ->]. destruct (Hnh arg ltac:(by left)). destruct Hs; done.
Qed.

(** X26. A command line that [processInput] accepts without a help flag
    is complete: the image path is not empty, the kernel is one of the
    seven names, the execution type is "parallel" or "sequential", the
    memory type is one of the four names or was never given; and
    [runConvolution] then runs the sequential engine exactly for
    "sequential", and the pinned strategy for a parallel run without a
    memory type. *)
Theorem accepted_command_line_is_complete (argv : list string) (g : Main.globals) :
  Main.processInput stoi kernel_data_numbers argv Main.initial = Ok (0, g) ->
  (forall a, a ∈ tail argv -> a <> "--help"%string /\ a <> "-H"%string) ->
  Main.IMAGE_PATH g <> EmptyString
  /\ Main.KERNEL g ∈ kernels
  /\ Main.EXECUTION_TYPE g ∈ ["parallel"; "sequential"]%string
  /\ (Main.MEMORY_TYPE g = EmptyString \/ Main.MEMORY_TYPE g ∈ memories)
  /\ (Main.runConvolution g = Main.sequential
      <-> Main.EXECUTION_TYPE g = "sequential"%string)
  /\ (Main.EXECUTION_TYPE g = "parallel"%string ->
      Main.MEMORY_TYPE g = EmptyString ->
      Main.runConvolution g = Main.pinned).
Proof using Type.
  intros E Hnh. unfold Main.processInput in E.
  destruct (process_args_keeps (tail argv) Main.initial g) as (Hi & Hk & He & Hm);
    [by left|by left|by left|done|done|].
  repeat (split; [done|]). unfold Main.runConvolution. split.
  - destruct (String.eqb_spec (Main.EXECUTION_TYPE g) "sequential") as [->|Hne].
    + done.
    + split; [|done]. by repeat case_match.
  - intros -> ->. done.
Qed.

(** X27. The help flag is "--help" or "-H", and [processInput] answers
    it with 0, the status of an accepted command line, leaving the
    globals as they were; "-h", which the usage text and the error
    message name, is an invalid argument and returns 1. *)
Theorem help_flag_returns_success (prog : string) (rest : list string)
    (g : Main.globals) :
  Main.processInput stoi kernel_data_numbers (prog :: "--help" :: rest)%string g
  = Ok (0, g)
  /\ Main.processInput stoi kernel_data_numbers (prog :: "-H" :: rest)%string g
     = Ok (0, g)
  /\ Main.processInput stoi kernel_data_numbers (prog :: "-h" :: rest)%string g
     = Ok (1, g).
Proof using Type.
  split; [done|]. split; [done|].
  unfold Main.processInput. cbn [tail Main.process_args].
  unfold Main.process_arg. cbn. by rewrite !andb_false_r.
Qed.

(** X28. The options of a custom kernel are recognised only once
    "--kernel=custom" has been read, and the memory type only once
    "--execution_type=parallel" has: given earlier on the command line,
    each of them is an invalid argument and [processInput] returns 1. *)
Theorem dependent_options_need_their_switch_first (g : Main.globals) (v : string) :
  (Main.KERNEL g <> "custom"%string ->
   forall arg,
     arg ∈ [("--kernel_size=" ++ v)%string; ("-Z=" ++ v)%string;
            ("--kernel_data=" ++ v)%string; ("-D=" ++ v)%string;
            "--kernel_normalization"%string; "-N"%string] ->
     Main.process_arg stoi kernel_data_numbers arg g = Ok (Main.Return 1 g))
  /\ (Main.EXECUTION_TYPE g <> "parallel"%string ->
      forall arg,
        arg ∈ [("--memory_type=" ++ v)%string; ("-M=" ++ v)%string] ->
        Main.process_arg stoi kernel_data_numbers arg g = Ok (Main.Return 1 g)).
Proof using Type.
  split.
  - intros Hk arg Ha. apply String.eqb_neq in Hk.
    repeat (apply elem_of_cons in Ha as [->|Ha]); [..|by apply elem_of_nil in Ha].
    all: unfold Main.process_arg; cbn; rewrite Hk; cbn; by rewrite ?andb_false_r.
  - intros He arg Ha. apply String.eqb_neq in He.
    repeat (apply elem_of_cons in Ha as [->|Ha]); [..|by apply elem_of_nil in Ha].
    all: unfold Main.process_arg; cbn; rewrite He; cbn; by rewrite ?andb_false_r.
Qed.

Lemma strchr_skips (junk rest : string) (c : Ascii.ascii) :
  Main.strchr junk c = None ->
  Main.strchr (junk ++ String c rest)%string c = Some (String c rest).
Proof.
  induction junk as [|a junk IH]; cbn.
  - by rewrite Ascii.eqb_refl.
  - destruct (Ascii.eqb a c); [done|]. exact IH.
Qed.

Lemma strchr_none_app (a b : string) (c : Ascii.ascii) :
  Main.strchr a c = None -> Main.strchr b c = None ->
  Main.strchr (a ++ b)%string c = None.
Proof.
  induction a as [|x a IH]; cbn; [done|].
  destruct (Ascii.eqb x c); [done|]. exact IH.
Qed.

Lemma last_char_app (a b : string) :
  b <> EmptyString -> Main.last_char (a ++ b)%string = Main.last_char b.
Proof.
  intros Hb. induction a as [|x a IH]; [done|].
  change (String x a ++ b)%string with (String x (a ++ b)%string).
  cbn [Main.last_char]. rewrite IH.
  destruct (a ++ b)%string eqn:E; [|done].
  destruct a; [done|discriminate].
Qed.

Lemma last_char_nonempty (a : Ascii.ascii) (s : string) :
  exists c, Main.last_char (String a s) = Ok c.
Proof.
  revert a. induction s as [|b s IH]; intros a; [by exists a|].
  destruct (IH b) as [c E]. exists c. by rewrite <- E.
Qed.

(** X29. Two options are matched on twelve characters only.
    "--image_path" is accepted without its "=": alone it makes
    [processInput] read past a null pointer, and followed by any text
    without "=" and then "=value" it sets the image path to the value.
    "--results_path=value" is accepted exactly when the argument ends in
    a backslash, and returns 1 otherwise; so is "--results_pa" followed by
    any text without "=" and then "=value"; and "--results_pa" followed by
    text without "=" that ends in a backslash makes [processInput] read
    past a null pointer. *)
Theorem options_matched_on_twelve_characters (g : Main.globals) :
  Main.process_arg stoi kernel_data_numbers "--image_path" g = Undefined
  /\ (forall junk value,
        Main.strchr junk "="%char = None ->
        Main.process_arg stoi kernel_data_numbers
          ("--image_path" ++ junk ++ String "="%char value)%string g
        = Ok (Main.Continue
                (Main.mk_globals value (Main.SOA g) (Main.PADDING_TYPE g) (Main.KERNEL g)
                   (Main.KERNEL_SIZE g) (Main.KERNEL_DATA g)
                   (Main.KERNEL_NORMALIZATION g) (Main.EXECUTION_TYPE g)
                   (Main.MEMORY_TYPE g) (Main.OUTPUT_PATH g) (Main.RESULTS_PATH g))))
  /\ (forall value,
        Main.process_arg stoi kernel_data_numbers ("--results_path=" ++ value)%string g
        = if match Main.last_char ("=" ++ value)%string with
             | Ok c => Ascii.eqb c Main.backslash
             | _ => false
             end
          then Ok (Main.Continue
                     (Main.mk_globals (Main.IMAGE_PATH g) (Main.SOA g)
                        (Main.PADDING_TYPE g) (Main.KERNEL g) (Main.KERNEL_SIZE g)
                        (Main.KERNEL_DATA g) (Main.KERNEL_NORMALIZATION g)
                        (Main.EXECUTION_TYPE g) (Main.MEMORY_TYPE g)
                        (Main.OUTPUT_PATH g) value))
          else Ok (Main.Return 1 g))
  /\ (forall junk value,
        Main.strchr junk "="%char = None ->
        Main.process_arg stoi kernel_data_numbers
          ("--results_pa" ++ junk ++ String "="%char value)%string g
        = if match Main.last_char (String "="%char value) with
             | Ok c => Ascii.eqb c Main.backslash
             | _ => false
             end
          then Ok (Main.Continue
                     (Main.mk_globals (Main.IMAGE_PATH g) (Main.SOA g)
                        (Main.PADDING_TYPE g) (Main.KERNEL g) (Main.KERNEL_SIZE g)
                        (Main.KERNEL_DATA g) (Main.KERNEL_NORMALIZATION g)
                        (Main.EXECUTION_TYPE g) (Main.MEMORY_TYPE g)
                        (Main.OUTPUT_PATH g) value))
          else Ok (Main.Return 1 g))
  /\ (forall junk,
        Main.strchr junk "="%char = None ->
        Main.process_arg stoi kernel_data_numbers
          ("--results_pa" ++ junk ++ String Main.backslash EmptyString)%string g
        = Undefined).
Proof using Type.
  split; [done|]. split; [|split; [|split]].
  - intros junk value Hj. unfold Main.process_arg. cbn.
    unfold Main.value_of. cbn. by rewrite strchr_skips.
  - intros value. unfold Main.process_arg. cbn. rewrite !andb_false_r. cbn.
    destruct value as [|a value]; [reflexivity|].
    destruct (last_char_nonempty a value) as [c ->]. cbn.
    by destruct (Ascii.eqb c Main.backslash).
  - intros junk value Hj.
    assert (El : Main.last_char ("--results_pa" ++ junk ++ String "="%char value)
                 = Main.last_char (String "="%char value)).
    { rewrite !last_char_app; [done|done|by destruct junk]. }
    assert (Ev : Main.value_of ("--results_pa" ++ junk ++ String "="%char value)
                 = Ok value).
    { unfold Main.value_of. cbn. by rewrite strchr_skips. }
    unfold Main.process_arg.
    destruct (last_char_nonempty "="%char value) as [c Ec].
    rewrite El, Ev, Ec. cbn. rewrite !andb_false_r. cbn.
    by destruct (Ascii.eqb c Main.backslash).
  - intros junk Hj.
    assert (El : Main.last_char
                   ("--results_pa" ++ junk ++ String Main.backslash EmptyString)
                 = Ok Main.backslash).
    { rewrite last_char_app by (by destruct junk).
      by rewrite last_char_app. }
    assert (Ev : Main.value_of
                   ("--results_pa" ++ junk ++ String Main.backslash EmptyString)
                 = Undefined).
    { unfold Main.value_of.
      by rewrite strchr_none_app;
        [|reflexivity|apply strchr_none_app; [done|reflexivity]]. }
    unfold Main.process_arg.
    rewrite El, Ev. cbn. rewrite !andb_false_r. cbn. done.
Qed.
End command_line.

Lemma accepted_command_line_is_complete_witness :
  let g := Main.mk_globals "a.png" false MIRROR "sharpen" 0 [] false "parallel"
             EmptyString EmptyString (Main.RESULTS_PATH Main.initial) in
  Main.IMAGE_PATH g <> EmptyString
  /\ Main.KERNEL g ∈ ["box_blur"; "gaussian_blur"; "sharpen"; "edge_detection";
                      "unsharpen_mask"; "emboss"; "custom"]%string
  /\ Main.EXECUTION_TYPE g ∈ ["parallel"; "sequential"]%string
  /\ (Main.MEMORY_TYPE g = EmptyString
      \/ Main.MEMORY_TYPE g ∈ ["global"; "constant"; "shared"; "pinned"]%string)
  /\ (Main.runConvolution g = Main.sequential
      <-> Main.EXECUTION_TYPE g = "sequential"%string)
  /\ (Main.EXECUTION_TYPE g = "parallel"%string ->
      Main.MEMORY_TYPE g = EmptyString ->
      Main.runConvolution g = Main.pinned).
Proof.
  apply (accepted_command_line_is_complete (fun _ => Ok 0) (fun _ => [])
           ["kip"; "--image_path=a.png"; "--kernel=sharpen";
            "--execution_type=parallel"]%string).
  - reflexivity.
  - intros a Ha. cbn in Ha.
    repeat (apply elem_of_cons in Ha as [->|Ha]); [..|by apply elem_of_nil in Ha];
      split; discriminate.
Defined.

Lemma dependent_options_need_their_switch_first_witness :
  Main.process_arg (fun _ => Ok 3) (fun _ => []) "--kernel_size=3" Main.initial
  = Ok (Main.Return 1 Main.initial)
  /\ Main.process_arg (fun _ => Ok 3) (fun _ => []) "-M=shared" Main.initial
     = Ok (Main.Return 1 Main.initial).
Proof.
  split.
  - apply (proj1 (dependent_options_need_their_switch_first (fun _ => Ok 3)
                    (fun _ => []) Main.initial "3"%string)); [discriminate|]. by left.
  - apply (proj2 (dependent_options_need_their_switch_first (fun _ => Ok 3)
                    (fun _ => []) Main.initial "shared"%string)); [discriminate|].
    right. by left.
Defined.

Lemma options_matched_on_twelve_characters_witness :
  Main.process_arg (fun _ => Ok 3) (fun _ => []) "--image_pathology=a.png" Main.initial
  = Ok (Main.Continue
          (Main.mk_globals "a.png" false MIRROR EmptyString 0 [] false EmptyString
             EmptyString EmptyString (Main.RESULTS_PATH Main.initial)))
  /\ Main.process_arg (fun _ => Ok 3) (fun _ => [])
       ("--results_pa" ++ "ges"
        ++ String "="%char ("out" ++ String Main.backslash EmptyString))%string
       Main.initial
     = Ok (Main.Continue
             (Main.mk_globals EmptyString false MIRROR EmptyString 0 [] false
                EmptyString EmptyString EmptyString
                ("out" ++ String Main.backslash EmptyString)%string))
  /\ Main.process_arg (fun _ => Ok 3) (fun _ => [])
       ("--results_pa" ++ "ges" ++ String Main.backslash EmptyString)%string
       Main.initial
     = Undefined.
Proof.
  split; [|split].
  - apply (proj1 (proj2 (options_matched_on_twelve_characters (fun _ => Ok 3)
                           (fun _ => []) Main.initial))
             "ology"%string "a.png"%string).
    reflexivity.
  - apply (proj1 (proj2 (proj2 (proj2 (options_matched_on_twelve_characters
                                          (fun _ => Ok 3) (fun _ => []) Main.initial))))
             "ges"%string ("out" ++ String Main.backslash EmptyString)%string).
    reflexivity.
  - apply (proj2 (proj2 (proj2 (proj2 (options_matched_on_twelve_characters
                                          (fun _ => Ok 3) (fun _ => []) Main.initial))))
             "ges"%string).
    reflexivity.
Defined.

(** X30. [processInput] does not require the size and the data of a
    custom kernel.  A command line that names an image, "--kernel=custom"
    and an execution type is accepted, and [main] then calls
    [custom_kernel] with size 0 and a null array, which throws "Kernel
    dimensions must be greater than 0."; with an odd, positive
    "--kernel_size" and no "--kernel_data" it is accepted too, and
    [custom_kernel] reads the weights through the null pointer. *)
Theorem custom_kernel_options_are_not_required (stoi : string -> result Z)
    (kernel_data_numbers : string -> list F32.float) (prog path : string) :
  path <> EmptyString ->
  (exists g,
     Main.processInput stoi kernel_data_numbers
       [prog; ("--image_path=" ++ path)%string; "--kernel=custom"%string;
        "--execution_type=sequential"%string] Main.initial = Ok (0, g)
     /\ Main.KERNEL g = "custom"%string
     /\ Main.KERNEL_SIZE g = 0
     /\ Main.KERNEL_DATA g = []
     /\ snd (Main.main_kernel g) = Throw "Kernel dimensions must be greater than 0.")
  /\ (forall text size normalization,
        stoi text = Ok size -> 0 < size -> Z.odd size = true ->
        exists g,
          Main.processInput stoi kernel_data_numbers
            ([prog; ("--image_path=" ++ path)%string; "--kernel=custom"%string;
              ("--kernel_size=" ++ text)%string]
             ++ (if normalization : bool then ["--kernel_normalization"%string] else [])
             ++ ["--execution_type=sequential"%string]) Main.initial = Ok (0, g)
          /\ Main.KERNEL_SIZE g = size
          /\ Main.KERNEL_DATA g = []
          /\ Main.KERNEL_NORMALIZATION g = normalization
          /\ snd (Main.main_kernel g) = Undefined).
Proof.
  intros Hp. apply String.eqb_neq in Hp. split.
  - eexists. split.
    + unfold Main.processInput. cbn. rewrite Hp. cbn. reflexivity.
    + cbn. done.
  - intros text size normalization Es Hs Ho.
    assert (Hsz : 0 < size * size) by nia.
    assert (Hn : exists n, Z.to_nat (size * size - 0) = S n).
    { exists (Z.to_nat (size * size - 1)). lia. }
    destruct Hn as [n Hn].
    destruct normalization.
    + eexists. split.
      * unfold Main.processInput. cbn. rewrite Es. cbn.
        destruct (Z.leb_spec size 0); [lia|]. cbn. rewrite Hp. cbn. reflexivity.
      * cbn. repeat (split; [done|]).
        unfold Kernel.custom_kernel, for_range. rewrite Hn.
        cbn [for_steps]. unfold raw_load at 1. cbn. rewrite lookup_nil. reflexivity.
    + eexists. split.
      * unfold Main.processInput. cbn. rewrite Es. cbn.
        destruct (Z.leb_spec size 0); [lia|]. cbn. rewrite Hp. cbn. reflexivity.
      * cbn. repeat (split; [done|]).
        unfold Kernel.custom_kernel, Kernel.create_from.
        rewrite create_ok by done. cbn. unfold memcpy, Kernel.get_size. cbn.
        change (Z.of_nat 0) with 0.
        by destruct (Z.ltb_spec 0 (size * size)); [|lia].
Qed.

Lemma custom_kernel_options_are_not_required_witness :
  (exists g,
     Main.processInput (fun _ => Ok 3) (fun _ => [])
       ["kip"; ("--image_path=" ++ "a.png")%string; "--kernel=custom";
        "--execution_type=sequential"]%string Main.initial = Ok (0, g)
     /\ Main.KERNEL g = "custom"%string
     /\ Main.KERNEL_SIZE g = 0
     /\ Main.KERNEL_DATA g = []
     /\ snd (Main.main_kernel g) = Throw "Kernel dimensions must be greater than 0.")
  /\ exists g,
       Main.processInput (fun _ => Ok 3) (fun _ => [])
         ([("kip")%string; ("--image_path=" ++ "a.png")%string; "--kernel=custom"%string;
           ("--kernel_size=" ++ "3")%string]
          ++ (if true then ["--kernel_normalization"%string] else [])
          ++ ["--execution_type=sequential"%string]) Main.initial = Ok (0, g)
       /\ Main.KERNEL_SIZE g = 3
       /\ Main.KERNEL_DATA g = []
       /\ Main.KERNEL_NORMALIZATION g = true
       /\ snd (Main.main_kernel g) = Undefined.
Proof.
  destruct (custom_kernel_options_are_not_required (fun _ => Ok 3) (fun _ => [])
              "kip" "a.png" ltac:(discriminate)) as [H1 H2].
  split; [exact H1|].
  apply (H2 "3"%string 3 true); [reflexivity|lia|reflexivity].
Defined.
